(** * Search-promotion admin views

    A shallow embedding of
    [wagtail/contrib/search_promotions/views/settings.py]: the index
    queryset, the formset save routine [save_searchpicks], the [add], [edit]
    and [delete] handlers and the popularity [chooser].

    The relational store is a record of tables (lists of rows).  Handlers are
    computations in a state-and-exception monad over a [World]: the store, the
    flash messages of the session, a journal of the statements executed, and a
    fault plan saying which write statements fail, so that the behaviour of
    [transaction.atomic] under failure can be stated.

    The forms module and the models module are not part of the file: what
    validation returns, raises and reports comes with the submitted data, and
    the picks of a query come in the default ordering of their model. *)

From Stdlib Require Import String Ascii Bool Arith PArith ZArith Lia.
From Stdlib Require Import Permutation Sorted List.
Import ListNotations.
Local Open Scope string_scope.
Local Open Scope list_scope.
Local Open Scope nat_scope.

(** ** Data model *)

(** A [Query] row: primary key and normalised search string. *)
Record Query := mkQuery {
  qid : positive;
  query_string : string
}.

(** A [SearchPromotion] row (an editor's pick).  [AutoField] keys are
    positive, so the truth test [if form.instance.pk] of the source is the
    test that a key is present. *)
Record SearchPromotion := mkPick {
  pk : positive;
  query_id : positive;
  page_id : positive;
  description : string;
  sort_order : option nat
}.

(** A time-bucketed hit counter of the logging subsystem. *)
Record QueryDailyHits := mkHits {
  dh_query_id : positive;
  dh_date : Z;
  hits : Z
}.

(** An audit-log entry written by [log(instance, action)]. *)
Record LogEntry := mkLog {
  object_id : positive;
  action : string
}.

Record Store := mkStore {
  queries : list Query;
  promotions : list SearchPromotion;
  daily_hits : list QueryDailyHits;
  log_entries : list LogEntry;
  next_pk : positive
}.

(** Statements executed against the store, in order. *)
Inductive Event :=
| EvLog (k : positive) (act : string)
| EvDelete (k : positive)
| EvInsert (k : positive)
| EvUpdate (k : positive)
| EvBulkUpdate (old_q new_q : positive)
| EvBulkDelete (q : positive) (removed : list positive)
| EvInsertQuery (q : positive).

Inductive Level := LvlSuccess | LvlError.

Record Message := mkMessage {
  level : Level;
  text : string
}.

Record World := mkWorld {
  db : Store;
  messages : list Message;
  journal : list Event;
  tick : nat;
  faults : list nat
}.

(** The exceptions that leave a handler: a missing object, a failed database
    statement, an error raised by the validation code of the forms module,
    and the refusal of the permission gate. *)
Inductive Exc := Http404 | DatabaseError | KeyError | PermissionDenied.

Inductive Outcome (A : Type) :=
| Ok (a : A)
| Raise (e : Exc).
Arguments Ok {A} a.
Arguments Raise {A} e.

(** ** The handler monad *)

Definition M (A : Type) : Type := World -> Outcome A * World.

Definition ret {A} (a : A) : M A := fun w => (Ok a, w).

Definition bind {A B} (m : M A) (k : A -> M B) : M B :=
  fun w =>
    match m w with
    | (Ok a, w') => k a w'
    | (Raise e, w') => (Raise e, w')
    end.

Definition raise {A} (e : Exc) : M A := fun w => (Raise e, w).

Declare Scope view_scope.
Delimit Scope view_scope with view.
Notation "x <- c1 ;; c2" := (bind c1 (fun x => c2))
  (at level 61, c1 at next level, right associativity) : view_scope.
Notation "c1 ;; c2" := (bind c1 (fun _ => c2))
  (at level 61, right associativity) : view_scope.
Local Open Scope view_scope.

(** [for x in xs: body(x)] *)
Fixpoint for_each {A} (xs : list A) (body : A -> M unit) : M unit :=
  match xs with
  | [] => ret tt
  | x :: rest => body x ;; for_each rest body
  end.

Definition fault_now (w : World) : bool :=
  existsb (Nat.eqb (tick w)) (faults w).

Definition bump (w : World) : World :=
  mkWorld (db w) (messages w) (journal w) (S (tick w)) (faults w).

(** One write statement: it fails with a database error when the fault plan
    says so, and otherwise changes the store and is journalled. *)
Definition write_dyn (ev : Store -> Event) (f : Store -> Store) : M unit :=
  fun w =>
    if fault_now w then (Raise DatabaseError, bump w)
    else (Ok tt,
          mkWorld (f (db w)) (messages w) (journal w ++ [ev (db w)])
                  (S (tick w)) (faults w)).

Definition write (ev : Event) (f : Store -> Store) : M unit :=
  write_dyn (fun _ => ev) f.

(** [with transaction.atomic(): body].  When the body raises, the store is
    rolled back to its state at entry, the statements of the body leave the
    journal, and the exception propagates. *)
Definition atomic {A} (body : M A) : M A :=
  fun w =>
    match body w with
    | (Ok a, w') => (Ok a, w')
    | (Raise e, w') =>
        (Raise e, mkWorld (db w) (messages w') (journal w) (tick w') (faults w'))
    end.

Definition read {A} (f : Store -> A) : M A := fun w => (Ok (f (db w)), w).

(** ** Store operations *)

Definition set_promotions (ps : list SearchPromotion) (st : Store) : Store :=
  mkStore (queries st) ps (daily_hits st) (log_entries st) (next_pk st).

(** [log(instance, action)] of [wagtail.log_actions]: one row appended to
    the audit log, carrying the instance's key. *)
Definition log (instance : SearchPromotion) (act : string) : M unit :=
  write (EvLog (pk instance) act)
        (fun st => mkStore (queries st) (promotions st) (daily_hits st)
                           (log_entries st ++ [mkLog (pk instance) act])
                           (next_pk st)).

Definition fresh_qid (qs : list Query) : positive :=
  fold_right (fun q m => Pos.max (Pos.succ (qid q)) m) 1%positive qs.

(** [instance.delete()] *)
Definition delete_row (k : positive) : M unit :=
  write (EvDelete k)
        (fun st => set_promotions
                     (filter (fun p => negb (Pos.eqb (pk p) k)) (promotions st)) st).

(** [instance.save()] on an instance that has a key: the row is rewritten. *)
Definition update_row (r : SearchPromotion) : M unit :=
  write (EvUpdate (pk r))
        (fun st => set_promotions
                     (map (fun p => if Pos.eqb (pk p) (pk r) then r else p)
                          (promotions st)) st).

(** [instance.save()] on a new instance: the row is inserted under the next
    key of the table's sequence, which the instance then carries.  Keys are
    never handed out twice. *)
Definition insert_row (mk : positive -> SearchPromotion) : M SearchPromotion :=
  r <- read (fun st => mk (next_pk st)) ;;
  write (EvInsert (pk r))
        (fun st => mkStore (queries st) (promotions st ++ [r]) (daily_hits st)
                           (log_entries st) (Pos.succ (next_pk st))) ;;
  ret r.

(** [queryset.filter(query=old).update(query=new)]: one UPDATE statement. *)
Definition bulk_update_query (old_q new_q : positive) : M unit :=
  write (EvBulkUpdate old_q new_q)
        (fun st => set_promotions
                     (map (fun p => if Pos.eqb (query_id p) old_q
                                    then mkPick (pk p) new_q (page_id p)
                                                (description p) (sort_order p)
                                    else p)
                          (promotions st)) st).

(** [query.editors_picks.all().delete()]: one DELETE statement. *)
Definition bulk_delete_query (q : positive) : M unit :=
  write_dyn (fun st => EvBulkDelete q
                         (map pk (filter (fun p => Pos.eqb (query_id p) q)
                                         (promotions st))))
        (fun st => set_promotions
                     (filter (fun p => negb (Pos.eqb (query_id p) q))
                             (promotions st)) st).

(** The default ordering of [SearchPromotion] querysets, [sort_order]
    ascending ([Meta.ordering] of the model).  The database decides where
    rows without a sort order go and how ties are broken: here, as on SQLite,
    a missing sort order sorts first, and rows with the same sort order keep
    their table order. *)
Definition sort_order_ltb (a b : SearchPromotion) : bool :=
  match sort_order a, sort_order b with
  | Some x, Some y => x <? y
  | None, Some _ => true
  | _, _ => false
  end.

Fixpoint insert_pick (x : SearchPromotion) (l : list SearchPromotion)
  : list SearchPromotion :=
  match l with
  | [] => [x]
  | y :: rest =>
      if sort_order_ltb x y then x :: y :: rest else y :: insert_pick x rest
  end.

Definition order_by_sort_order (l : list SearchPromotion)
  : list SearchPromotion :=
  fold_left (fun acc x => insert_pick x acc) l [].

(** [query.editors_picks.all()]: the picks of the query, in the default
    ordering of [SearchPromotion]. *)
Definition editors_picks (st : Store) (q : Query) : list SearchPromotion :=
  order_by_sort_order
    (filter (fun p => Pos.eqb (query_id p) (qid q)) (promotions st)).

(** ** Forms and the inline formset

    The framework's bound form objects, as far as the views use them.  A
    form's validation outcome, its field errors and its cleaned data come
    with the submitted data.  [instance_pk] and [instance_sort_order] are the
    key and the sort order of [form.instance]: those of the stored row for a
    form that names one, none for a new instance.  [has_changed_forced] and
    [instance_sort_order] are the two attributes that [save_searchpicks]
    assigns. *)

Record Form := mkForm {
  instance_pk : option positive;
  cleaned_page : positive;
  cleaned_description : string;
  cleaned_ORDER : option Z;
  cleaned_DELETE : bool;
  changed_data : list string;
  has_changed_forced : bool;
  instance_sort_order : option nat;
  form_errors : list (string * string)
}.

(** [formset_validation] is the outcome of [is_valid()]: what it returns, or
    the exception that the validation code of the forms module raises. *)
Record Formset := mkFormset {
  instance : Query;
  formset_validation : Outcome bool;
  initial_form_count : nat;
  forms : list Form;
  non_form_errors : list string;
  new_objects : list SearchPromotion;
  changed_objects : list (SearchPromotion * list string);
  deleted_objects : list SearchPromotion
}.

(** [searchpicks_formset.is_valid()] *)
Definition is_valid (fs : Formset) : M bool :=
  fun w => (formset_validation fs, w).

(** [is_valid()] has returned [True]. *)
Definition formset_is_valid (fs : Formset) : bool :=
  match formset_validation fs with
  | Ok b => b
  | Raise _ => false
  end.

Definition enumerate {A} (l : list A) : list (nat * A) :=
  combine (seq 0 (length l)) l.

Definition is_empty {A} (l : list A) : bool :=
  match l with [] => true | _ => false end.

(** [form.has_changed()]: [bool(self.changed_data)], unless the view has
    replaced the method by [lambda: True]. *)
Definition has_changed (f : Form) : bool :=
  has_changed_forced f || negb (is_empty (changed_data f)).

Definition should_delete_form (f : Form) : bool := cleaned_DELETE f.

Definition initial_forms (fs : Formset) : list Form :=
  firstn (initial_form_count fs) (forms fs).

Definition extra_forms (fs : Formset) : list Form :=
  skipn (initial_form_count fs) (forms fs).

(** [_deleted_form_indexes] *)
Definition deleted_form_indexes (fs : Formset) : list nat :=
  if formset_is_valid fs then
    map fst
        (filter (fun '(i, f) =>
                   if (initial_form_count fs <=? i) && negb (has_changed f)
                   then false
                   else should_delete_form f)
                (enumerate (forms fs)))
  else [].

Definition deleted_forms (fs : Formset) : list Form :=
  flat_map (fun i => match nth_error (forms fs) i with
                     | Some f => [f]
                     | None => []
                     end)
           (deleted_form_indexes fs).

(** The sort key of [ordered_forms]: a missing ORDER sorts last. *)
Definition compare_ordering_key (k : nat * option Z) : nat * Z :=
  match snd k with
  | None => (1, 0%Z)
  | Some v => (0, v)
  end.

Definition key_ltb (a b : nat * Z) : bool :=
  (fst a <? fst b) || ((fst a =? fst b) && (snd a <? snd b)%Z).

Fixpoint insert_stable (x : nat * option Z) (l : list (nat * option Z))
  : list (nat * option Z) :=
  match l with
  | [] => [x]
  | y :: rest =>
      if key_ltb (compare_ordering_key x) (compare_ordering_key y)
      then x :: y :: rest
      else y :: insert_stable x rest
  end.

(** [list.sort(key=...)]: a stable sort. *)
Definition sort_stable (l : list (nat * option Z)) : list (nat * option Z) :=
  fold_left (fun acc x => insert_stable x acc) l [].

(** [_ordering]: the indexes of the forms that are neither unchanged extra
    forms nor marked for deletion, sorted by their ORDER value. *)
Definition ordering (fs : Formset) : list (nat * option Z) :=
  sort_stable
    (flat_map (fun '(i, f) =>
                 if (initial_form_count fs <=? i) && negb (has_changed f)
                 then []
                 else if should_delete_form f then []
                 else [(i, cleaned_ORDER f)])
              (enumerate (forms fs))).

Definition ordered_form_indexes (fs : Formset) : list nat :=
  map fst (ordering fs).

Fixpoint update_at {A} (i : nat) (g : A -> A) (l : list A) : list A :=
  match l, i with
  | [], _ => []
  | x :: rest, O => g x :: rest
  | x :: rest, S j => x :: update_at j g rest
  end.

(** The body of the loop over [enumerate(ordered_forms)]:
    [form.instance.sort_order = i] and [form.has_changed = lambda: True]. *)
Definition set_order (i : nat) (f : Form) : Form :=
  mkForm (instance_pk f) (cleaned_page f) (cleaned_description f)
         (cleaned_ORDER f) (cleaned_DELETE f) (changed_data f)
         true (Some i) (form_errors f).

Definition set_sort_orders (fs : Formset) : list Form :=
  fold_left (fun fms '(i, j) => update_at j (set_order i) fms)
            (enumerate (ordered_form_indexes fs))
            (forms fs).

Definition with_forms (fms : list Form) (fs : Formset) : Formset :=
  mkFormset (instance fs) (formset_validation fs) (initial_form_count fs) fms
            (non_form_errors fs) (new_objects fs) (changed_objects fs)
            (deleted_objects fs).

Definition with_saved (nw : list SearchPromotion)
           (chg : list (SearchPromotion * list string))
           (del : list SearchPromotion) (fs : Formset) : Formset :=
  mkFormset (instance fs) (formset_validation fs) (initial_form_count fs)
            (forms fs) (non_form_errors fs) nw chg del.

(** [form.instance] of a form of the inline formset: the foreign key is the
    formset's parent instance. *)
Definition form_instance (fs : Formset) (f : Form) (k : positive)
  : SearchPromotion :=
  mkPick k (qid (instance fs)) (cleaned_page f) (cleaned_description f)
         (instance_sort_order f).

(** [BaseModelFormSet.save_existing_objects].  A form carries the key of its
    instance.  In the framework, initial forms that name the same row share
    one instance object, and deleting it clears its key, so that a later form
    naming that row is passed over; the loop below lets every form issue its
    statement, which is the same thing for a formset whose initial forms name
    distinct rows. *)
Fixpoint save_existing_loop (fs : Formset) (to_delete : list nat)
         (ifs : list (nat * Form))
         (chg : list (SearchPromotion * list string))
         (del : list SearchPromotion)
  : M (list (SearchPromotion * list string) * list SearchPromotion) :=
  match ifs with
  | [] => ret (chg, del)
  | (i, f) :: rest =>
      match instance_pk f with
      | None => save_existing_loop fs to_delete rest chg del
      | Some k =>
          let obj := form_instance fs f k in
          if existsb (Nat.eqb i) to_delete then
            delete_row k ;;
            save_existing_loop fs to_delete rest chg (del ++ [obj])
          else if has_changed f then
            update_row obj ;;
            save_existing_loop fs to_delete rest
                               (chg ++ [(obj, changed_data f)]) del
          else save_existing_loop fs to_delete rest chg del
      end
  end.

Definition save_existing_objects (fs : Formset)
  : M (list (SearchPromotion * list string) * list SearchPromotion) :=
  save_existing_loop fs (deleted_form_indexes fs)
                     (enumerate (initial_forms fs)) [] [].

(** [BaseModelFormSet.save_new_objects] *)
Fixpoint save_new_loop (fs : Formset) (efs : list Form)
         (nw : list SearchPromotion) : M (list SearchPromotion) :=
  match efs with
  | [] => ret nw
  | f :: rest =>
      if negb (has_changed f) then save_new_loop fs rest nw
      else if should_delete_form f then save_new_loop fs rest nw
      else
        obj <- insert_row (form_instance fs f) ;;
        save_new_loop fs rest (nw ++ [obj])
  end.

Definition save_new_objects (fs : Formset) : M (list SearchPromotion) :=
  save_new_loop fs (extra_forms fs) [].

(** [searchpicks_formset.save()] *)
Definition formset_save (fs : Formset) : M Formset :=
  r <- save_existing_objects fs ;;
  nw <- save_new_objects fs ;;
  ret (with_saved nw (fst r) (snd r) fs).

(** [Model.__eq__]: same model, same key. *)
Definition Query_eqb (a b : Query) : bool := Pos.eqb (qid a) (qid b).

(** ** [save_searchpicks] *)

Definition items_for_deletion (fs : Formset) : list SearchPromotion :=
  flat_map (fun f => match instance_pk f with
                     | Some k => [form_instance fs f k]
                     | None => []
                     end)
           (deleted_forms fs).

Definition save_searchpicks (query new_query : Query)
           (searchpicks_formset : Formset) : M (bool * Formset) :=
  valid <- is_valid searchpicks_formset ;;
  if valid then
    let fs1 := with_forms (set_sort_orders searchpicks_formset)
                          searchpicks_formset in
    let to_log := items_for_deletion fs1 in
    fs2 <- atomic (
      for_each to_log (fun search_pick => log search_pick "wagtail.delete") ;;
      fs2 <- formset_save fs1 ;;
      for_each (new_objects fs2)
               (fun search_pick => log search_pick "wagtail.create") ;;
      (if negb (Query_eqb query new_query) then
         bulk_update_query (qid (instance fs2)) (qid new_query) ;;
         for_each (changed_objects fs2)
                  (fun '(search_pick, changed_fields) =>
                     log search_pick "wagtail.edit")
       else
         for_each (changed_objects fs2)
                  (fun '(search_pick, changed_fields) =>
                     if negb (is_empty changed_fields)
                     then log search_pick "wagtail.edit"
                     else ret tt)) ;;
      ret fs2) ;;
    ret (true, fs2)
  else ret (false, searchpicks_formset).

(** ** Requests and responses *)

(** One submitted form of the formset: the key it names (if any), its
    cleaned fields, the names of the fields that differ from their initial
    values, and the errors that validation finds in it, each with the name
    of its field. *)
Record FormData := mkFormData {
  fd_pk : option positive;
  fd_page : positive;
  fd_description : string;
  fd_ORDER : option Z;
  fd_DELETE : bool;
  fd_changed_data : list string;
  fd_errors : list (string * string)
}.

(** The POST payload with the outcome of validation, which is the work of
    the forms module and of the framework: whether the query form is valid,
    what [is_valid()] of the formset returns or raises, and the errors found.
    The management form's [INITIAL_FORMS] splits the submitted forms into
    those that name existing rows and the extra ones. *)
Record PostData := mkPost {
  post_query_string : string;
  post_query_form_valid : bool;
  post_formset_validation : Outcome bool;
  post_initial_forms : list FormData;
  post_extra_forms : list FormData;
  post_non_form_errors : list string
}.

(** [is_valid()] of the submitted formset returns [True]. *)
Definition post_formset_valid (post : PostData) : bool :=
  match post_formset_validation post with
  | Ok b => b
  | Raise _ => false
  end.

(** [headers] holds the request headers under their lower-case names. *)
Record Request := mkRequest {
  method : string;
  GET : list (string * string);
  POST : PostData;
  user_perms : list string;
  headers : list (string * string)
}.

Record QueryForm := mkQueryForm {
  query_string_value : string;
  query_form_is_valid : bool
}.

Inductive QueryFormView :=
| QueryFormBound (qf : QueryForm)
| QueryFormUnbound (initial : option string).

Inductive FormsetView :=
| FormsetBound (fs : Formset)
| FormsetUnbound (inst : option Query).

Inductive SearchFormView :=
| SearchFormBound (q : string)
| SearchFormUnbound.

Record Page := mkPage {
  object_list : list Query;
  number : Z;
  page_count : nat
}.

(** The template context; static labels, media and reversed URLs are left
    out. *)
Record Context := mkContext {
  ctx_query_form : option QueryFormView;
  ctx_searchpicks_formset : option FormsetView;
  ctx_query : option Query;
  ctx_can_delete : option bool;
  ctx_queries : option Page;
  ctx_searchform : option SearchFormView
}.

Inductive Response :=
| redirect (to : string)
| TemplateResponse (template : string) (context : Context)
| render_modal_workflow (template : string) (context : Context) (step : string).

Definition has_perm (request : Request) (perm : string) : bool :=
  existsb (String.eqb perm) (user_perms request).

(** [QueryDict.get(key)]: the last value given for the key. *)
Fixpoint GET_get (key : string) (params : list (string * string))
  : option string :=
  match params with
  | [] => None
  | (k, v) :: rest =>
      match GET_get key rest with
      | Some v' => Some v'
      | None => if String.eqb k key then Some v else None
      end
  end.

Definition messages_add (lvl : Level) (txt : string) : M unit :=
  fun w => (Ok tt,
            mkWorld (db w) (messages w ++ [mkMessage lvl txt]) (journal w)
                    (tick w) (faults w)).

Definition messages_success := messages_add LvlSuccess.
Definition messages_error := messages_add LvlError.

(** [request.headers.get(name)] *)
Definition headers_get (name : string) (hs : list (string * string))
  : option string :=
  option_map snd (find (fun h => String.eqb (fst h) name) hs).

(** [request.headers.get("x-requested-with") == "XMLHttpRequest"] *)
Definition requested_by_script (request : Request) : bool :=
  match headers_get "x-requested-with" (headers request) with
  | Some v => String.eqb v "XMLHttpRequest"
  | None => false
  end.

(** [permission_denied(request)] of [wagtail.admin.auth]: a request made by
    script is refused with [PermissionDenied]; any other gets a flash error
    and is sent to the admin home page. *)
Definition permission_denied (request : Request) : M Response :=
  if requested_by_script request then raise PermissionDenied
  else
    messages_error "Sorry, you do not have permission to access this area." ;;
    ret (redirect "wagtailadmin_home").

(** [permission_required(perm)], the gate in front of a handler: the handler
    runs for a user who has the permission, and is not called otherwise. *)
Definition permission_required (perm : string) (view : Request -> M Response)
  : Request -> M Response :=
  fun request =>
    if has_perm request perm then view request else permission_denied request.

(** [" ".join(errors)] *)
Definition join_errors (errors : list string) : string :=
  String.concat " " errors.

(** [forms.QueryForm(request.POST)] *)
Definition QueryForm_bound (post : PostData) : QueryForm :=
  mkQueryForm (post_query_string post) (post_query_form_valid post).

(** [_existing_object(pk)]: the lookup of a key in the dictionary
    [{o.pk: o for o in self.get_queryset()}]. *)
Fixpoint existing_object (picks : list SearchPromotion) (k : positive)
  : option SearchPromotion :=
  match picks with
  | [] => None
  | p :: rest =>
      match existing_object rest k with
      | Some o => Some o
      | None => if Pos.eqb (pk p) k then Some p else None
      end
  end.

(** [forms.SearchPromotionsFormSet(request.POST, instance=query)].  The
    first [INITIAL_FORMS] forms name existing rows; a key is resolved against
    the parent's picks, and the form's instance is then the stored row.  A
    form whose key is not among them gets a fresh instance, without key and
    without sort order, as every extra form does. *)
Definition bind_form (picks : list SearchPromotion) (is_initial : bool)
           (d : FormData) : Form :=
  let obj := if is_initial then
               match fd_pk d with
               | Some k => existing_object picks k
               | None => None
               end
             else None in
  mkForm (option_map pk obj)
         (fd_page d) (fd_description d) (fd_ORDER d) (fd_DELETE d)
         (fd_changed_data d) false
         (match obj with
          | Some o => sort_order o
          | None => None
          end)
         (fd_errors d).

Definition SearchPromotionsFormSet (post : PostData) (inst : Query)
  : M Formset :=
  picks <- read (fun st => editors_picks st inst) ;;
  ret (mkFormset inst (post_formset_validation post)
                 (List.length (post_initial_forms post))
                 (map (bind_form picks true) (post_initial_forms post)
                  ++ map (bind_form picks false) (post_extra_forms post))
                 (post_non_form_errors post) [] [] []).

(** [get_object_or_404(Query, id=query_id)] *)
Definition get_object_or_404 (query_id : positive) : M Query :=
  fun w =>
    match find (fun q => Pos.eqb (qid q) query_id) (queries (db w)) with
    | Some q => (Ok q, w)
    | None => (Raise Http404, w)
    end.

(** ** The index listing *)

Record IndexRow := mkIndexRow {
  row_query : Query;
  views : Z;
  row_editors_picks : list SearchPromotion
}.

(** [SearchPromotion.objects.values_list("query_id", flat=True)] *)
Definition has_promotions (st : Store) : list positive :=
  map query_id (promotions st).

(** [Sum("daily_hits__hits")]: NULL over no rows. *)
Definition Sum_daily_hits (st : Store) (q : Query) : option Z :=
  match filter (fun h => Pos.eqb (dh_query_id h) (qid q)) (daily_hits st) with
  | [] => None
  | hs => Some (fold_right Z.add 0%Z (map hits hs))
  end.

Definition Coalesce (v : option Z) (default : Z) : Z :=
  match v with
  | Some z => z
  | None => default
  end.

(** [IndexView.get_base_queryset] *)
Definition get_base_queryset (st : Store) : list IndexRow :=
  map (fun q => mkIndexRow q (Coalesce (Sum_daily_hits st q) 0)
                           (editors_picks st q))
      (filter (fun q => existsb (Pos.eqb (qid q)) (has_promotions st))
              (queries st)).

(** ** Pagination *)

Record Paginator := mkPaginator {
  paginated : list Query;
  per_page : nat
}.

Inductive InvalidPage := PageNotAnInteger | EmptyPage.

Inductive PageArg :=
| ArgStr (s : string)
| ArgInt (n : Z).

Definition count (p : Paginator) : nat := List.length (paginated p).

(** [num_pages] with no orphans and an allowed empty first page:
    [ceil(max(1, count) / per_page)]. *)
Definition num_pages (p : Paginator) : nat :=
  let hits := Nat.max 1 (count p) in
  (hits + per_page p - 1) / per_page p.

(** [l[bottom:top]] *)
Definition slice {A} (bottom top : nat) (l : list A) : list A :=
  firstn (top - bottom) (skipn bottom l).

(** String equality and ASCII case folding, for [icontains]. *)
Definition lower_ascii (c : ascii) : ascii :=
  let n := nat_of_ascii c in
  if (65 <=? n) && (n <=? 90) then ascii_of_nat (n + 32) else c.

Fixpoint lower (s : string) : string :=
  match s with
  | EmptyString => EmptyString
  | String c rest => String (lower_ascii c) (lower rest)
  end.

Fixpoint contains (needle hay : string) : bool :=
  String.prefix needle hay ||
  match hay with
  | EmptyString => false
  | String _ rest => contains needle rest
  end.

(** [query_string__icontains=needle] *)
Definition icontains (needle hay : string) : bool :=
  contains (lower needle) (lower hay).

Section Views.

(** Helpers of the repository and of the language that the views call and
    whose code is not part of this file's sources. *)

(** [wagtail.search.utils.normalise_query_string] *)
Variable normalise_query_string : string -> string.

(** [models.Query.get_most_popular()]: the popularity-ranked queries. *)
Variable get_most_popular : Store -> list Query.

(** [SearchForm(request.GET)]: [None] when the form is not valid, otherwise
    [cleaned_data["q"]]. *)
Variable searchform_clean : string -> option string.

(** [int(s)] on a string: [None] when it raises [ValueError]. *)
Variable int_of_str : string -> option Z.

(** Modelled from the spec: [Query.get] of the models module, which is not
    among the sources: the Query entity of the normalised search string,
    created when the store has none. *)
Definition Query_get (s : string) : M Query :=
  let ns := normalise_query_string s in
  existing <- read (fun st =>
                      find (fun q => String.eqb (query_string q) ns)
                           (queries st)) ;;
  match existing with
  | Some q => ret q
  | None =>
      q <- read (fun st => mkQuery (fresh_qid (queries st)) ns) ;;
      write (EvInsertQuery (qid q))
            (fun st => mkStore (queries st ++ [q]) (promotions st)
                               (daily_hits st) (log_entries st)
                               (next_pk st)) ;;
      ret q
  end.

Definition add_context (qf : QueryFormView) (fs : FormsetView) : Context :=
  mkContext (Some qf) (Some fs) None None None None.

(** [def add(request)] *)
Definition add (request : Request) : M Response :=
  if String.eqb (method request) "POST" then
    let query_form := QueryForm_bound (POST request) in
    if query_form_is_valid query_form then
      query <- Query_get (query_string_value query_form) ;;
      searchpicks_formset <- SearchPromotionsFormSet (POST request) query ;;
      r <- save_searchpicks query query searchpicks_formset ;;
      let searchpicks_formset := snd r in
      if fst r then
        for_each (new_objects searchpicks_formset)
                 (fun search_pick => log search_pick "wagtail.create") ;;
        messages_success
          ("Editor's picks for '" ++ query_string query ++ "' created.") ;;
        ret (redirect "wagtailsearchpromotions:index")
      else
        (if 0 <? List.length (non_form_errors searchpicks_formset) then
           messages_error (join_errors (non_form_errors searchpicks_formset))
         else
           messages_error
             "Recommendations have not been created due to errors") ;;
        ret (TemplateResponse "wagtailsearchpromotions/add.html"
               (add_context (QueryFormBound query_form)
                            (FormsetBound searchpicks_formset)))
    else
      ret (TemplateResponse "wagtailsearchpromotions/add.html"
             (add_context (QueryFormBound query_form) (FormsetUnbound None)))
  else
    ret (TemplateResponse "wagtailsearchpromotions/add.html"
           (add_context (QueryFormUnbound None) (FormsetUnbound None))).

Definition edit_context (request : Request) (query : Query)
           (qf : QueryFormView) (fs : FormsetView) : Context :=
  mkContext (Some qf) (Some fs) (Some query)
            (Some (has_perm request
                            "wagtailsearchpromotions.delete_searchpromotion"))
            None None.

(** [def edit(request, query_id)] *)
Definition edit (request : Request) (query_id : positive) : M Response :=
  query <- get_object_or_404 query_id ;;
  if String.eqb (method request) "POST" then
    let query_form := QueryForm_bound (POST request) in
    searchpicks_formset <- SearchPromotionsFormSet (POST request) query ;;
    if query_form_is_valid query_form then
      new_query <- Query_get (query_string_value query_form) ;;
      r <- save_searchpicks query new_query searchpicks_formset ;;
      let searchpicks_formset := snd r in
      if fst r then
        messages_success
          ("Editor's picks for '" ++ query_string new_query ++ "' updated.") ;;
        ret (redirect "wagtailsearchpromotions:index")
      else
        (if 0 <? List.length (non_form_errors searchpicks_formset) then
           messages_error (join_errors (non_form_errors searchpicks_formset))
         else
           messages_error "Recommendations have not been saved due to errors") ;;
        ret (TemplateResponse "wagtailsearchpromotions/edit.html"
               (edit_context request query (QueryFormBound query_form)
                             (FormsetBound searchpicks_formset)))
    else
      ret (TemplateResponse "wagtailsearchpromotions/edit.html"
             (edit_context request query (QueryFormBound query_form)
                           (FormsetBound searchpicks_formset)))
  else
    ret (TemplateResponse "wagtailsearchpromotions/edit.html"
           (edit_context request query
                         (QueryFormUnbound (Some (query_string query)))
                         (FormsetUnbound (Some query)))).

(** [def delete(request, query_id)] *)
Definition delete (request : Request) (query_id : positive) : M Response :=
  query <- get_object_or_404 query_id ;;
  if String.eqb (method request) "POST" then
    editors_picks <- read (fun st => editors_picks st query) ;;
    atomic (
      for_each editors_picks
               (fun search_pick => log search_pick "wagtail.delete") ;;
      bulk_delete_query (qid query)) ;;
    messages_success "Editor's picks deleted." ;;
    ret (redirect "wagtailsearchpromotions:index")
  else
    ret (TemplateResponse "wagtailsearchpromotions/confirm_delete.html"
           (mkContext None None (Some query) None None None)).

(** ** The chooser *)

(** [int(number)] *)
Definition int_of_arg (arg : PageArg) : option Z :=
  match arg with
  | ArgStr s => int_of_str s
  | ArgInt n => Some n
  end.

(** [Paginator.validate_number] *)
Definition validate_number (p : Paginator) (arg : PageArg)
  : InvalidPage + Z :=
  match int_of_arg arg with
  | None => inl PageNotAnInteger
  | Some n =>
      if (n <? 1)%Z then inl EmptyPage
      else if (Z.of_nat (num_pages p) <? n)%Z then inl EmptyPage
      else inr n
  end.

(** [Paginator.page] *)
Definition page (p : Paginator) (arg : PageArg) : InvalidPage + Page :=
  match validate_number p arg with
  | inl e => inl e
  | inr n =>
      let bottom := (Z.to_nat n - 1) * per_page p in
      let top := bottom + per_page p in
      let top := if count p <=? top then count p else top in
      inr (mkPage (slice bottom top (paginated p)) n (num_pages p))
  end.

(** The first half of [chooser]: the most popular queries, filtered by the
    query string when the request searches, and the search form. *)
Definition chooser_queries (request : Request) (st : Store)
  : list Query * SearchFormView :=
  let queries := get_most_popular st in
  match GET_get "q" (GET request) with
  | Some q =>
      match searchform_clean q with
      | Some cleaned_q =>
          (filter (fun x => icontains (normalise_query_string cleaned_q)
                                      (query_string x))
                  queries,
           SearchFormBound q)
      | None => (queries, SearchFormBound q)
      end
  | None => (queries, SearchFormUnbound)
  end.

(** [request.GET.get("p", 1)] *)
Definition page_arg (request : Request) : PageArg :=
  match GET_get "p" (GET request) with
  | Some s => ArgStr s
  | None => ArgInt 1
  end.

(** [def chooser(request, get_results=False)] *)
Definition chooser (request : Request) (get_results : bool) : M Response :=
  filtered <- read (chooser_queries request) ;;
  let paginator := mkPaginator (fst filtered) 10 in
  match page paginator (page_arg request) with
  | inl _ => raise Http404
  | inr queries =>
      if get_results then
        ret (TemplateResponse
               "wagtailsearchpromotions/queries/chooser/results.html"
               (mkContext None None None None (Some queries) None))
      else
        ret (render_modal_workflow
               "wagtailsearchpromotions/queries/chooser/chooser.html"
               (mkContext None None None None (Some queries)
                          (Some (snd filtered)))
               "chooser")
  end.

(** [def chooserresults(request)] *)
Definition chooserresults (request : Request) : M Response :=
  chooser request true.

(** The handlers as the URL configuration reaches them, behind their
    permission gates. *)
Definition add_endpoint : Request -> M Response :=
  permission_required "wagtailsearchpromotions.add_searchpromotion" add.

Definition edit_endpoint (query_id : positive) : Request -> M Response :=
  permission_required "wagtailsearchpromotions.change_searchpromotion"
                      (fun request => edit request query_id).

Definition delete_endpoint (query_id : positive) : Request -> M Response :=
  permission_required "wagtailsearchpromotions.delete_searchpromotion"
                      (fun request => delete request query_id).

End Views.

(** ** The permission gate

    The gate runs the handler unchanged for a user who has the permission,
    so what is shown below of a handler holds of its endpoint for every
    permitted request; a request without the permission does not reach the
    handler. *)

Lemma permitted_request_reaches_the_handler perm view request :
  has_perm request perm = true ->
  permission_required perm view request = view request.
Proof. intros H. unfold permission_required. rewrite H. reflexivity. Qed.

Lemma refused_request_changes_no_row perm view request w :
  has_perm request perm = false ->
  db (snd (permission_required perm view request w)) = db w /\
  journal (snd (permission_required perm view request w)) = journal w.
Proof.
  intros H. unfold permission_required, permission_denied. rewrite H.
  destruct (requested_by_script request); split; reflexivity.
Qed.

(** ** Runs in which no statement fails

    The effect of each loop of the formset save is a pure function of the
    forms; the definitions below name these effects, and the lemmas after
    them show that a run without faults realises them. *)

Definition add_logs (es : list LogEntry) (st : Store) : Store :=
  mkStore (queries st) (promotions st) (daily_hits st) (log_entries st ++ es)
          (next_pk st).

Definition log_entry_of (act : string) (sp : SearchPromotion) : LogEntry :=
  mkLog (pk sp) act.

Definition log_event_of (act : string) (sp : SearchPromotion) : Event :=
  EvLog (pk sp) act.

(** What [save_existing_objects] does with one initial form. *)
Inductive Action :=
| ActDelete (obj : SearchPromotion)
| ActUpdate (obj : SearchPromotion) (changed : list string).

Definition existing_actions (fs : Formset) (to_delete : list nat)
           (ifs : list (nat * Form)) : list Action :=
  flat_map (fun '(i, f) =>
              match instance_pk f with
              | None => []
              | Some k =>
                  if existsb (Nat.eqb i) to_delete
                  then [ActDelete (form_instance fs f k)]
                  else if has_changed f
                       then [ActUpdate (form_instance fs f k) (changed_data f)]
                       else []
              end) ifs.

Definition apply_action (ps : list SearchPromotion) (a : Action)
  : list SearchPromotion :=
  match a with
  | ActDelete obj => filter (fun p => negb (Pos.eqb (pk p) (pk obj))) ps
  | ActUpdate obj _ =>
      map (fun p => if Pos.eqb (pk p) (pk obj) then obj else p) ps
  end.

Definition action_event (a : Action) : Event :=
  match a with
  | ActDelete obj => EvDelete (pk obj)
  | ActUpdate obj _ => EvUpdate (pk obj)
  end.

Definition action_changed (a : Action) : list (SearchPromotion * list string) :=
  match a with
  | ActDelete _ => []
  | ActUpdate obj cd => [(obj, cd)]
  end.

Definition action_deleted (a : Action) : list SearchPromotion :=
  match a with
  | ActDelete obj => [obj]
  | ActUpdate _ _ => []
  end.

(** The extra forms that [save_new_objects] saves. *)
Definition saved_extra_forms (efs : list Form) : list Form :=
  filter (fun f => has_changed f && negb (should_delete_form f)) efs.

Fixpoint inserted_rows (fs : Formset) (fms : list Form) (k : positive)
  : list SearchPromotion :=
  match fms with
  | [] => []
  | f :: rest => form_instance fs f k :: inserted_rows fs rest (Pos.succ k)
  end.

Fixpoint pos_add_nat (k : positive) (n : nat) : positive :=
  match n with
  | O => k
  | S m => pos_add_nat (Pos.succ k) m
  end.

Definition bulk_moved (old_q new_q : positive) (ps : list SearchPromotion)
  : list SearchPromotion :=
  map (fun p => if Pos.eqb (query_id p) old_q
                then mkPick (pk p) new_q (page_id p) (description p)
                            (sort_order p)
                else p) ps.

(** *** The default ordering of picks *)

Lemma insert_pick_perm x l : Permutation (insert_pick x l) (x :: l).
Proof.
  induction l as [| y rest IH]; simpl.
  - apply Permutation_refl.
  - destruct (sort_order_ltb x y).
    + apply Permutation_refl.
    + apply Permutation_trans with (y :: x :: rest).
      * apply perm_skip. exact IH.
      * apply perm_swap.
Qed.

Lemma order_by_sort_order_perm l : Permutation (order_by_sort_order l) l.
Proof.
  unfold order_by_sort_order.
  assert (G : forall acc,
             Permutation (fold_left (fun acc x => insert_pick x acc) l acc)
                         (l ++ acc)).
  { induction l as [| x rest IH]; intros acc; simpl.
    - apply Permutation_refl.
    - apply Permutation_trans with (rest ++ insert_pick x acc); [apply IH |].
      apply Permutation_trans with (rest ++ x :: acc).
      + apply Permutation_app_head. apply insert_pick_perm.
      + apply Permutation_sym. apply Permutation_middle. }
  specialize (G []). rewrite app_nil_r in G. exact G.
Qed.

Lemma in_order_by_sort_order l p : In p (order_by_sort_order l) <-> In p l.
Proof.
  split; apply Permutation_in;
    [| apply Permutation_sym]; apply order_by_sort_order_perm.
Qed.

Lemma order_by_sort_order_length l :
  List.length (order_by_sort_order l) = List.length l.
Proof. apply Permutation_length. apply order_by_sort_order_perm. Qed.

Lemma in_editors_picks st q p :
  In p (editors_picks st q) <-> In p (promotions st) /\ query_id p = qid q.
Proof.
  unfold editors_picks. rewrite in_order_by_sort_order, filter_In, Pos.eqb_eq.
  reflexivity.
Qed.

Lemma editors_picks_perm st q :
  Permutation (editors_picks st q)
              (filter (fun p => Pos.eqb (query_id p) (qid q)) (promotions st)).
Proof. apply order_by_sort_order_perm. Qed.

(** *** Monad facts *)

Lemma atomic_rolls_back {A} (body : M A) (w w' : World) (e : Exc) :
  atomic body w = (Raise e, w') ->
  db w' = db w /\ journal w' = journal w.
Proof.
  unfold atomic. destruct (body w) as [[a | e'] w1]; intros H.
  - discriminate.
  - inversion H; subst; simpl. split; reflexivity.
Qed.

Lemma bind_raise_inv {A B} (m : M A) (k : A -> M B) w w' e :
  bind m k w = (Raise e, w') ->
  m w = (Raise e, w') \/ exists a w1, m w = (Ok a, w1) /\ k a w1 = (Raise e, w').
Proof.
  unfold bind. destruct (m w) as [[a | e'] w1]; intros H.
  - right. exists a, w1. split; [reflexivity | exact H].
  - left. inversion H; subst. reflexivity.
Qed.

Lemma for_each_ext {A} (f g : A -> M unit) (l : list A) :
  (forall x, f x = g x) -> for_each l f = for_each l g.
Proof.
  intros E. induction l as [| x rest IH]; simpl.
  - reflexivity.
  - rewrite E, IH. reflexivity.
Qed.

Lemma add_logs_add_logs es1 es2 st :
  add_logs es2 (add_logs es1 st) = add_logs (es1 ++ es2) st.
Proof. unfold add_logs; simpl. rewrite app_assoc. reflexivity. Qed.

Lemma add_logs_nil st : add_logs [] st = st.
Proof. destruct st; unfold add_logs; simpl. rewrite app_nil_r. reflexivity. Qed.

Lemma write_dyn_run ev f st ms j t :
  write_dyn ev f (mkWorld st ms j t []) =
  (Ok tt, mkWorld (f st) ms (j ++ [ev st]) (S t) []).
Proof. reflexivity. Qed.

Lemma log_run sp act st ms j t :
  log sp act (mkWorld st ms j t []) =
  (Ok tt, mkWorld (add_logs [log_entry_of act sp] st) ms
                  (j ++ [log_event_of act sp]) (S t) []).
Proof. reflexivity. Qed.

Lemma for_each_log_run {A} (g : A -> SearchPromotion) (c : A -> bool)
      (act : string) (l : list A) :
  forall st ms j t,
    for_each l (fun x => if c x then log (g x) act else ret tt)
             (mkWorld st ms j t []) =
    (Ok tt,
     mkWorld (add_logs (map (fun x => log_entry_of act (g x)) (filter c l)) st)
             ms
             (j ++ map (fun x => log_event_of act (g x)) (filter c l))
             (t + List.length (filter c l)) []).
Proof.
  induction l as [| x rest IH]; intros st ms j t; simpl.
  - rewrite add_logs_nil, app_nil_r, Nat.add_0_r. reflexivity.
  - unfold bind at 1. destruct (c x).
    + rewrite log_run, IH, add_logs_add_logs, <- app_assoc. simpl.
      rewrite Nat.add_succ_r. reflexivity.
    + unfold ret at 1. apply IH.
Qed.

Lemma for_each_log_all_run (act : string) (l : list SearchPromotion) st ms j t :
  for_each l (fun sp => log sp act) (mkWorld st ms j t []) =
  (Ok tt,
   mkWorld (add_logs (map (log_entry_of act) l) st) ms
           (j ++ map (log_event_of act) l) (t + List.length l) []).
Proof.
  etransitivity;
    [exact (for_each_log_run (fun y => y) (fun _ => true) act l st ms j t) |].
  assert (F : filter (fun _ : SearchPromotion => true) l = l).
  { clear. induction l as [| x r IH]; simpl; [| rewrite IH]; reflexivity. }
  rewrite F. reflexivity.
Qed.

Lemma set_promotions_same st : set_promotions (promotions st) st = st.
Proof. destruct st; reflexivity. Qed.

Lemma save_existing_loop_run fs td ifs :
  forall chg del st ms j t,
    save_existing_loop fs td ifs chg del (mkWorld st ms j t []) =
    (Ok (chg ++ flat_map action_changed (existing_actions fs td ifs),
         del ++ flat_map action_deleted (existing_actions fs td ifs)),
     mkWorld (set_promotions
                (fold_left apply_action (existing_actions fs td ifs)
                           (promotions st)) st)
             ms (j ++ map action_event (existing_actions fs td ifs))
             (t + List.length (existing_actions fs td ifs)) []).
Proof.
  induction ifs as [| [i f] rest IH]; intros chg del st ms j t.
  - simpl. rewrite !app_nil_r, Nat.add_0_r, set_promotions_same. reflexivity.
  - cbn [save_existing_loop existing_actions flat_map].
    fold (existing_actions fs td rest).
    destruct (instance_pk f) as [k |].
    + destruct (existsb (Nat.eqb i) td).
      * unfold bind at 1, delete_row, write. rewrite write_dyn_run, IH.
        cbn [app flat_map action_changed action_deleted fold_left map
                 List.length apply_action promotions set_promotions].
        rewrite <- !app_assoc, Nat.add_succ_r. reflexivity.
      * destruct (has_changed f).
        -- unfold bind at 1, update_row, write. rewrite write_dyn_run, IH.
           cbn [app flat_map action_changed action_deleted fold_left map
                    List.length apply_action promotions set_promotions].
           rewrite <- !app_assoc, Nat.add_succ_r. reflexivity.
        -- apply IH.
    + apply IH.
Qed.

Lemma save_new_loop_run fs efs :
  forall nw st ms j t,
    save_new_loop fs efs nw (mkWorld st ms j t []) =
    (Ok (nw ++ inserted_rows fs (saved_extra_forms efs) (next_pk st)),
     mkWorld (mkStore (queries st)
                      (promotions st ++
                       inserted_rows fs (saved_extra_forms efs) (next_pk st))
                      (daily_hits st) (log_entries st)
                      (pos_add_nat (next_pk st)
                                   (List.length (saved_extra_forms efs))))
             ms
             (j ++ map (fun r => EvInsert (pk r))
                       (inserted_rows fs (saved_extra_forms efs) (next_pk st)))
             (t + List.length (saved_extra_forms efs)) []).
Proof.
  induction efs as [| f rest IH]; intros nw st ms j t.
  - simpl. rewrite !app_nil_r, Nat.add_0_r. destruct st; reflexivity.
  - cbn [save_new_loop saved_extra_forms filter].
    fold (saved_extra_forms rest).
    destruct (has_changed f); cbn [negb andb].
    + destruct (should_delete_form f); cbn [negb].
      * apply IH.
      * unfold bind at 1, insert_row, bind, read, write, ret.
        rewrite write_dyn_run, IH.
        cbn [inserted_rows List.length map pos_add_nat next_pk promotions
                           queries daily_hits log_entries].
        rewrite <- !app_assoc, Nat.add_succ_r. reflexivity.
    + apply IH.
Qed.

(** The pieces of a fault-free [save_searchpicks] run on a valid formset. *)
Definition sp_formset (fs : Formset) : Formset :=
  with_forms (set_sort_orders fs) fs.

Definition sp_actions (fs : Formset) : list Action :=
  existing_actions (sp_formset fs) (deleted_form_indexes (sp_formset fs))
                   (enumerate (initial_forms (sp_formset fs))).

Definition sp_rows (fs : Formset) (st : Store) : list SearchPromotion :=
  inserted_rows (sp_formset fs)
                (saved_extra_forms (extra_forms (sp_formset fs)))
                (next_pk st).

Definition sp_changed (fs : Formset) : list (SearchPromotion * list string) :=
  flat_map action_changed (sp_actions fs).

Definition sp_saved_formset (fs : Formset) (st : Store) : Formset :=
  with_saved (sp_rows fs st) (sp_changed fs)
             (flat_map action_deleted (sp_actions fs)) (sp_formset fs).

Definition sp_edited (query new_query : Query) (fs : Formset)
  : list (SearchPromotion * list string) :=
  filter (fun x => if negb (Query_eqb query new_query) then true
                   else negb (is_empty (snd x)))
         (sp_changed fs).

Definition sp_promotions (query new_query : Query) (fs : Formset) (st : Store)
  : list SearchPromotion :=
  let saved := fold_left apply_action (sp_actions fs) (promotions st)
               ++ sp_rows fs st in
  if negb (Query_eqb query new_query)
  then bulk_moved (qid (instance fs)) (qid new_query) saved
  else saved.

Definition sp_new_logs (query new_query : Query) (fs : Formset) (st : Store)
  : list LogEntry :=
  map (log_entry_of "wagtail.delete") (items_for_deletion (sp_formset fs))
  ++ map (log_entry_of "wagtail.create") (sp_rows fs st)
  ++ map (fun x => log_entry_of "wagtail.edit" (fst x))
         (sp_edited query new_query fs).

Definition sp_events (query new_query : Query) (fs : Formset) (st : Store)
  : list Event :=
  map (log_event_of "wagtail.delete") (items_for_deletion (sp_formset fs))
  ++ map action_event (sp_actions fs)
  ++ map (fun r => EvInsert (pk r)) (sp_rows fs st)
  ++ map (log_event_of "wagtail.create") (sp_rows fs st)
  ++ (if negb (Query_eqb query new_query)
      then [EvBulkUpdate (qid (instance fs)) (qid new_query)] else [])
  ++ map (fun x => log_event_of "wagtail.edit" (fst x))
         (sp_edited query new_query fs).

Definition sp_store (query new_query : Query) (fs : Formset) (st : Store)
  : Store :=
  mkStore (queries st) (sp_promotions query new_query fs st) (daily_hits st)
          (log_entries st ++ sp_new_logs query new_query fs st)
          (pos_add_nat (next_pk st) (List.length (sp_rows fs st))).

Lemma bind_run {A B} (m : M A) (k : A -> M B) w a w1 :
  m w = (Ok a, w1) -> bind m k w = k a w1.
Proof. intros H. unfold bind. rewrite H. reflexivity. Qed.

Lemma atomic_run {A} (body : M A) w a w1 :
  body w = (Ok a, w1) -> atomic body w = (Ok a, w1).
Proof. intros H. unfold atomic. rewrite H. reflexivity. Qed.

Lemma inserted_rows_length fs fms k :
  List.length (inserted_rows fs fms k) = List.length fms.
Proof.
  revert k. induction fms as [| f rest IH]; intros k; simpl.
  - reflexivity.
  - rewrite IH. reflexivity.
Qed.

Lemma formset_save_run fs st ms j t :
  exists t',
    formset_save fs (mkWorld st ms j t []) =
    (Ok (with_saved
           (inserted_rows fs (saved_extra_forms (extra_forms fs)) (next_pk st))
           (flat_map action_changed
              (existing_actions fs (deleted_form_indexes fs)
                                (enumerate (initial_forms fs))))
           (flat_map action_deleted
              (existing_actions fs (deleted_form_indexes fs)
                                (enumerate (initial_forms fs))))
           fs),
     mkWorld
       (mkStore (queries st)
          (fold_left apply_action
             (existing_actions fs (deleted_form_indexes fs)
                               (enumerate (initial_forms fs)))
             (promotions st)
           ++ inserted_rows fs (saved_extra_forms (extra_forms fs))
                            (next_pk st))
          (daily_hits st) (log_entries st)
          (pos_add_nat (next_pk st)
             (List.length
                (inserted_rows fs (saved_extra_forms (extra_forms fs))
                               (next_pk st)))))
       ms
       (j ++ map action_event
               (existing_actions fs (deleted_form_indexes fs)
                                 (enumerate (initial_forms fs)))
          ++ map (fun r => EvInsert (pk r))
               (inserted_rows fs (saved_extra_forms (extra_forms fs))
                              (next_pk st)))
       t' []).
Proof.
  eexists. unfold formset_save.
  erewrite bind_run
    by (unfold save_existing_objects; apply save_existing_loop_run).
  erewrite bind_run by (unfold save_new_objects; apply save_new_loop_run).
  unfold ret. cbn [app fst snd set_promotions queries promotions daily_hits
                       log_entries next_pk].
  rewrite inserted_rows_length, <- app_assoc. reflexivity.
Qed.

Lemma for_each_log_pairs_run {B} (c : SearchPromotion * B -> bool)
      (act : string) (l : list (SearchPromotion * B)) st ms j t :
  for_each l (fun '(search_pick, changed_fields) =>
                if c (search_pick, changed_fields)
                then log search_pick act else ret tt)
           (mkWorld st ms j t []) =
  (Ok tt,
   mkWorld (add_logs (map (fun x => log_entry_of act (fst x)) (filter c l)) st)
           ms (j ++ map (fun x => log_event_of act (fst x)) (filter c l))
           (t + List.length (filter c l)) []).
Proof.
  rewrite (for_each_ext _ (fun x => if c x then log (fst x) act else ret tt))
    by (intros [sp cf]; reflexivity).
  apply for_each_log_run.
Qed.

Lemma is_valid_run fs w :
  formset_is_valid fs = true -> is_valid fs w = (Ok true, w).
Proof.
  unfold formset_is_valid, is_valid.
  destruct (formset_validation fs) as [[|] | e]; try discriminate.
  reflexivity.
Qed.

Lemma save_searchpicks_run query new_query fs st ms j t :
  formset_is_valid fs = true ->
  exists t',
    save_searchpicks query new_query fs (mkWorld st ms j t []) =
    (Ok (true, sp_saved_formset fs st),
     mkWorld (sp_store query new_query fs st) ms
             (j ++ sp_events query new_query fs st) t' []).
Proof.
  intros V. unfold save_searchpicks.
  erewrite bind_run by (apply is_valid_run; exact V).
  fold (sp_formset fs).
  destruct (formset_save_run
              (sp_formset fs)
              (add_logs (map (log_entry_of "wagtail.delete")
                             (items_for_deletion (sp_formset fs))) st)
              ms
              (j ++ map (log_event_of "wagtail.delete")
                        (items_for_deletion (sp_formset fs)))
              (t + List.length (items_for_deletion (sp_formset fs))))
    as [t1 S1].
  cbn [add_logs queries promotions daily_hits log_entries next_pk] in S1.
  fold (sp_actions fs) in S1. fold (sp_rows fs st) in S1.
  fold (sp_changed fs) in S1. fold (sp_saved_formset fs st) in S1.
  unfold sp_store, sp_promotions, sp_new_logs, sp_events, sp_edited.
  destruct (negb (Query_eqb query new_query)) eqn:Q;
    eexists;
    (erewrite bind_run; [unfold ret; reflexivity |]);
    apply atomic_run;
    erewrite bind_run by apply for_each_log_all_run;
    erewrite bind_run by exact S1;
    erewrite bind_run by apply for_each_log_all_run.
  - unfold bulk_update_query, write.
    erewrite bind_run;
      [| erewrite bind_run by apply write_dyn_run;
         apply (for_each_log_pairs_run (fun _ => true))].
    unfold ret, add_logs, set_promotions, bulk_moved.
    cbn [queries promotions daily_hits log_entries
                  next_pk new_objects changed_objects sp_saved_formset
                  with_saved instance sp_formset with_forms].
    rewrite <- !app_assoc. reflexivity.
  - erewrite bind_run
      by apply (for_each_log_pairs_run (fun x => negb (is_empty (snd x)))).
    unfold ret, add_logs, set_promotions.
    cbn [queries promotions daily_hits log_entries
                  next_pk new_objects changed_objects sp_saved_formset
                  with_saved instance sp_formset with_forms app].
    rewrite <- !app_assoc. reflexivity.
Qed.

(** *** The loop that numbers the ordered forms *)

Definition same_data (f f' : Form) : Prop :=
  instance_pk f' = instance_pk f /\
  cleaned_page f' = cleaned_page f /\
  cleaned_description f' = cleaned_description f /\
  cleaned_ORDER f' = cleaned_ORDER f /\
  cleaned_DELETE f' = cleaned_DELETE f /\
  changed_data f' = changed_data f.

Lemma same_data_refl f : same_data f f.
Proof. repeat split. Qed.

Lemma same_data_set_order i f : same_data f (set_order i f).
Proof. repeat split. Qed.

Lemma nth_error_update_at {A} (g : A -> A) (l : list A) :
  forall j i,
    nth_error (update_at j g l) i =
    if i =? j then option_map g (nth_error l i) else nth_error l i.
Proof.
  induction l as [| x rest IH]; intros j i.
  - destruct j, i; simpl; try reflexivity. destruct (i =? j); reflexivity.
  - destruct j as [| j]; destruct i as [| i]; simpl; try reflexivity.
    apply IH.
Qed.

Lemma length_update_at {A} (g : A -> A) (l : list A) :
  forall j, List.length (update_at j g l) = List.length l.
Proof.
  induction l as [| x rest IH]; intros [| j]; simpl; try reflexivity.
  rewrite IH. reflexivity.
Qed.

Lemma numbering_nth (l : list (nat * nat)) :
  forall (fms : list Form) (j : nat),
    match nth_error fms j with
    | None =>
        nth_error
          (fold_left (fun fms '(i, j) => update_at j (set_order i) fms) l fms)
          j = None
    | Some f =>
        (~ In j (map snd l) ->
         nth_error
           (fold_left (fun fms '(i, j) => update_at j (set_order i) fms) l fms)
           j = Some f) /\
        (In j (map snd l) ->
         exists i,
           nth_error
             (fold_left (fun fms '(i, j) => update_at j (set_order i) fms)
                        l fms)
             j = Some (set_order i f))
    end.
Proof.
  induction l as [| [i0 j0] rest IH]; intros fms j.
  - simpl. destruct (nth_error fms j) as [f |]; [| reflexivity].
    split; [reflexivity | intros []].
  - cbn [fold_left map snd].
    specialize (IH (update_at j0 (set_order i0) fms) j).
    rewrite nth_error_update_at in IH.
    destruct (Nat.eqb_spec j j0) as [E | NE].
    + subst j0. destruct (nth_error fms j) as [f |]; simpl in IH; [| exact IH].
      destruct IH as [IH1 IH2]. split.
      * intros N. exfalso. apply N. left. reflexivity.
      * intros _.
        destruct (in_dec Nat.eq_dec j (map snd rest)) as [I | NI].
        -- destruct (IH2 I) as [i Hi]. exists i. exact Hi.
        -- exists i0. apply IH1. exact NI.
    + destruct (nth_error fms j) as [f |]; [| exact IH].
      destruct IH as [IH1 IH2]. split.
      * intros N. apply IH1. intros I. apply N. right. exact I.
      * intros [E | I]; [exfalso; apply NE; symmetry; exact E |].
        apply IH2. exact I.
Qed.

Lemma numbering_length (l : list (nat * nat)) :
  forall fms : list Form,
    List.length
      (fold_left (fun fms '(i, j) => update_at j (set_order i) fms) l fms) =
    List.length fms.
Proof.
  induction l as [| [i0 j0] rest IH]; intros fms; simpl.
  - reflexivity.
  - rewrite IH. apply length_update_at.
Qed.

Lemma in_enumerate_from {A} (l : list A) :
  forall s i x,
    In (i, x) (combine (seq s (List.length l)) l) <->
    s <= i /\ nth_error l (i - s) = Some x.
Proof.
  induction l as [| y rest IH]; intros s i x; simpl.
  - split; [intros [] | intros [_ H]]. destruct (i - s); discriminate.
  - rewrite IH. split.
    + intros [E | [L H]].
      * inversion E; subst. rewrite Nat.sub_diag. split; [lia | reflexivity].
      * split; [lia |]. replace (i - s) with (S (i - S s)) by lia. exact H.
    + intros [L H]. destruct (i - s) as [| d] eqn:D.
      * left. inversion H; subst. f_equal. lia.
      * right. split; [lia |]. replace (i - S s) with d by lia. exact H.
Qed.

Lemma in_enumerate {A} (l : list A) i x :
  In (i, x) (enumerate l) <-> nth_error l i = Some x.
Proof.
  unfold enumerate. rewrite in_enumerate_from, Nat.sub_0_r.
  split; [intros [_ H]; exact H | intros H; split; [lia | exact H]].
Qed.

Lemma map_snd_enumerate {A} (l : list A) : map snd (enumerate l) = l.
Proof.
  unfold enumerate. generalize 0.
  induction l as [| x rest IH]; intros s; simpl.
  - reflexivity.
  - rewrite IH. reflexivity.
Qed.

Lemma in_insert_stable x y l :
  In y (insert_stable x l) <-> y = x \/ In y l.
Proof.
  induction l as [| z rest IH]; simpl.
  - split; [intros [E | []]; left; symmetry; exact E
           | intros [E | []]; left; symmetry; exact E].
  - destruct (key_ltb (compare_ordering_key x) (compare_ordering_key z)); simpl.
    + split; [intros [E | H]; [left; symmetry; exact E | right; exact H]
             | intros [E | H]; [left; symmetry; exact E | right; exact H]].
    + rewrite IH. tauto.
Qed.

Lemma in_sort_stable_acc l :
  forall acc y,
    In y (fold_left (fun acc x => insert_stable x acc) l acc) <->
    In y l \/ In y acc.
Proof.
  induction l as [| x rest IH]; intros acc y; simpl.
  - tauto.
  - rewrite IH, in_insert_stable. split; intros H.
    + destruct H as [H | [H | H]]; auto.
    + destruct H as [[H | H] | H]; auto.
Qed.

Lemma in_sort_stable l y : In y (sort_stable l) <-> In y l.
Proof.
  unfold sort_stable. rewrite in_sort_stable_acc. simpl. tauto.
Qed.

Lemma in_ordered_form_indexes fs i :
  In i (ordered_form_indexes fs) <->
  exists f,
    nth_error (forms fs) i = Some f /\
    (initial_form_count fs <=? i) && negb (has_changed f) = false /\
    should_delete_form f = false.
Proof.
  unfold ordered_form_indexes, ordering. rewrite in_map_iff. split.
  - intros [[i' o] [E H]]. simpl in E. subst i'.
    apply in_sort_stable, in_flat_map in H.
    destruct H as [[i' f] [H1 H2]]. apply in_enumerate in H1.
    destruct ((initial_form_count fs <=? i') && negb (has_changed f)) eqn:C;
      [destruct H2 |].
    destruct (should_delete_form f) eqn:D; [destruct H2 |].
    destruct H2 as [E | []]. inversion E; subst.
    exists f. repeat split; assumption.
  - intros [f [H1 [H2 H3]]]. exists (i, cleaned_ORDER f). split; [reflexivity |].
    apply in_sort_stable, in_flat_map. exists (i, f). split.
    + apply in_enumerate. exact H1.
    + rewrite H2, H3. left. reflexivity.
Qed.

Lemma sp_forms_nth fs i :
  match nth_error (forms fs) i with
  | None => nth_error (forms (sp_formset fs)) i = None
  | Some f =>
      exists f',
        nth_error (forms (sp_formset fs)) i = Some f' /\
        same_data f f' /\
        (In i (ordered_form_indexes fs) -> has_changed_forced f' = true) /\
        (~ In i (ordered_form_indexes fs) -> f' = f)
  end.
Proof.
  pose proof (numbering_nth (enumerate (ordered_form_indexes fs))
                            (forms fs) i) as H.
  rewrite map_snd_enumerate in H.
  change (forms (sp_formset fs)) with (set_sort_orders fs).
  unfold set_sort_orders.
  destruct (nth_error (forms fs) i) as [f |]; [| exact H].
  destruct H as [H1 H2].
  destruct (in_dec Nat.eq_dec i (ordered_form_indexes fs)) as [I | NI].
  - destruct (H2 I) as [k Hk]. exists (set_order k f).
    split; [exact Hk |]. split; [apply same_data_set_order |].
    split; [reflexivity | contradiction].
  - exists f. split; [apply H1; exact NI |].
    split; [apply same_data_refl |]. split; [contradiction | reflexivity].
Qed.

Lemma sp_forms_length fs :
  List.length (forms (sp_formset fs)) = List.length (forms fs).
Proof. apply numbering_length. Qed.

Lemma Forall2_from_nth {A B} (R : A -> B -> Prop) :
  forall (l : list A) (l' : list B),
    List.length l = List.length l' ->
    (forall i x y, nth_error l i = Some x -> nth_error l' i = Some y -> R x y) ->
    Forall2 R l l'.
Proof.
  induction l as [| x rest IH]; intros [| y rest'] L H; simpl in L;
    try discriminate.
  - constructor.
  - constructor.
    + apply (H 0); reflexivity.
    + apply IH; [lia |]. intros i a b Ha Hb. apply (H (S i)); assumption.
Qed.

Definition initial_rel (f f' : Form) : Prop :=
  same_data f f' /\ (cleaned_DELETE f = false -> has_changed f' = true).

Definition extra_rel (f f' : Form) : Prop :=
  same_data f f' /\ has_changed f' = has_changed f.

Lemma sp_initial_forms fs :
  Forall2 initial_rel (initial_forms fs) (initial_forms (sp_formset fs)).
Proof.
  unfold initial_forms. apply Forall2_from_nth.
  - rewrite !length_firstn, sp_forms_length. reflexivity.
  - intros i f f'. rewrite !nth_error_firstn.
    change (initial_form_count (sp_formset fs)) with (initial_form_count fs).
    destruct (Nat.ltb_spec i (initial_form_count fs)) as [L | L];
      [| discriminate].
    intros Hf Hf'. pose proof (sp_forms_nth fs i) as S. rewrite Hf in S.
    destruct S as [g [Hg [SD [F _]]]]. rewrite Hg in Hf'.
    inversion Hf'; subst g. split; [exact SD |].
    intros D. unfold has_changed. rewrite F; [reflexivity |].
    apply in_ordered_form_indexes. exists f. split; [exact Hf |].
    split; [| exact D].
    destruct (Nat.leb_spec (initial_form_count fs) i); [lia | reflexivity].
Qed.

Lemma sp_extra_forms fs :
  Forall2 extra_rel (extra_forms fs) (extra_forms (sp_formset fs)).
Proof.
  unfold extra_forms. apply Forall2_from_nth.
  - rewrite !length_skipn, sp_forms_length. reflexivity.
  - intros i f f'. rewrite !nth_error_skipn.
    change (initial_form_count (sp_formset fs)) with (initial_form_count fs).
    intros Hf Hf'.
    pose proof (sp_forms_nth fs (initial_form_count fs + i)) as S.
    rewrite Hf in S. destruct S as [g [Hg [SD [F U]]]]. rewrite Hg in Hf'.
    inversion Hf'; subst g. split; [exact SD |].
    destruct (in_dec Nat.eq_dec (initial_form_count fs + i)
                     (ordered_form_indexes fs)) as [I | NI].
    + unfold has_changed at 1. rewrite (F I). simpl.
      apply in_ordered_form_indexes in I.
      destruct I as [g [Hg' [C _]]]. rewrite Hf in Hg'.
      inversion Hg'; subst g.
      destruct (Nat.leb_spec (initial_form_count fs)
                             (initial_form_count fs + i)); [| lia].
      simpl in C. destruct (has_changed f); [reflexivity | discriminate].
    + rewrite (U NI). reflexivity.
Qed.

(** *** The formset save in terms of the submitted forms *)

(** Keys of the rows that the initial forms mark for deletion, and keys and
    changed fields of the rows they keep. *)
Definition deleted_keys (fs : Formset) : list positive :=
  flat_map (fun f => match instance_pk f with
                     | Some k => if cleaned_DELETE f then [k] else []
                     | None => []
                     end)
           (initial_forms fs).


Definition plain_step (fs : Formset) (f : Form) : list Action :=
  match instance_pk f with
  | None => []
  | Some k =>
      if should_delete_form f then [ActDelete (form_instance fs f k)]
      else if has_changed f
           then [ActUpdate (form_instance fs f k) (changed_data f)]
           else []
  end.

Lemma flat_map_enumerate_from {A B} (g : nat * A -> list B) (h : A -> list B)
      (l : list A) :
  forall s,
    (forall i x, nth_error l i = Some x -> g (s + i, x) = h x) ->
    flat_map g (combine (seq s (List.length l)) l) = flat_map h l.
Proof.
  induction l as [| y rest IH]; intros s H; simpl.
  - reflexivity.
  - rewrite <- (H 0 y eq_refl), Nat.add_0_r. f_equal.
    apply IH. intros i x Hx. rewrite <- (H (S i) x Hx). f_equal. f_equal. lia.
Qed.

Lemma mem_deleted_indexes fs i f :
  formset_is_valid fs = true ->
  nth_error (forms fs) i = Some f ->
  i < initial_form_count fs ->
  existsb (Nat.eqb i) (deleted_form_indexes fs) = should_delete_form f.
Proof.
  intros V Hf L. unfold deleted_form_indexes. rewrite V.
  assert (C : (initial_form_count fs <=? i) = false)
    by (destruct (Nat.leb_spec (initial_form_count fs) i); [lia | reflexivity]).
  destruct (should_delete_form f) eqn:D.
  - apply existsb_exists. exists i. split; [| apply Nat.eqb_refl].
    apply in_map_iff. exists (i, f). split; [reflexivity |].
    apply filter_In. split; [apply in_enumerate; exact Hf |].
    rewrite C. simpl. exact D.
  - apply not_true_is_false. intros E. apply existsb_exists in E.
    destruct E as [i' [I E]]. apply Nat.eqb_eq in E. subst i'.
    apply in_map_iff in I. destruct I as [[i' f'] [E I]]. simpl in E. subst i'.
    apply filter_In in I. destruct I as [I K]. apply in_enumerate in I.
    rewrite Hf in I. inversion I; subst f'.
    rewrite C in K. simpl in K. congruence.
Qed.

Lemma existing_actions_plain fs :
  formset_is_valid fs = true ->
  existing_actions fs (deleted_form_indexes fs) (enumerate (initial_forms fs)) =
  flat_map (plain_step fs) (initial_forms fs).
Proof.
  intros V. unfold existing_actions, enumerate.
  apply flat_map_enumerate_from. intros i f Hf. simpl.
  unfold initial_forms in Hf. rewrite nth_error_firstn in Hf.
  destruct (Nat.ltb_spec i (initial_form_count fs)) as [L | L];
    [| discriminate].
  unfold plain_step. destruct (instance_pk f) as [k |]; [| reflexivity].
  rewrite (mem_deleted_indexes fs i f V Hf L). reflexivity.
Qed.

Lemma sp_actions_plain fs :
  formset_is_valid fs = true ->
  sp_actions fs = flat_map (plain_step (sp_formset fs))
                           (initial_forms (sp_formset fs)).
Proof. intros V. unfold sp_actions. apply existing_actions_plain. exact V. Qed.

Lemma flat_map_Forall2 {A B C D} (R : A -> B -> Prop) (g : A -> list C)
      (h : B -> list D) (phi : D -> C) (l : list A) (l' : list B) :
  Forall2 R l l' ->
  (forall x y, R x y -> map phi (h y) = g x) ->
  map phi (flat_map h l') = flat_map g l.
Proof.
  intros F H. induction F as [| x y l l' Rxy F IH]; simpl.
  - reflexivity.
  - rewrite map_app, IH, (H x y Rxy). reflexivity.
Qed.

(** What an action does, stripped of the row contents. *)
Inductive KeyAction :=
| KDelete (k : positive)
| KUpdate (k : positive) (changed : list string).

Definition action_key (a : Action) : KeyAction :=
  match a with
  | ActDelete obj => KDelete (pk obj)
  | ActUpdate obj cd => KUpdate (pk obj) cd
  end.

Definition key_actions (fs : Formset) : list KeyAction :=
  flat_map (fun f => match instance_pk f with
                     | Some k => if cleaned_DELETE f then [KDelete k]
                                 else [KUpdate k (changed_data f)]
                     | None => []
                     end)
           (initial_forms fs).

Lemma sp_actions_keys fs :
  formset_is_valid fs = true ->
  map action_key (sp_actions fs) = key_actions fs.
Proof.
  intros V. rewrite (sp_actions_plain fs V). unfold key_actions.
  apply (flat_map_Forall2 initial_rel); [apply sp_initial_forms |].
  intros f f' [[E1 [_ [_ [_ [E5 E6]]]]] HC]. unfold plain_step, should_delete_form.
  rewrite E1, E5. destruct (instance_pk f) as [k |]; [| reflexivity].
  destruct (cleaned_DELETE f) eqn:D; [reflexivity |].
  rewrite (HC eq_refl). simpl. rewrite E6. reflexivity.
Qed.

Lemma sp_actions_query fs :
  Forall (fun a => match a with
                   | ActDelete obj | ActUpdate obj _ =>
                       query_id obj = qid (instance fs)
                   end)
         (sp_actions fs).
Proof.
  unfold sp_actions, existing_actions. apply Forall_forall. intros a I.
  apply in_flat_map in I. destruct I as [[i f] [_ I]].
  destruct (instance_pk f) as [k |]; [| destruct I].
  destruct (existsb (Nat.eqb i) (deleted_form_indexes (sp_formset fs))).
  - destruct I as [E | []]. subst a. reflexivity.
  - destruct (has_changed f); [| destruct I].
    destruct I as [E | []]. subst a. reflexivity.
Qed.

Lemma filter_enumerate_split {A} (c : bool -> A -> bool) (n : nat)
      (l : list A) :
  forall s,
    map snd (filter (fun '(i, x) => c (n <=? i) x)
                    (combine (seq s (List.length l)) l)) =
    filter (c false) (firstn (n - s) l) ++ filter (c true) (skipn (n - s) l).
Proof.
  induction l as [| y rest IH]; intros s.
  - simpl. rewrite firstn_nil, skipn_nil. reflexivity.
  - cbn [List.length seq combine filter]. specialize (IH (S s)).
    destruct (Nat.leb_spec n s) as [L | L].
    + replace (n - s) with 0 by lia. replace (n - S s) with 0 in IH by lia.
      simpl in IH. cbn [firstn skipn filter app].
      destruct (c true y); simpl; rewrite IH; reflexivity.
    + replace (n - s) with (S (n - S s)) by lia.
      cbn [firstn skipn filter].
      destruct (c false y); simpl; rewrite IH; reflexivity.
Qed.

Lemma lookup_indexes {A} (l : list A) (L : list (nat * A)) :
  (forall i x, In (i, x) L -> nth_error l i = Some x) ->
  flat_map (fun i => match nth_error l i with
                     | Some f => [f]
                     | None => []
                     end) (map fst L) = map snd L.
Proof.
  induction L as [| [i x] rest IH]; intros H; simpl.
  - reflexivity.
  - rewrite (H i x (or_introl eq_refl)). simpl. f_equal.
    apply IH. intros j y I. apply H. right. exact I.
Qed.

Lemma deleted_forms_split fs :
  formset_is_valid fs = true ->
  deleted_forms fs =
  filter should_delete_form (initial_forms fs)
  ++ filter (fun f => has_changed f && should_delete_form f) (extra_forms fs).
Proof.
  intros V. unfold deleted_forms, deleted_form_indexes. rewrite V.
  rewrite lookup_indexes.
  - unfold enumerate, initial_forms, extra_forms.
    rewrite (filter_enumerate_split
               (fun b f => if b && negb (has_changed f) then false
                           else should_delete_form f)).
    rewrite Nat.sub_0_r. f_equal. apply filter_ext. intros f. simpl.
    destruct (has_changed f); reflexivity.
  - intros i x I. apply filter_In in I. destruct I as [I _].
    apply in_enumerate. exact I.
Qed.

Lemma flat_map_filter {A B} (g : A -> list B) (c : A -> bool) (l : list A) :
  flat_map g (filter c l) = flat_map (fun x => if c x then g x else []) l.
Proof.
  induction l as [| x rest IH]; simpl.
  - reflexivity.
  - destruct (c x); simpl; rewrite IH; reflexivity.
Qed.

(** Extra forms carry no key, as in every formset built from a POST. *)
Definition extra_keyless (fs : Formset) : Prop :=
  Forall (fun f => instance_pk f = None) (extra_forms fs).

Lemma flat_map_nil {A B} (g : A -> list B) (l : list A) :
  (forall x, In x l -> g x = []) -> flat_map g l = [].
Proof.
  induction l as [| x rest IH]; intros H; simpl.
  - reflexivity.
  - rewrite (H x (or_introl eq_refl)). apply IH.
    intros y I. apply H. right. exact I.
Qed.

Lemma Forall2_in_right {A B} (R : A -> B -> Prop) (l : list A) (l' : list B) y :
  Forall2 R l l' -> In y l' -> exists x, In x l /\ R x y.
Proof.
  intros F. induction F as [| a b l l' Rab F IH]; intros I.
  - destruct I.
  - destruct I as [E | I].
    + subst y. exists a. split; [left; reflexivity | exact Rab].
    + destruct (IH I) as [x [Ix Rx]]. exists x. split; [right |]; assumption.
Qed.

Lemma items_for_deletion_keys fs :
  formset_is_valid fs = true ->
  extra_keyless fs ->
  map pk (items_for_deletion (sp_formset fs)) = deleted_keys fs.
Proof.
  intros V K. unfold items_for_deletion.
  rewrite (deleted_forms_split (sp_formset fs) V), flat_map_app, map_app.
  rewrite (flat_map_nil _ (filter _ (extra_forms (sp_formset fs)))).
  - rewrite app_nil_r, flat_map_filter. unfold deleted_keys.
    apply (flat_map_Forall2 initial_rel); [apply sp_initial_forms |].
    intros f f' [[E1 [_ [_ [_ [E5 _]]]]] _]. unfold should_delete_form.
    rewrite E1, E5.
    destruct (cleaned_DELETE f); destruct (instance_pk f); reflexivity.
  - intros f' I. apply filter_In in I. destruct I as [I _].
    destruct (Forall2_in_right _ _ _ _ (sp_extra_forms fs) I)
      as [f [If [[E1 _] _]]].
    unfold extra_keyless in K. rewrite Forall_forall in K.
    rewrite E1, (K f If). reflexivity.
Qed.

(** *** Rows kept, rewritten and inserted by the save *)

Lemma apply_actions_keeps (q : positive) (acts : list Action) :
  forall ps r,
    In r ps ->
    (forall obj, In (ActDelete obj) acts -> pk obj <> pk r) ->
    (forall obj cd, In (ActUpdate obj cd) acts -> query_id obj = q) ->
    exists r',
      In r' (fold_left apply_action acts ps) /\
      pk r' = pk r /\
      (query_id r' = query_id r \/ query_id r' = q).
Proof.
  induction acts as [| a rest IH]; intros ps r I ND QU.
  - exists r. simpl. auto.
  - cbn [fold_left].
    assert (S : exists r1, In r1 (apply_action ps a) /\ pk r1 = pk r /\
                           (query_id r1 = query_id r \/ query_id r1 = q)).
    { destruct a as [obj | obj cd]; simpl.
      - exists r. split; [| auto]. apply filter_In. split; [exact I |].
        apply negb_true_iff, Pos.eqb_neq. intros E.
        apply (ND obj (or_introl eq_refl)). symmetry. exact E.
      - exists (if Pos.eqb (pk r) (pk obj) then obj else r). split.
        + apply in_map_iff. exists r. split; [reflexivity | exact I].
        + destruct (Pos.eqb_spec (pk r) (pk obj)) as [E | NE].
          * split; [symmetry; exact E |]. right.
            apply (QU obj cd). left. reflexivity.
          * auto. }
    destruct S as [r1 [I1 [P1 Q1]]].
    destruct (IH (apply_action ps a) r1 I1) as [r' [I' [P' Q']]].
    + intros obj Io. rewrite P1. apply ND. right. exact Io.
    + intros obj cd Io. apply (QU obj cd). right. exact Io.
    + exists r'. split; [exact I' |]. split; [congruence |].
      destruct Q' as [Q' | Q']; [| right; exact Q'].
      destruct Q1 as [Q1 | Q1]; [left | right]; congruence.
Qed.

Lemma inserted_rows_query fs fms :
  forall k r, In r (inserted_rows fs fms k) ->
              query_id r = qid (instance fs) /\ (k <= pk r)%positive.
Proof.
  induction fms as [| f rest IH]; intros k r I; simpl in I.
  - destruct I.
  - destruct I as [E | I].
    + subst r. simpl. split; [reflexivity | lia].
    + destruct (IH _ _ I) as [Q L]. split; [exact Q | lia].
Qed.

Lemma inserted_rows_NoDup fs fms :
  forall k, NoDup (map pk (inserted_rows fs fms k)).
Proof.
  induction fms as [| f rest IH]; intros k; simpl.
  - constructor.
  - constructor; [| apply IH].
    intros I. apply in_map_iff in I. destruct I as [r [E I]].
    apply inserted_rows_query in I. destruct I as [_ L]. lia.
Qed.

Lemma Forall2_filter_length {A B} (R : A -> B -> Prop) (c : A -> bool)
      (c' : B -> bool) (l : list A) (l' : list B) :
  Forall2 R l l' ->
  (forall x y, R x y -> c' y = c x) ->
  List.length (filter c' l') = List.length (filter c l).
Proof.
  intros F H. induction F as [| x y l l' Rxy F IH]; simpl.
  - reflexivity.
  - rewrite (H x y Rxy). destruct (c x); simpl; rewrite IH; reflexivity.
Qed.

Lemma sp_rows_length fs st :
  List.length (sp_rows fs st) =
  List.length (saved_extra_forms (extra_forms fs)).
Proof.
  unfold sp_rows. rewrite inserted_rows_length. unfold saved_extra_forms.
  apply (Forall2_filter_length extra_rel); [apply sp_extra_forms |].
  intros f f' [[_ [_ [_ [_ [E5 _]]]]] HC]. unfold should_delete_form.
  rewrite HC, E5. reflexivity.
Qed.

Lemma sp_rows_query fs st r :
  In r (sp_rows fs st) ->
  query_id r = qid (instance fs) /\ (next_pk st <= pk r)%positive.
Proof.
  intros I. apply inserted_rows_query in I. exact I.
Qed.

Lemma sp_rows_NoDup fs st : NoDup (map pk (sp_rows fs st)).
Proof. apply inserted_rows_NoDup. Qed.

(** *** Fault-free runs of the handlers *)

Definition query_of (ns : string) (st : Store) : Query :=
  match find (fun q => String.eqb (query_string q) ns) (queries st) with
  | Some q => q
  | None => mkQuery (fresh_qid (queries st)) ns
  end.

Definition store_with_query (ns : string) (st : Store) : Store :=
  match find (fun q => String.eqb (query_string q) ns) (queries st) with
  | Some _ => st
  | None => mkStore (queries st ++ [mkQuery (fresh_qid (queries st)) ns])
                    (promotions st) (daily_hits st) (log_entries st)
                    (next_pk st)
  end.

Definition query_events (ns : string) (st : Store) : list Event :=
  match find (fun q => String.eqb (query_string q) ns) (queries st) with
  | Some _ => []
  | None => [EvInsertQuery (fresh_qid (queries st))]
  end.

Definition bound_formset (post : PostData) (inst : Query) (st : Store)
  : Formset :=
  mkFormset inst (post_formset_validation post)
            (List.length (post_initial_forms post))
            (map (bind_form (editors_picks st inst) true)
                 (post_initial_forms post)
             ++ map (bind_form (editors_picks st inst) false)
                    (post_extra_forms post))
            (post_non_form_errors post) [] [] [].

Lemma Query_get_run norm s st ms j t :
  exists t',
    Query_get norm s (mkWorld st ms j t []) =
    (Ok (query_of (norm s) st),
     mkWorld (store_with_query (norm s) st) ms
             (j ++ query_events (norm s) st) t' []).
Proof.
  unfold Query_get, query_of, store_with_query, query_events, bind, read.
  simpl.
  destruct (find (fun q => String.eqb (query_string q) (norm s)) (queries st)).
  - exists t. unfold ret. rewrite app_nil_r. reflexivity.
  - eexists. unfold write. rewrite write_dyn_run. unfold ret. reflexivity.
Qed.

Lemma SearchPromotionsFormSet_run post inst w :
  SearchPromotionsFormSet post inst w = (Ok (bound_formset post inst (db w)), w).
Proof. reflexivity. Qed.

Lemma existing_object_some picks k o :
  existing_object picks k = Some o -> In o picks /\ pk o = k.
Proof.
  induction picks as [| p rest IH]; simpl; [discriminate |].
  destruct (existing_object rest k) as [o' |].
  - intros E. inversion E; subst o'. destruct (IH eq_refl) as [I P].
    split; [right; exact I | exact P].
  - destruct (Pos.eqb_spec (pk p) k) as [E | _]; [| discriminate].
    intros X. inversion X; subst o. split; [left; reflexivity | exact E].
Qed.

Lemma existing_object_none picks k p :
  existing_object picks k = None -> In p picks -> pk p <> k.
Proof.
  induction picks as [| x rest IH]; simpl; [intros _ [] |].
  destruct (existing_object rest k) as [o' |]; [discriminate |].
  destruct (Pos.eqb_spec (pk x) k) as [E | NE]; [discriminate |].
  intros _ [E | I]; [subst x; exact NE | exact (IH eq_refl I)].
Qed.

(** A bound initial form has a key exactly when the submitted form names a
    pick of the parent; the form's instance is then a stored row. *)
Lemma bound_form_key picks d k :
  instance_pk (bind_form picks true d) = Some k ->
  fd_pk d = Some k /\
  exists o, In o picks /\ pk o = k /\
            instance_sort_order (bind_form picks true d) = sort_order o.
Proof.
  unfold bind_form. cbn [instance_pk instance_sort_order].
  destruct (fd_pk d) as [k' |]; [| discriminate].
  destruct (existing_object picks k') as [o |] eqn:X; [| discriminate].
  cbn [option_map]. intros E. inversion E; subst k.
  destruct (existing_object_some picks k' o X) as [I P].
  split; [f_equal; symmetry; exact P |]. exists o. auto.
Qed.

Lemma bound_initial_forms post inst st :
  initial_forms (bound_formset post inst st) =
  map (bind_form (editors_picks st inst) true) (post_initial_forms post).
Proof.
  unfold initial_forms, bound_formset; simpl.
  rewrite firstn_app, length_map, Nat.sub_diag, app_nil_r.
  apply firstn_all2. rewrite length_map. lia.
Qed.

Lemma bound_extra_forms post inst st :
  extra_forms (bound_formset post inst st) =
  map (bind_form (editors_picks st inst) false) (post_extra_forms post).
Proof.
  unfold extra_forms, bound_formset; simpl.
  rewrite skipn_app, length_map, Nat.sub_diag.
  rewrite skipn_all2 by (rewrite length_map; lia). reflexivity.
Qed.

Lemma bound_extra_keyless post inst st :
  extra_keyless (bound_formset post inst st).
Proof.
  unfold extra_keyless. rewrite bound_extra_forms. apply Forall_forall.
  intros f I. apply in_map_iff in I. destruct I as [d [E _]]. subst f.
  reflexivity.
Qed.

Definition add_final_store (norm : string -> string) (post : PostData)
           (st : Store) : Store :=
  let ns := norm (post_query_string post) in
  let query := query_of ns st in
  let st1 := store_with_query ns st in
  let fs := bound_formset post query st1 in
  add_logs (map (log_entry_of "wagtail.create") (sp_rows fs st1))
           (sp_store query query fs st1).

Definition add_events (norm : string -> string) (post : PostData)
           (st : Store) : list Event :=
  let ns := norm (post_query_string post) in
  let query := query_of ns st in
  let st1 := store_with_query ns st in
  let fs := bound_formset post query st1 in
  query_events ns st ++ sp_events query query fs st1
  ++ map (log_event_of "wagtail.create") (sp_rows fs st1).

Lemma add_run norm request st ms j t :
  method request = "POST" ->
  post_query_form_valid (POST request) = true ->
  post_formset_valid (POST request) = true ->
  exists t',
    add norm request (mkWorld st ms j t []) =
    (Ok (redirect "wagtailsearchpromotions:index"),
     mkWorld (add_final_store norm (POST request) st)
             (ms ++ [mkMessage LvlSuccess
                       ("Editor's picks for '"
                        ++ query_string
                             (query_of (norm (post_query_string (POST request)))
                                       st)
                        ++ "' created.")])
             (j ++ add_events norm (POST request) st) t' []).
Proof.
  intros HM HQ HF. unfold add. rewrite HM, String.eqb_refl.
  unfold QueryForm_bound. cbn [query_form_is_valid query_string_value].
  rewrite HQ.
  destruct (Query_get_run norm (post_query_string (POST request)) st ms j t)
    as [t1 G].
  set (ns := norm (post_query_string (POST request))) in *.
  destruct (save_searchpicks_run
              (query_of ns st) (query_of ns st)
              (bound_formset (POST request) (query_of ns st)
                             (store_with_query ns st))
              (store_with_query ns st) ms (j ++ query_events ns st) t1 HF)
    as [t2 S].
  eexists.
  erewrite bind_run by exact G.
  erewrite bind_run by apply SearchPromotionsFormSet_run.
  cbn [db]. erewrite bind_run by exact S.
  cbn [fst snd].
  erewrite bind_run by apply for_each_log_all_run.
  unfold messages_success, messages_add, bind, ret.
  cbn [db messages journal tick faults sp_saved_formset with_saved new_objects].
  unfold add_final_store, add_events. fold ns.
  rewrite <- !app_assoc. reflexivity.
Qed.

Definition edit_final_store (norm : string -> string) (post : PostData)
           (query : Query) (st : Store) : Store :=
  let ns := norm (post_query_string post) in
  sp_store query (query_of ns st) (bound_formset post query st)
           (store_with_query ns st).

Definition edit_events (norm : string -> string) (post : PostData)
           (query : Query) (st : Store) : list Event :=
  let ns := norm (post_query_string post) in
  query_events ns st
  ++ sp_events query (query_of ns st) (bound_formset post query st)
               (store_with_query ns st).

Lemma get_object_or_404_run query_id query w :
  find (fun q => Pos.eqb (qid q) query_id) (queries (db w)) = Some query ->
  get_object_or_404 query_id w = (Ok query, w).
Proof. intros F. unfold get_object_or_404. rewrite F. reflexivity. Qed.

Lemma edit_run norm request query_id query st ms j t :
  find (fun q => Pos.eqb (qid q) query_id) (queries st) = Some query ->
  method request = "POST" ->
  post_query_form_valid (POST request) = true ->
  post_formset_valid (POST request) = true ->
  exists t',
    edit norm request query_id (mkWorld st ms j t []) =
    (Ok (redirect "wagtailsearchpromotions:index"),
     mkWorld (edit_final_store norm (POST request) query st)
             (ms ++ [mkMessage LvlSuccess
                       ("Editor's picks for '"
                        ++ query_string
                             (query_of (norm (post_query_string (POST request)))
                                       st)
                        ++ "' updated.")])
             (j ++ edit_events norm (POST request) query st) t' []).
Proof.
  intros F HM HQ HF. unfold edit.
  erewrite bind_run by (apply get_object_or_404_run; exact F).
  rewrite HM, String.eqb_refl.
  erewrite bind_run by apply SearchPromotionsFormSet_run.
  unfold QueryForm_bound. cbn [query_form_is_valid query_string_value db].
  rewrite HQ.
  destruct (Query_get_run norm (post_query_string (POST request)) st ms j t)
    as [t1 G].
  set (ns := norm (post_query_string (POST request))) in *.
  destruct (save_searchpicks_run
              query (query_of ns st) (bound_formset (POST request) query st)
              (store_with_query ns st) ms (j ++ query_events ns st) t1 HF)
    as [t2 S].
  eexists.
  erewrite bind_run by exact G.
  erewrite bind_run by exact S.
  cbn [fst snd].
  unfold messages_success, messages_add, bind, ret.
  cbn [db messages journal tick faults].
  unfold edit_final_store, edit_events. fold ns.
  rewrite <- !app_assoc. reflexivity.
Qed.

Definition delete_final_store (query : Query) (st : Store) : Store :=
  mkStore (queries st)
          (filter (fun p => negb (Pos.eqb (query_id p) (qid query)))
                  (promotions st))
          (daily_hits st)
          (log_entries st
           ++ map (log_entry_of "wagtail.delete") (editors_picks st query))
          (next_pk st).

Definition delete_events (query : Query) (st : Store) : list Event :=
  map (log_event_of "wagtail.delete") (editors_picks st query)
  ++ [EvBulkDelete (qid query)
                   (map pk (filter (fun p => Pos.eqb (query_id p) (qid query))
                                   (promotions st)))].

Lemma delete_run request query_id query st ms j t :
  find (fun q => Pos.eqb (qid q) query_id) (queries st) = Some query ->
  method request = "POST" ->
  exists t',
    delete request query_id (mkWorld st ms j t []) =
    (Ok (redirect "wagtailsearchpromotions:index"),
     mkWorld (delete_final_store query st)
             (ms ++ [mkMessage LvlSuccess "Editor's picks deleted."])
             (j ++ delete_events query st) t' []).
Proof.
  intros F HM. unfold delete.
  erewrite bind_run by (apply get_object_or_404_run; exact F).
  rewrite HM, String.eqb_refl.
  unfold read at 1. unfold bind at 1. cbn [db].
  eexists.
  erewrite bind_run;
    [| apply atomic_run;
       erewrite bind_run by apply for_each_log_all_run;
       unfold bulk_delete_query; apply write_dyn_run].
  unfold messages_success, messages_add, bind, ret.
  cbn [db messages journal tick faults].
  unfold delete_final_store, delete_events, add_logs, set_promotions.
  cbn [queries promotions daily_hits log_entries next_pk].
  rewrite <- !app_assoc. reflexivity.
Qed.

(** ** The index listing *)

Lemma existsb_has_promotions st q :
  existsb (Pos.eqb (qid q)) (has_promotions st) = true <->
  exists p, In p (promotions st) /\ query_id p = qid q.
Proof.
  unfold has_promotions. rewrite existsb_exists. split.
  - intros [k [I E]]. apply in_map_iff in I. destruct I as [p [Ep Ip]].
    apply Pos.eqb_eq in E. exists p. split; [exact Ip | congruence].
  - intros [p [Ip E]]. exists (query_id p). split.
    + apply in_map. exact Ip.
    + apply Pos.eqb_eq. symmetry. exact E.
Qed.

(** C1.  Every row of the index view's base queryset is a stored Query that
    has at least one SearchPromotion, and its prefetched picks are not empty;
    a stored Query without any promotion is not listed, and it stays in the
    store. *)
Theorem index_lists_only_promoted_queries (st : Store) :
  (forall r, In r (get_base_queryset st) ->
             In (row_query r) (queries st) /\
             row_editors_picks r <> [] /\
             exists p, In p (promotions st) /\ query_id p = qid (row_query r)) /\
  (forall q, In q (queries st) ->
             (forall p, In p (promotions st) -> query_id p <> qid q) ->
             ~ In q (map row_query (get_base_queryset st)) /\
             In q (queries st)).
Proof.
  split.
  - intros r I. unfold get_base_queryset in I. apply in_map_iff in I.
    destruct I as [q [E I]]. apply filter_In in I. destruct I as [Iq H].
    subst r. simpl. apply existsb_has_promotions in H.
    destruct H as [p [Ip Ep]]. split; [exact Iq |]. split.
    + intros N.
      assert (Ip' : In p (editors_picks st q))
        by (apply in_editors_picks; split; assumption).
      rewrite N in Ip'. destruct Ip'.
    + exists p. split; assumption.
  - intros q Iq H. split; [| exact Iq]. intros I.
    apply in_map_iff in I. destruct I as [r [E I]].
    unfold get_base_queryset in I. apply in_map_iff in I.
    destruct I as [q' [E' I]]. subst r. simpl in E. subst q'.
    apply filter_In in I. destruct I as [_ I].
    apply existsb_has_promotions in I. destruct I as [p [Ip Ep]].
    exact (H p Ip Ep).
Qed.

(** ** The chooser *)

Definition response_queries (r : Response) : option Page :=
  match r with
  | TemplateResponse _ c => ctx_queries c
  | render_modal_workflow _ c _ => ctx_queries c
  | _ => None
  end.

(** C7.  When the page parameter [p] of a chooser or chooser-results request
    is not an integer, is below 1, or is beyond the last page of the results,
    the handler raises [Http404] and changes nothing. *)
Theorem chooser_invalid_page_not_found
        (normalise_query_string : string -> string)
        (get_most_popular : Store -> list Query)
        (searchform_clean : string -> option string)
        (int_of_str : string -> option Z)
        (request : Request) (get_results : bool) (w : World) :
  (int_of_arg int_of_str (page_arg request) = None \/
   exists n,
     int_of_arg int_of_str (page_arg request) = Some n /\
     (n < 1 \/
      Z.of_nat
        (num_pages
           (mkPaginator
              (fst (chooser_queries normalise_query_string get_most_popular
                                    searchform_clean request (db w)))
              10)) < n)%Z) ->
  chooser normalise_query_string get_most_popular searchform_clean int_of_str
          request get_results w = (Raise Http404, w) /\
  chooserresults normalise_query_string get_most_popular searchform_clean
                 int_of_str request w = (Raise Http404, w).
Proof.
  intros H.
  assert (P : forall g,
             chooser normalise_query_string get_most_popular searchform_clean
                     int_of_str request g w = (Raise Http404, w)).
  { intros g. unfold chooser, bind, read, page, validate_number.
    destruct H as [H | [n [H B]]]; rewrite H.
    - reflexivity.
    - destruct (Z.ltb_spec n 1) as [L | L]; [reflexivity |].
      destruct B as [B | B]; [lia |].
      match goal with
      | |- context [(?a <? n)%Z] => destruct (Z.ltb_spec a n) as [L' | L']
      end; [reflexivity | lia]. }
  split; [apply P | apply (P true)].
Qed.

Lemma slice_page {A} (l : list A) (bottom : nat) :
  slice bottom
        (if List.length l <=? bottom + 10 then List.length l else bottom + 10)
        l =
  firstn 10 (skipn bottom l).
Proof.
  unfold slice. destruct (Nat.leb_spec (List.length l) (bottom + 10)) as [L | L].
  - rewrite !firstn_all2; [reflexivity | |]; rewrite length_skipn; lia.
  - f_equal. lia.
Qed.

Lemma chooser_page
      (normalise_query_string : string -> string)
      (get_most_popular : Store -> list Query)
      (searchform_clean : string -> option string)
      (int_of_str : string -> option Z)
      (request : Request) (get_results : bool) (w : World) (n : Z) :
  int_of_arg int_of_str (page_arg request) = Some n ->
  (1 <= n <=
   Z.of_nat
     (num_pages
        (mkPaginator
           (fst (chooser_queries normalise_query_string get_most_popular
                                 searchform_clean request (db w)))
           10)))%Z ->
  exists resp pg,
    chooser normalise_query_string get_most_popular searchform_clean int_of_str
            request get_results w = (Ok resp, w) /\
    response_queries resp = Some pg /\
    number pg = n /\
    object_list pg =
    firstn 10
      (skipn ((Z.to_nat n - 1) * 10)
         (fst (chooser_queries normalise_query_string get_most_popular
                               searchform_clean request (db w)))).
Proof.
  intros H [L1 L2]. unfold chooser, bind, read, page, validate_number.
  rewrite H.
  destruct (Z.ltb_spec n 1) as [B | _]; [lia |].
  match goal with
  | |- context [(?a <? n)%Z] => destruct (Z.ltb_spec a n) as [B | _]
  end; [lia |].
  cbn [per_page paginated count].
  set (L := fst (chooser_queries normalise_query_string get_most_popular
                                 searchform_clean request (db w))).
  destruct get_results; eexists; eexists;
    (split; [reflexivity |]); (split; [reflexivity |]);
    (split; [reflexivity |]); cbn [object_list]; unfold count;
    cbn [paginated]; apply slice_page.
Qed.

Lemma prefix_split (a b : string) :
  String.prefix a b = true <-> exists post, b = (a ++ post)%string.
Proof.
  revert b. induction a as [| c a IH]; intros [| d b]; simpl.
  - split; [intros _; exists EmptyString; reflexivity | reflexivity].
  - split; [intros _; exists (String d b); reflexivity | reflexivity].
  - split; [discriminate | intros [post E]; discriminate].
  - destruct (Ascii.ascii_dec c d) as [E | NE].
    + subst d. rewrite IH. split; intros [post E]; exists post.
      * rewrite E. reflexivity.
      * inversion E. reflexivity.
    + split; [discriminate |].
      intros [post E]. inversion E. exfalso. apply NE. congruence.
Qed.

Lemma contains_split (needle hay : string) :
  contains needle hay = true <->
  exists pre post, hay = (pre ++ needle ++ post)%string.
Proof.
  induction hay as [| d hay IH].
  - unfold contains. rewrite orb_false_r, prefix_split. split.
    + intros [post E]. exists EmptyString, post. exact E.
    + intros [pre [post E]]. destruct pre; [exists post; exact E | discriminate].
  - change (contains needle (String d hay))
      with (String.prefix needle (String d hay) || contains needle hay).
    rewrite orb_true_iff, IH, prefix_split. split.
    + intros [[post E] | [pre [post E]]].
      * exists EmptyString, post. exact E.
      * exists (String d pre), post. rewrite E. reflexivity.
    + intros [pre [post E]]. destruct pre as [| c pre].
      * left. exists post. exact E.
      * right. inversion E. exists pre, post. reflexivity.
Qed.

Lemma in_firstn {A} (n : nat) (l : list A) x : In x (firstn n l) -> In x l.
Proof.
  intros I. rewrite <- (firstn_skipn n l). apply in_or_app. left. exact I.
Qed.

Lemma in_skipn {A} (n : nat) (l : list A) x : In x (skipn n l) -> In x l.
Proof.
  intros I. rewrite <- (firstn_skipn n l). apply in_or_app. right. exact I.
Qed.

(** C10.  A chooser request for a valid page [n] is answered with that page
    of ten entries.  With a valid search parameter [q] the entries are the
    most popular queries whose query string contains, letter case aside, the
    normalised search term, in popularity order; without a [q] parameter they
    are the unfiltered most popular queries. *)
Theorem chooser_shows_filtered_popular_queries
        (normalise_query_string : string -> string)
        (get_most_popular : Store -> list Query)
        (searchform_clean : string -> option string)
        (int_of_str : string -> option Z)
        (request : Request) (get_results : bool) (w : World) (n : Z) :
  int_of_arg int_of_str (page_arg request) = Some n ->
  (1 <= n <=
   Z.of_nat
     (num_pages
        (mkPaginator
           (fst (chooser_queries normalise_query_string get_most_popular
                                 searchform_clean request (db w)))
           10)))%Z ->
  exists resp pg,
    chooser normalise_query_string get_most_popular searchform_clean int_of_str
            request get_results w = (Ok resp, w) /\
    response_queries resp = Some pg /\
    number pg = n /\
    List.length (object_list pg) <= 10 /\
    (forall q cleaned_q,
        GET_get "q" (GET request) = Some q ->
        searchform_clean q = Some cleaned_q ->
        object_list pg =
        firstn 10
          (skipn ((Z.to_nat n - 1) * 10)
             (filter (fun x => icontains (normalise_query_string cleaned_q)
                                         (query_string x))
                     (get_most_popular (db w)))) /\
        Forall (fun x =>
                  In x (get_most_popular (db w)) /\
                  exists pre post,
                    lower (query_string x) =
                    (pre ++ lower (normalise_query_string cleaned_q)
                         ++ post)%string)
               (object_list pg)) /\
    (GET_get "q" (GET request) = None ->
     object_list pg =
     firstn 10 (skipn ((Z.to_nat n - 1) * 10) (get_most_popular (db w)))).
Proof.
  intros H B.
  destruct (chooser_page normalise_query_string get_most_popular
                         searchform_clean int_of_str request get_results w n
                         H B) as [resp [pg [R [Q [N O]]]]].
  exists resp, pg. split; [exact R |]. split; [exact Q |].
  split; [exact N |]. split.
  - rewrite O. rewrite length_firstn. lia.
  - split.
    + intros q c Hq Hc. unfold chooser_queries in O. rewrite Hq, Hc in O.
      cbn [fst] in O. split; [exact O |].
      rewrite O. apply Forall_forall. intros x I.
      apply in_firstn, in_skipn, filter_In in I.
      destruct I as [I C]. split; [exact I |].
      apply contains_split. exact C.
    + intros Hq. unfold chooser_queries in O. rewrite Hq in O. exact O.
Qed.

(** ** Atomicity of the writes *)

Lemma save_searchpicks_raise query new_query fs w e w' :
  save_searchpicks query new_query fs w = (Raise e, w') ->
  db w' = db w /\ journal w' = journal w.
Proof.
  unfold save_searchpicks. intros H.
  apply bind_raise_inv in H. destruct H as [H | [valid [w0 [V H]]]].
  - unfold is_valid in H. inversion H; subst. split; reflexivity.
  - unfold is_valid in V. inversion V; subst w0.
    destruct valid; [| discriminate].
    apply bind_raise_inv in H. destruct H as [H | [a [w1 [_ H]]]].
    + apply atomic_rolls_back in H. exact H.
    + discriminate.
Qed.

Lemma Query_get_frame norm s w r w' :
  Query_get norm s w = (r, w') ->
  promotions (db w') = promotions (db w) /\
  log_entries (db w') = log_entries (db w) /\
  next_pk (db w') = next_pk (db w).
Proof.
  unfold Query_get, bind, read, write, write_dyn, ret.
  destruct (find _ (queries (db w))).
  - intros H. inversion H; subst. auto.
  - destruct (fault_now w); intros H; inversion H; subst; simpl; auto.
Qed.

(** C4.  The delete-log calls, the formset save, the create- and edit-log
    calls and the bulk reassignment of [save_searchpicks], and the delete-log
    calls and the bulk delete of [delete], run inside one transaction:
    whichever statement fails, the handler raises with the store exactly as
    the transaction found it.  For [edit] that is the store as [Query.get]
    left it, so no promotion row and no audit-log row has changed. *)
Theorem writes_are_all_or_nothing :
  (forall query new_query fs w e w',
      save_searchpicks query new_query fs w = (Raise e, w') ->
      db w' = db w /\ journal w' = journal w) /\
  (forall request query_id w e w',
      delete request query_id w = (Raise e, w') ->
      db w' = db w /\ journal w' = journal w) /\
  (forall norm request query_id w e w',
      edit norm request query_id w = (Raise e, w') ->
      promotions (db w') = promotions (db w) /\
      log_entries (db w') = log_entries (db w)).
Proof.
  split; [| split].
  - apply save_searchpicks_raise.
  - intros request query_id w e w'. unfold delete, get_object_or_404.
    unfold bind at 1.
    destruct (find _ (queries (db w))) as [query |];
      [| intros H; inversion H; subst; auto].
    destruct (String.eqb (method request) "POST"); [| discriminate].
    unfold read at 1. unfold bind at 1.
    intros H. apply bind_raise_inv in H. destruct H as [H | [a [w1 [_ H]]]].
    + apply atomic_rolls_back in H. exact H.
    + discriminate.
  - intros norm request query_id w e w'. unfold edit, get_object_or_404.
    unfold bind at 1.
    destruct (find _ (queries (db w))) as [query |];
      [| intros H; inversion H; subst; auto].
    destruct (String.eqb (method request) "POST"); [| discriminate].
    rewrite (bind_run _ _ _ _ _ (SearchPromotionsFormSet_run _ _ _)).
    destruct (query_form_is_valid (QueryForm_bound (POST request)));
      [| discriminate].
    intros H. apply bind_raise_inv in H. destruct H as [H | [nq [w1 [G H]]]].
    + apply Query_get_frame in H. destruct H as [H1 [H2 _]]. auto.
    + apply Query_get_frame in G. destruct G as [G1 [G2 _]].
      apply bind_raise_inv in H. destruct H as [H | [r [w2 [_ H]]]].
      * apply save_searchpicks_raise in H. destruct H as [H _].
        rewrite H. auto.
      * destruct (fst r); [discriminate |].
        destruct (0 <? List.length (non_form_errors (snd r))); discriminate.
Qed.

(** ** Invalid formsets *)

(** The text of the flash error: the joined non-form errors when there are
    any, the handler's generic message otherwise. *)
Definition formset_error_text (generic : string) (errors : list string)
  : string :=
  if 0 <? List.length errors then join_errors errors else generic.

Lemma save_searchpicks_invalid query new_query fs w :
  formset_validation fs = Ok false ->
  save_searchpicks query new_query fs w = (Ok (false, fs), w).
Proof.
  intros V. unfold save_searchpicks, bind, is_valid. rewrite V. reflexivity.
Qed.

Lemma save_searchpicks_validation_raises query new_query fs w e :
  formset_validation fs = Raise e ->
  save_searchpicks query new_query fs w = (Raise e, w).
Proof.
  intros V. unfold save_searchpicks, bind, is_valid. rewrite V. reflexivity.
Qed.

Lemma store_with_query_frame ns st :
  promotions (store_with_query ns st) = promotions st /\
  log_entries (store_with_query ns st) = log_entries st /\
  next_pk (store_with_query ns st) = next_pk st /\
  daily_hits (store_with_query ns st) = daily_hits st.
Proof.
  unfold store_with_query. destruct (find _ (queries st)); simpl; auto.
Qed.

Lemma query_of_spec ns st :
  In (query_of ns st) (queries (store_with_query ns st)) /\
  query_string (query_of ns st) = ns.
Proof.
  unfold query_of, store_with_query.
  destruct (find (fun q => String.eqb (query_string q) ns) (queries st))
    as [q |] eqn:F.
  - apply find_some in F. destruct F as [I E]. apply String.eqb_eq in E.
    split; assumption.
  - simpl. split; [| reflexivity]. apply in_or_app. right. left. reflexivity.
Qed.

Lemma bound_formset_errors post inst st :
  map form_errors (forms (bound_formset post inst st)) =
  map fd_errors (post_initial_forms post ++ post_extra_forms post).
Proof.
  unfold bound_formset. cbn [forms]. rewrite !map_app, !map_map.
  reflexivity.
Qed.

(** C9 (amended).  When the query form of an add or edit submission is valid
    and [is_valid()] of its formset returns false, [save_searchpicks] writes
    nothing and returns false; the handler then adds exactly one flash error,
    the non-form errors joined by spaces when there are any and the generic
    message otherwise, and re-renders the page with the submitted query form
    and the formset that was bound to the submission, whose forms carry, form
    by form, the field errors that validation found.  No promotion row and no
    audit-log row changes. *)
Theorem invalid_formset_is_reported
        (norm : string -> string) (request : Request) (w : World) :
  faults w = [] ->
  method request = "POST" ->
  post_query_form_valid (POST request) = true ->
  post_formset_validation (POST request) = Ok false ->
  (forall query new_query fs w0,
      formset_validation fs = Ok false ->
      save_searchpicks query new_query fs w0 = (Ok (false, fs), w0)) /\
  (exists w' query fs,
      add norm request w =
      (Ok (TemplateResponse
             "wagtailsearchpromotions/add.html"
             (add_context (QueryFormBound (QueryForm_bound (POST request)))
                          (FormsetBound fs))),
       w') /\
      query_string query = norm (post_query_string (POST request)) /\
      fs = bound_formset (POST request) query (db w') /\
      non_form_errors fs = post_non_form_errors (POST request) /\
      map form_errors (forms fs) =
      map fd_errors (post_initial_forms (POST request)
                     ++ post_extra_forms (POST request)) /\
      messages w' =
      messages w
      ++ [mkMessage LvlError
            (formset_error_text
               "Recommendations have not been created due to errors"
               (post_non_form_errors (POST request)))] /\
      promotions (db w') = promotions (db w) /\
      log_entries (db w') = log_entries (db w)) /\
  (forall query_id query,
      find (fun q => Pos.eqb (qid q) query_id) (queries (db w)) = Some query ->
      exists w' fs,
        edit norm request query_id w =
        (Ok (TemplateResponse
               "wagtailsearchpromotions/edit.html"
               (edit_context request query
                             (QueryFormBound (QueryForm_bound (POST request)))
                             (FormsetBound fs))),
         w') /\
        fs = bound_formset (POST request) query (db w) /\
        non_form_errors fs = post_non_form_errors (POST request) /\
        map form_errors (forms fs) =
        map fd_errors (post_initial_forms (POST request)
                       ++ post_extra_forms (POST request)) /\
        messages w' =
        messages w
        ++ [mkMessage LvlError
              (formset_error_text
                 "Recommendations have not been saved due to errors"
                 (post_non_form_errors (POST request)))] /\
        promotions (db w') = promotions (db w) /\
        log_entries (db w') = log_entries (db w)).
Proof.
  intros HF HM HQ HV. destruct w as [st ms j t fl]. simpl in HF. subst fl.
  split; [intros; apply save_searchpicks_invalid; assumption |].
  destruct (Query_get_run norm (post_query_string (POST request)) st ms j t)
    as [t1 G].
  set (ns := norm (post_query_string (POST request))) in *.
  destruct (store_with_query_frame ns st) as [SP [SL _]].
  destruct (query_of_spec ns st) as [_ Sq].
  split.
  - exists (mkWorld (store_with_query ns st)
                    (ms ++ [mkMessage LvlError
                              (formset_error_text
                                 "Recommendations have not been created due to errors"
                                 (post_non_form_errors (POST request)))])
                    (j ++ query_events ns st) t1 []).
    exists (query_of ns st).
    exists (bound_formset (POST request) (query_of ns st)
                          (store_with_query ns st)).
    split; [| split; [exact Sq | split; [reflexivity | split; [reflexivity |
      split; [apply bound_formset_errors | split; [reflexivity |
      split; [exact SP | exact SL]]]]]]].
    unfold add. rewrite HM, String.eqb_refl.
    unfold QueryForm_bound at 1. cbn [query_form_is_valid]. rewrite HQ.
    cbn [query_string_value QueryForm_bound].
    erewrite bind_run by exact G.
    erewrite bind_run by apply SearchPromotionsFormSet_run.
    erewrite bind_run
      by (apply save_searchpicks_invalid;
          cbn [formset_validation bound_formset]; exact HV).
    cbn [fst snd db non_form_errors bound_formset].
    unfold QueryForm_bound. rewrite ?HQ.
    unfold formset_error_text.
    destruct (0 <? List.length (post_non_form_errors (POST request)));
      reflexivity.
  - intros query_id query F. cbn [db] in F.
    exists (mkWorld (store_with_query ns st)
                    (ms ++ [mkMessage LvlError
                              (formset_error_text
                                 "Recommendations have not been saved due to errors"
                                 (post_non_form_errors (POST request)))])
                    (j ++ query_events ns st) t1 []).
    exists (bound_formset (POST request) query st).
    split; [| split; [reflexivity | split; [reflexivity |
      split; [apply bound_formset_errors | split; [reflexivity |
      split; [exact SP | exact SL]]]]]].
    unfold edit.
    erewrite bind_run by (apply get_object_or_404_run; exact F).
    rewrite HM, String.eqb_refl.
    erewrite bind_run by apply SearchPromotionsFormSet_run.
    unfold QueryForm_bound at 1. cbn [query_form_is_valid]. rewrite HQ.
    cbn [query_string_value QueryForm_bound].
    erewrite bind_run by exact G.
    erewrite bind_run
      by (apply save_searchpicks_invalid;
          cbn [formset_validation bound_formset]; exact HV).
    cbn [fst snd db non_form_errors bound_formset].
    unfold QueryForm_bound. rewrite ?HQ.
    unfold formset_error_text.
    destruct (0 <? List.length (post_non_form_errors (POST request)));
      reflexivity.
Qed.

(** ** Counting audit-log entries *)

Definition count_logs (k : positive) (act : string) (logs : list LogEntry)
  : nat :=
  List.length
    (filter (fun e => Pos.eqb (object_id e) k && String.eqb (action e) act)
            logs).

Lemma count_logs_app k act l1 l2 :
  count_logs k act (l1 ++ l2) = count_logs k act l1 + count_logs k act l2.
Proof. unfold count_logs. rewrite filter_app, length_app. reflexivity. Qed.

Lemma count_logs_map {A} (g : A -> SearchPromotion) k act act' (l : list A) :
  count_logs k act (map (fun x => log_entry_of act' (g x)) l) =
  if String.eqb act' act
  then List.length (filter (fun x => Pos.eqb (pk (g x)) k) l)
  else 0.
Proof.
  unfold count_logs. induction l as [| x rest IH]; simpl.
  - destruct (String.eqb act' act); reflexivity.
  - destruct (String.eqb act' act); destruct (Pos.eqb (pk (g x)) k); simpl;
      rewrite IH; reflexivity.
Qed.

Lemma count_key_NoDup {A} (h : A -> positive) (k : positive) (l : list A) :
  NoDup (map h l) ->
  List.length (filter (fun x => Pos.eqb (h x) k) l) =
  if in_dec Pos.eq_dec k (map h l) then 1 else 0.
Proof.
  induction l as [| x rest IH]; intros N; simpl.
  - reflexivity.
  - apply NoDup_cons_iff in N. destruct N as [NI N']. specialize (IH N').
    destruct (Pos.eqb_spec (h x) k) as [E | NE].
    + subst k. simpl. rewrite IH.
      destruct (Pos.eq_dec (h x) (h x)) as [E | C]; [| contradiction].
      destruct (in_dec Pos.eq_dec (h x) (map h rest)); [contradiction |].
      reflexivity.
    + rewrite IH. destruct (Pos.eq_dec (h x) k) as [E | NE']; [contradiction |].
      destruct (in_dec Pos.eq_dec k (map h rest)); reflexivity.
Qed.

Lemma count_logs_rows k act (rows : list SearchPromotion) :
  NoDup (map pk rows) ->
  In k (map pk rows) ->
  count_logs k act (map (log_entry_of act) rows) = 1.
Proof.
  intros N I.
  rewrite (count_logs_map (fun x => x)), String.eqb_refl.
  rewrite (count_key_NoDup pk k rows N).
  destruct (in_dec Pos.eq_dec k (map pk rows)); [reflexivity | contradiction].
Qed.

(** Which events of a save insert a row. *)
Lemma in_insert_log_events k act (l : list SearchPromotion) :
  ~ In (EvInsert k) (map (log_event_of act) l).
Proof.
  intros I. apply in_map_iff in I. destruct I as [x [E _]]. discriminate.
Qed.

Lemma in_insert_edit_events {B} k act (l : list (SearchPromotion * B)) :
  ~ In (EvInsert k) (map (fun x => log_event_of act (fst x)) l).
Proof.
  intros I. apply in_map_iff in I. destruct I as [x [E _]]. discriminate.
Qed.

Lemma in_insert_action_events k (acts : list Action) :
  ~ In (EvInsert k) (map action_event acts).
Proof.
  intros I. apply in_map_iff in I. destruct I as [[obj | obj cd] [E _]];
    discriminate.
Qed.

Lemma in_insert_sp_events k query new_query fs st :
  In (EvInsert k) (sp_events query new_query fs st) ->
  In k (map pk (sp_rows fs st)).
Proof.
  unfold sp_events. rewrite !in_app_iff.
  intros [I | [I | [I | [I | [I | I]]]]].
  - exfalso. exact (in_insert_log_events _ _ _ I).
  - exfalso. exact (in_insert_action_events _ _ I).
  - apply in_map_iff in I. destruct I as [r [E I]]. inversion E; subst.
    apply in_map. exact I.
  - exfalso. exact (in_insert_log_events _ _ _ I).
  - destruct (negb (Query_eqb query new_query)); [| destruct I].
    destruct I as [E | []]. discriminate.
  - exfalso. exact (in_insert_edit_events _ _ _ I).
Qed.

Lemma count_create_sp_logs k query new_query fs st :
  In k (map pk (sp_rows fs st)) ->
  count_logs k "wagtail.create" (sp_new_logs query new_query fs st) = 1.
Proof.
  intros I. unfold sp_new_logs. rewrite !count_logs_app.
  rewrite (count_logs_map (fun x => x) k "wagtail.create" "wagtail.delete").
  rewrite (count_logs_map fst k "wagtail.create" "wagtail.edit").
  rewrite (count_logs_rows k "wagtail.create" _ (sp_rows_NoDup fs st) I).
  reflexivity.
Qed.

(** ** Creation is logged twice by [add] *)

(** C6.  An add submission with a valid query form and a valid formset, on
    which no statement fails, succeeds, and every search pick that the save
    inserts gets
    two audit-log entries with action [wagtail.create]: one written by
    [save_searchpicks] inside its transaction, and one more written by the
    [add] handler after [save_searchpicks] has returned true. *)
Theorem add_logs_created_picks_twice
        (norm : string -> string) (request : Request) (w : World) :
  faults w = [] ->
  method request = "POST" ->
  post_query_form_valid (POST request) = true ->
  post_formset_valid (POST request) = true ->
  exists w' query fs w1 w2 fs' inner outer events,
    add norm request w =
    (Ok (redirect "wagtailsearchpromotions:index"), w') /\
    save_searchpicks query query fs w1 = (Ok (true, fs'), w2) /\
    log_entries (db w1) = log_entries (db w) /\
    log_entries (db w2) = log_entries (db w1) ++ inner /\
    outer = map (log_entry_of "wagtail.create") (new_objects fs') /\
    log_entries (db w') = log_entries (db w) ++ inner ++ outer /\
    journal w' = journal w ++ events /\
    forall k,
      In (EvInsert k) events ->
      In k (map pk (new_objects fs')) /\
      count_logs k "wagtail.create" inner = 1 /\
      count_logs k "wagtail.create" outer = 1 /\
      count_logs k "wagtail.create" (inner ++ outer) = 2.
Proof.
  intros HF HM HQ HV. destruct w as [st ms j t fl]. simpl in HF. subst fl.
  destruct (add_run norm request st ms j t HM HQ HV) as [t' A].
  destruct (Query_get_run norm (post_query_string (POST request)) st ms j t)
    as [t1 G].
  set (ns := norm (post_query_string (POST request))) in *.
  set (query := query_of ns st) in *.
  set (st1 := store_with_query ns st) in *.
  set (fs := bound_formset (POST request) query st1).
  destruct (save_searchpicks_run query query fs st1 ms
                                 (j ++ query_events ns st) t1 HV)
    as [t2 S].
  destruct (store_with_query_frame ns st) as [_ [SL _]]. fold st1 in SL.
  eexists. exists query, fs. eexists. eexists. eexists.
  exists (sp_new_logs query query fs st1).
  exists (map (log_entry_of "wagtail.create") (sp_rows fs st1)).
  exists (add_events norm (POST request) st).
  split; [exact A |]. split; [exact S |]. split; [exact SL |].
  split; [reflexivity |]. split; [reflexivity |].
  split.
  { cbn [db]. unfold add_final_store. fold ns. fold query. fold st1. fold fs.
    unfold add_logs, sp_store. cbn [log_entries]. rewrite SL, <- app_assoc.
    reflexivity. }
  split; [reflexivity |].
  intros k I.
  assert (R : In k (map pk (sp_rows fs st1))).
  { unfold add_events in I. fold ns in I. fold query in I. fold st1 in I.
    fold fs in I. rewrite !in_app_iff in I. destruct I as [I | [I | I]].
    - unfold query_events in I. destruct (find _ (queries st)); [destruct I |].
      destruct I as [E | []]. discriminate.
    - apply in_insert_sp_events in I. exact I.
    - exfalso. exact (in_insert_log_events _ _ _ I). }
  split; [exact R |].
  assert (C1 : count_logs k "wagtail.create" (sp_new_logs query query fs st1) = 1)
    by (apply count_create_sp_logs; exact R).
  assert (C2 : count_logs k "wagtail.create"
                          (map (log_entry_of "wagtail.create") (sp_rows fs st1))
               = 1)
    by (apply count_logs_rows; [apply sp_rows_NoDup | exact R]).
  split; [exact C1 |]. split; [exact C2 |].
  rewrite count_logs_app, C1, C2. reflexivity.
Qed.

(** ** A created promotion shows up in the index *)

Lemma saved_extra_forms_bound picks (ds : list FormData) d :
  In d ds -> fd_changed_data d <> [] -> fd_DELETE d = false ->
  saved_extra_forms (map (bind_form picks false) ds) <> [].
Proof.
  intros I C D N.
  assert (J : In (bind_form picks false d)
                 (saved_extra_forms (map (bind_form picks false) ds))).
  { unfold saved_extra_forms. apply filter_In. split.
    - apply in_map. exact I.
    - unfold has_changed, should_delete_form, bind_form. simpl. rewrite D.
      destruct (fd_changed_data d); [contradiction | reflexivity]. }
  rewrite N in J. destruct J.
Qed.

(** C8.  An add submission with a valid query form and a valid formset that
    holds at least one new pick (an extra form with data that is not marked
    for deletion), on which no statement fails, is answered with a redirect
    to the index, and in the store
    it leaves, the Query of the submitted search string is a row of the index
    queryset with at least one promoted result. *)
Theorem add_makes_query_listed
        (norm : string -> string) (request : Request) (w : World) :
  faults w = [] ->
  method request = "POST" ->
  post_query_form_valid (POST request) = true ->
  post_formset_valid (POST request) = true ->
  (exists d, In d (post_extra_forms (POST request)) /\
             fd_changed_data d <> [] /\ fd_DELETE d = false) ->
  exists w' r,
    add norm request w =
    (Ok (redirect "wagtailsearchpromotions:index"), w') /\
    In r (get_base_queryset (db w')) /\
    query_string (row_query r) = norm (post_query_string (POST request)) /\
    1 <= List.length (row_editors_picks r).
Proof.
  intros HF HM HQ HV [d [Id [Cd Dd]]].
  destruct w as [st ms j t fl]. simpl in HF. subst fl.
  destruct (add_run norm request st ms j t HM HQ HV) as [t' A].
  set (ns := norm (post_query_string (POST request))) in *.
  set (query := query_of ns st) in *.
  set (st1 := store_with_query ns st).
  set (fs := bound_formset (POST request) query st1).
  destruct (query_of_spec ns st) as [Iq Sq]. fold query in Iq, Sq.
  fold st1 in Iq.
  assert (R : exists r0, In r0 (sp_rows fs st1)).
  { destruct (sp_rows fs st1) as [| r0 rest] eqn:E.
    - exfalso.
      apply (saved_extra_forms_bound (editors_picks st1 query)
                                     (post_extra_forms (POST request)) d
                                     Id Cd Dd).
      apply length_zero_iff_nil.
      rewrite <- (bound_extra_forms (POST request) query st1).
      fold fs. rewrite <- (sp_rows_length fs st1), E. reflexivity.
    - exists r0. left. reflexivity. }
  destruct R as [r0 I0].
  destruct (sp_rows_query fs st1 r0 I0) as [Q0 _]. cbn [instance fs bound_formset] in Q0.
  assert (P0 : In r0 (promotions (add_final_store norm (POST request) st))).
  { unfold add_final_store. fold ns. fold query. fold st1. fold fs.
    unfold add_logs, sp_store, sp_promotions. cbn [promotions].
    unfold Query_eqb. rewrite Pos.eqb_refl. cbn [negb].
    apply in_or_app. right. exact I0. }
  exists (mkWorld (add_final_store norm (POST request) st)
                  (ms ++ [mkMessage LvlSuccess
                            ("Editor's picks for '" ++ query_string query
                                                    ++ "' created.")])
                  (j ++ add_events norm (POST request) st) t' []).
  exists (mkIndexRow query
            (Coalesce (Sum_daily_hits (add_final_store norm (POST request) st)
                                      query) 0)
            (editors_picks (add_final_store norm (POST request) st) query)).
  split; [exact A |]. cbn [db row_query row_editors_picks].
  split; [| split; [exact Sq |]].
  - unfold get_base_queryset. apply in_map_iff. exists query.
    split; [reflexivity |]. apply filter_In. split.
    + unfold add_final_store. fold ns. fold query. fold st1. exact Iq.
    + apply existsb_has_promotions. exists r0. split; assumption.
  - assert (E : In r0 (editors_picks (add_final_store norm (POST request) st)
                                     query)).
    { apply in_editors_picks. split; [exact P0 | exact Q0]. }
    destruct (editors_picks (add_final_store norm (POST request) st) query);
      [destruct E | simpl; lia].
Qed.

(** ** Keys edited and deleted by a save *)


Lemma in_deleted_keys fs k :
  In k (deleted_keys fs) <->
  exists f, In f (initial_forms fs) /\ instance_pk f = Some k /\
            cleaned_DELETE f = true.
Proof.
  unfold deleted_keys. rewrite in_flat_map. split.
  - intros [f [I H]]. exists f. split; [exact I |].
    destruct (instance_pk f) as [k' |]; [| destruct H].
    destruct (cleaned_DELETE f); [| destruct H].
    destruct H as [E | []]. subst. auto.
  - intros [f [I [P D]]]. exists f. split; [exact I |].
    rewrite P, D. left. reflexivity.
Qed.


Definition key_deleted (a : KeyAction) : list positive :=
  match a with
  | KDelete k => [k]
  | KUpdate _ _ => []
  end.

Definition key_event (a : KeyAction) : Event :=
  match a with
  | KDelete k => EvDelete k
  | KUpdate k _ => EvUpdate k
  end.

Lemma flat_map_flat_map {A B C} (g : B -> list C) (h : A -> list B)
      (l : list A) :
  flat_map g (flat_map h l) = flat_map (fun x => flat_map g (h x)) l.
Proof.
  induction l as [| x rest IH]; simpl.
  - reflexivity.
  - rewrite flat_map_app, IH. reflexivity.
Qed.


Lemma deleted_of_keys (acts : list Action) :
  map pk (flat_map action_deleted acts) =
  flat_map key_deleted (map action_key acts).
Proof.
  induction acts as [| [obj | obj cd] rest IH]; simpl.
  - reflexivity.
  - rewrite IH. reflexivity.
  - exact IH.
Qed.

Lemma events_of_keys (acts : list Action) :
  map action_event acts = map key_event (map action_key acts).
Proof.
  rewrite map_map. apply map_ext. intros [obj | obj cd]; reflexivity.
Qed.


Lemma sp_deleted_keys fs :
  formset_is_valid fs = true ->
  flat_map key_deleted (map action_key (sp_actions fs)) = deleted_keys fs.
Proof.
  intros V. rewrite (sp_actions_keys fs V).
  unfold key_actions, deleted_keys. rewrite flat_map_flat_map.
  apply flat_map_ext. intros f.
  destruct (instance_pk f); [| reflexivity].
  destruct (cleaned_DELETE f); reflexivity.
Qed.

Lemma in_delete_action_events fs k :
  formset_is_valid fs = true ->
  In (EvDelete k) (map action_event (sp_actions fs)) <->
  In k (deleted_keys fs).
Proof.
  intros V. rewrite events_of_keys, <- (sp_deleted_keys fs V).
  rewrite in_map_iff, in_flat_map. split.
  - intros [a [E I]]. exists a. split; [exact I |].
    destruct a; inversion E; subst. left. reflexivity.
  - intros [a [I H]]. exists a. split; [| exact I].
    destruct a as [k' | k' cd]; simpl in H; [| destruct H].
    destruct H as [E | []]. subst. reflexivity.
Qed.

Lemma in_sp_actions_delete fs obj :
  formset_is_valid fs = true ->
  In (ActDelete obj) (sp_actions fs) -> In (pk obj) (deleted_keys fs).
Proof.
  intros V I. apply (in_delete_action_events fs (pk obj) V).
  apply in_map_iff. exists (ActDelete obj). split; [reflexivity | exact I].
Qed.

(** ** Edit entries *)



(** ** Deletions are logged before the rows go *)

(** The statement [ev] removes the row with key [k]. *)
Definition removes (ev : Event) (k : positive) : Prop :=
  match ev with
  | EvDelete k' => k' = k
  | EvBulkDelete _ ks => In k ks
  | _ => False
  end.

(** Among [events], every delete entry for [k] comes before every statement
    that removes [k], and there is such an entry. *)
Definition logged_before_removal (events : list Event) (k : positive) : Prop :=
  exists before after,
    events = before ++ after /\
    In (EvLog k "wagtail.delete") before /\
    (forall ev, In ev before -> ~ removes ev k) /\
    ~ In (EvLog k "wagtail.delete") after.

Lemma delete_logs_then_rest (keys : list positive) (rest : list Event) k :
  In k keys ->
  ~ In (EvLog k "wagtail.delete") rest ->
  logged_before_removal
    (map (fun k' => EvLog k' "wagtail.delete") keys ++ rest) k.
Proof.
  intros I R.
  exists (map (fun k' => EvLog k' "wagtail.delete") keys), rest.
  split; [reflexivity |]. split; [| split; [| exact R]].
  - apply in_map_iff. exists k. split; [reflexivity | exact I].
  - intros ev Iev. apply in_map_iff in Iev. destruct Iev as [k' [E _]].
    subst ev. simpl. auto.
Qed.

Lemma log_events_of_keys act (l : list SearchPromotion) :
  map (log_event_of act) l = map (fun k => EvLog k act) (map pk l).
Proof. rewrite map_map. reflexivity. Qed.

Lemma bulk_moved_keys old_q new_q ps :
  map pk (bulk_moved old_q new_q ps) = map pk ps.
Proof.
  unfold bulk_moved. rewrite map_map. apply map_ext. intros p.
  destruct (Pos.eqb (query_id p) old_q); reflexivity.
Qed.

Lemma sp_promotions_keys query new_query fs st :
  map pk (sp_promotions query new_query fs st) =
  map pk (fold_left apply_action (sp_actions fs) (promotions st)
          ++ sp_rows fs st).
Proof.
  unfold sp_promotions. destruct (negb (Query_eqb query new_query)).
  - apply bulk_moved_keys.
  - reflexivity.
Qed.

Lemma sp_rest_has_no_delete_log k query new_query fs st :
  ~ In (EvLog k "wagtail.delete")
       (map action_event (sp_actions fs)
        ++ map (fun r => EvInsert (pk r)) (sp_rows fs st)
        ++ map (log_event_of "wagtail.create") (sp_rows fs st)
        ++ (if negb (Query_eqb query new_query)
            then [EvBulkUpdate (qid (instance fs)) (qid new_query)] else [])
        ++ map (fun x => log_event_of "wagtail.edit" (fst x))
               (sp_edited query new_query fs)).
Proof.
  rewrite !in_app_iff, !in_map_iff.
  intros [[a [E _]] | [[r [E _]] | [[r [E _]] | [I | [x [E _]]]]]];
    try discriminate.
  - destruct a; discriminate.
  - destruct (negb (Query_eqb query new_query)); [| destruct I].
    destruct I as [E | []]. discriminate.
Qed.

Lemma sp_removal_is_delete k ev query new_query fs st :
  formset_is_valid fs = true ->
  In ev (sp_events query new_query fs st) ->
  removes ev k ->
  In k (deleted_keys fs).
Proof.
  intros V I R. unfold sp_events in I.
  rewrite !in_app_iff, !in_map_iff in I.
  destruct I as [[x [E _]] | [I | [[x [E _]] | [[x [E _]] | [I | [x [E _]]]]]]];
    try (subst ev; destruct R).
  - apply (in_delete_action_events fs k V). apply in_map_iff.
    destruct I as [a [E I]]. exists a. split; [| exact I].
    subst ev. destruct a; simpl in R; [subst; reflexivity | destruct R].
  - destruct (negb (Query_eqb query new_query)); [| destruct I].
    destruct I as [E | []]. subst ev. destruct R.
Qed.

Lemma NoDup_map_filter {A B} (h : A -> B) (c : A -> bool) (l : list A) :
  NoDup (map h l) -> NoDup (map h (filter c l)).
Proof.
  induction l as [| x rest IH]; intros N; simpl.
  - constructor.
  - apply NoDup_cons_iff in N. destruct N as [NI N].
    destruct (c x); [| apply IH; exact N].
    simpl. constructor; [| apply IH; exact N].
    intros I. apply NI. apply in_map_iff in I. destruct I as [y [E I]].
    apply filter_In in I. destruct I as [I _].
    apply in_map_iff. exists y. split; assumption.
Qed.

Lemma count_key_occ {A} (h : A -> positive) (k : positive) (l : list A) :
  List.length (filter (fun x => Pos.eqb (h x) k) l) =
  count_occ Pos.eq_dec (map h l) k.
Proof.
  induction l as [| x rest IH]; simpl; [reflexivity |].
  destruct (Pos.eqb_spec (h x) k) as [E | NE];
    destruct (Pos.eq_dec (h x) k) as [E' | NE']; try contradiction;
    simpl; rewrite IH; reflexivity.
Qed.

Lemma editors_picks_NoDup st q :
  NoDup (map pk (promotions st)) -> NoDup (map pk (editors_picks st q)).
Proof.
  intros N.
  apply (Permutation_NoDup
           (Permutation_sym (Permutation_map pk (editors_picks_perm st q)))).
  apply NoDup_map_filter. exact N.
Qed.

(** C5 (amended).  In the statements that a successful save or a successful
    delete request executes, every statement that removes a promotion row
    comes after the [wagtail.delete] audit-log entries that carry the row's
    key: they are written while the row is still stored, and there is at
    least one.  The save writes one such entry for each form marked for
    deletion that names the row, hence exactly one when the forms marked for
    deletion name distinct rows; the delete view writes exactly one per
    removed row (keys are unique in the table).  Every stored row that is
    gone afterwards was removed by such a statement. *)
Theorem deletions_are_logged_before_removal :
  (forall query new_query fs w,
      faults w = [] ->
      formset_is_valid fs = true ->
      extra_keyless fs ->
      exists fs' w' events logs,
        save_searchpicks query new_query fs w = (Ok (true, fs'), w') /\
        journal w' = journal w ++ events /\
        log_entries (db w') = log_entries (db w) ++ logs /\
        (forall r, In r (promotions (db w)) ->
                   ~ In (pk r) (map pk (promotions (db w'))) ->
                   In (EvDelete (pk r)) events) /\
        (forall k ev, In ev events -> removes ev k ->
                      logged_before_removal events k /\
                      count_logs k "wagtail.delete" logs =
                      count_occ Pos.eq_dec (deleted_keys fs) k /\
                      1 <= count_logs k "wagtail.delete" logs /\
                      (NoDup (deleted_keys fs) ->
                       count_logs k "wagtail.delete" logs = 1))) /\
  (forall request query_id query w,
      faults w = [] ->
      find (fun q => Pos.eqb (qid q) query_id) (queries (db w)) = Some query ->
      method request = "POST" ->
      NoDup (map pk (promotions (db w))) ->
      exists w' events logs,
        delete request query_id w =
        (Ok (redirect "wagtailsearchpromotions:index"), w') /\
        journal w' = journal w ++ events /\
        log_entries (db w') = log_entries (db w) ++ logs /\
        (forall r, In r (promotions (db w)) ->
                   ~ In (pk r) (map pk (promotions (db w'))) ->
                   exists ev, In ev events /\ removes ev (pk r)) /\
        (forall k ev, In ev events -> removes ev k ->
                      logged_before_removal events k /\
                      count_logs k "wagtail.delete" logs = 1)).
Proof.
  split.
  - intros query new_query fs w HF V K.
    destruct w as [st ms j t fl]. simpl in HF. subst fl.
    destruct (save_searchpicks_run query new_query fs st ms j t V) as [t' S].
    eexists. eexists. exists (sp_events query new_query fs st).
    exists (sp_new_logs query new_query fs st).
    split; [exact S |]. split; [reflexivity |]. split; [reflexivity |].
    cbn [db]. split.
    + intros r I G. unfold sp_events. apply in_or_app. right.
      apply in_or_app. left. apply (in_delete_action_events fs (pk r) V).
      destruct (in_dec Pos.eq_dec (pk r) (deleted_keys fs)) as [D | ND];
        [exact D |].
      exfalso. apply G. unfold sp_store. cbn [promotions].
      rewrite sp_promotions_keys, map_app. apply in_or_app. left.
      destruct (apply_actions_keeps (qid (instance fs)) (sp_actions fs)
                                    (promotions st) r I)
        as [r' [I' [P' _]]].
      * intros obj Io E. apply ND. rewrite <- E.
        apply (in_sp_actions_delete fs obj V Io).
      * intros obj cd Io.
        pose proof (sp_actions_query fs) as Q. rewrite Forall_forall in Q.
        exact (Q _ Io).
      * rewrite <- P'. apply in_map. exact I'.
    + intros k ev I R.
      pose proof (sp_removal_is_delete k ev query new_query fs st V I R) as D.
      pose proof (items_for_deletion_keys fs V K) as IK.
      assert (C : count_logs k "wagtail.delete"
                             (sp_new_logs query new_query fs st) =
                  count_occ Pos.eq_dec (deleted_keys fs) k).
      { unfold sp_new_logs. rewrite !count_logs_app.
        rewrite (count_logs_map (fun x => x) k "wagtail.delete" "wagtail.create").
        rewrite (count_logs_map fst k "wagtail.delete" "wagtail.edit").
        rewrite (count_logs_map (fun x => x) k "wagtail.delete" "wagtail.delete").
        cbn [String.eqb Ascii.eqb Bool.eqb andb]. rewrite !Nat.add_0_r.
        rewrite (count_key_occ pk), IK. reflexivity. }
      split; [| split; [exact C | split]].
      * unfold sp_events. rewrite log_events_of_keys, IK.
        apply delete_logs_then_rest; [exact D |].
        apply sp_rest_has_no_delete_log.
      * rewrite C. apply (count_occ_In Pos.eq_dec). exact D.
      * intros N. rewrite C.
        apply (proj1 (NoDup_count_occ' Pos.eq_dec (deleted_keys fs)) N k D).
  - intros request qk query w HF F HM N.
    destruct w as [st ms j t fl]. simpl in HF. subst fl. cbn [db] in F, N.
    destruct (delete_run request qk query st ms j t F HM) as [t' D].
    eexists. exists (delete_events query st).
    exists (map (log_entry_of "wagtail.delete") (editors_picks st query)).
    split; [exact D |]. split; [reflexivity |]. split; [reflexivity |].
    cbn [db]. split.
    + intros r I G.
      eexists.
      split; [unfold delete_events; apply in_or_app; right; left; reflexivity |].
      simpl. apply in_map. apply filter_In.
      split; [exact I |].
      destruct (Pos.eqb_spec (query_id r) (qid query)) as [E | NE];
        [reflexivity |].
      exfalso. apply G. unfold delete_final_store. cbn [promotions].
      apply in_map. apply filter_In. split; [exact I |].
      apply negb_true_iff, Pos.eqb_neq. exact NE.
    + intros k ev I R.
      assert (Ik : In k (map pk (editors_picks st query))).
      { unfold delete_events in I. apply in_app_iff in I.
        destruct I as [I | [E | []]].
        - apply in_map_iff in I. destruct I as [x [E _]]. subst ev.
          destruct R.
        - subst ev. simpl in R. apply in_map_iff in R.
          destruct R as [p [E Ip]]. apply filter_In in Ip.
          destruct Ip as [Ip Q]. apply Pos.eqb_eq in Q.
          apply in_map_iff. exists p. split; [exact E |].
          apply in_editors_picks. split; assumption. }
      pose proof (editors_picks_NoDup st query N) as Nk.
      split.
      * unfold delete_events. rewrite log_events_of_keys.
        apply delete_logs_then_rest; [exact Ik |].
        intros [E | []]. discriminate.
      * apply count_logs_rows; assumption.
Qed.

(** ** Reassignment when the query changes *)

(** The submission marks the row with key [k] for deletion. *)
Definition marked_for_deletion (post : PostData) (k : positive) : Prop :=
  exists d, In d (post_initial_forms post) /\
            fd_pk d = Some k /\ fd_DELETE d = true.

Definition is_bulk_update (ev : Event) : bool :=
  match ev with
  | EvBulkUpdate _ _ => true
  | _ => false
  end.

Lemma fresh_qid_above (qs : list Query) q :
  In q qs -> (qid q < fresh_qid qs)%positive.
Proof.
  induction qs as [| x rest IH]; intros I; simpl.
  - destruct I.
  - destruct I as [E | I].
    + subst x. lia.
    + specialize (IH I). lia.
Qed.

Lemma bound_deleted_keys_marked post inst st k :
  In k (deleted_keys (bound_formset post inst st)) ->
  marked_for_deletion post k.
Proof.
  intros I. apply in_deleted_keys in I. destruct I as [f [I [P D]]].
  rewrite bound_initial_forms in I. apply in_map_iff in I.
  destruct I as [d [E I]]. subst f. exists d. split; [exact I |].
  split; [| exact D].
  apply (bound_form_key (editors_picks st inst) d k P).
Qed.

Lemma filter_none {A} (c : A -> bool) (l : list A) :
  (forall x, In x l -> c x = false) -> filter c l = [].
Proof.
  induction l as [| x rest IH]; intros H; simpl.
  - reflexivity.
  - rewrite (H x (or_introl eq_refl)). apply IH.
    intros y I. apply H. right. exact I.
Qed.

Lemma bulk_updates_of_sp_events query new_query fs st :
  filter is_bulk_update (sp_events query new_query fs st) =
  if negb (Query_eqb query new_query)
  then [EvBulkUpdate (qid (instance fs)) (qid new_query)] else [].
Proof.
  unfold sp_events. rewrite !filter_app.
  rewrite (filter_none _ (map (log_event_of "wagtail.delete") _))
    by (intros x I; apply in_map_iff in I; destruct I as [y [E _]];
        subst x; reflexivity).
  rewrite (filter_none _ (map action_event _))
    by (intros x I; apply in_map_iff in I; destruct I as [[y | y c] [E _]];
        subst x; reflexivity).
  rewrite (filter_none _ (map (fun r => EvInsert (pk r)) _))
    by (intros x I; apply in_map_iff in I; destruct I as [y [E _]];
        subst x; reflexivity).
  rewrite (filter_none _ (map (log_event_of "wagtail.create") _))
    by (intros x I; apply in_map_iff in I; destruct I as [y [E _]];
        subst x; reflexivity).
  rewrite (filter_none _ (map (fun x => log_event_of "wagtail.edit" (fst x)) _))
    by (intros x I; apply in_map_iff in I; destruct I as [y [E _]];
        subst x; reflexivity).
  cbn [app]. rewrite app_nil_r.
  destruct (negb (Query_eqb query new_query)); reflexivity.
Qed.

Lemma bulk_moved_leaves_none old_q new_q ps r :
  new_q <> old_q ->
  In r (bulk_moved old_q new_q ps) -> query_id r <> old_q.
Proof.
  intros NE I. unfold bulk_moved in I. apply in_map_iff in I.
  destruct I as [p [E _]].
  destruct (Pos.eqb_spec (query_id p) old_q) as [Q | Q]; subst r; simpl;
    assumption.
Qed.

Lemma bulk_moved_moves old_q new_q ps r :
  In r ps -> query_id r = old_q ->
  exists r', In r' (bulk_moved old_q new_q ps) /\
             pk r' = pk r /\ query_id r' = new_q.
Proof.
  intros I Q.
  exists (mkPick (pk r) new_q (page_id r) (description r) (sort_order r)).
  split; [| split; reflexivity].
  unfold bulk_moved. apply in_map_iff. exists r. split; [| exact I].
  rewrite Q, Pos.eqb_refl. reflexivity.
Qed.

(** C2 (amended).  When the query string of an edit submission that no
    statement fails on resolves to a Query entity other than the one being
    edited, the edit succeeds and every promotion row
    that was attached to the old Query and that the submission does not mark
    for deletion is attached to the new Query afterwards, under its old key
    and without having been deleted; no row stays attached to the old Query;
    and the reassignment is one bulk update of the foreign key. *)
Theorem changed_query_moves_surviving_picks
        (norm : string -> string) (request : Request) (query_pk : positive)
        (query : Query) (w : World) :
  faults w = [] ->
  find (fun q => Pos.eqb (qid q) query_pk) (queries (db w)) = Some query ->
  method request = "POST" ->
  post_query_form_valid (POST request) = true ->
  post_formset_valid (POST request) = true ->
  (forall q, In q (queries (db w)) ->
             query_string q = norm (post_query_string (POST request)) ->
             qid q <> qid query) ->
  exists w' new_query events,
    edit norm request query_pk w =
    (Ok (redirect "wagtailsearchpromotions:index"), w') /\
    In new_query (queries (db w')) /\
    query_string new_query = norm (post_query_string (POST request)) /\
    qid new_query <> qid query /\
    journal w' = journal w ++ events /\
    (forall r, In r (promotions (db w)) ->
               query_id r = qid query ->
               ~ marked_for_deletion (POST request) (pk r) ->
               (exists r', In r' (promotions (db w')) /\
                           pk r' = pk r /\ query_id r' = qid new_query) /\
               ~ In (EvDelete (pk r)) events) /\
    (forall r', In r' (promotions (db w')) -> query_id r' <> qid query) /\
    filter is_bulk_update events =
    [EvBulkUpdate (qid query) (qid new_query)].
Proof.
  intros HF F HM HQ HV HD.
  destruct w as [st ms j t fl]. simpl in HF. subst fl. cbn [db] in F, HD.
  destruct (edit_run norm request query_pk query st ms j t F HM HQ HV)
    as [t' E].
  set (ns := norm (post_query_string (POST request))) in *.
  set (nq := query_of ns st).
  set (st1 := store_with_query ns st).
  set (fs := bound_formset (POST request) query st).
  destruct (query_of_spec ns st) as [Iq Sq]. fold nq in Iq, Sq. fold st1 in Iq.
  destruct (store_with_query_frame ns st) as [SP _]. fold st1 in SP.
  assert (Iquery : In query (queries st))
    by (apply find_some in F; destruct F as [I _]; exact I).
  assert (NQ : qid nq <> qid query).
  { unfold nq, query_of.
    destruct (find (fun q => String.eqb (query_string q) ns) (queries st))
      as [q |] eqn:G.
    - apply find_some in G. destruct G as [I S]. apply String.eqb_eq in S.
      apply HD; assumption.
    - simpl. pose proof (fresh_qid_above (queries st) query Iquery). lia. }
  assert (QB : negb (Query_eqb query nq) = true).
  { unfold Query_eqb. apply negb_true_iff, Pos.eqb_neq.
    intros C. apply NQ. symmetry. exact C. }
  assert (FP : promotions (edit_final_store norm (POST request) query st) =
               bulk_moved (qid query) (qid nq)
                          (fold_left apply_action (sp_actions fs)
                                     (promotions st)
                           ++ sp_rows fs st1)).
  { unfold edit_final_store. fold ns. fold nq. fold st1. fold fs.
    unfold sp_store, sp_promotions. cbn [promotions]. rewrite QB, SP.
    reflexivity. }
  eexists. exists nq. exists (edit_events norm (POST request) query st).
  split; [exact E |]. cbn [db journal].
  split; [unfold edit_final_store, sp_store; cbn [queries]; exact Iq |].
  split; [exact Sq |]. split; [exact NQ |]. split; [reflexivity |].
  split; [| split].
  - intros r I Q NM.
    assert (ND : ~ In (pk r) (deleted_keys fs)).
    { intros D. apply NM.
      apply (bound_deleted_keys_marked (POST request) query st). exact D. }
    split.
    + destruct (apply_actions_keeps (qid (instance fs)) (sp_actions fs)
                                    (promotions st) r I)
        as [r1 [I1 [P1 Q1]]].
      * intros obj Io C. apply ND. rewrite <- C.
        apply (in_sp_actions_delete fs obj HV Io).
      * intros obj cd Io.
        pose proof (sp_actions_query fs) as A. rewrite Forall_forall in A.
        exact (A _ Io).
      * assert (Q1' : query_id r1 = qid query)
          by (destruct Q1 as [Q1 | Q1]; [congruence | exact Q1]).
        destruct (bulk_moved_moves
                    (qid query) (qid nq)
                    (fold_left apply_action (sp_actions fs) (promotions st)
                     ++ sp_rows fs st1)
                    r1 (in_or_app _ _ _ (or_introl I1)) Q1')
          as [r' [I' [P' Q']]].
        exists r'. rewrite FP. split; [exact I' |].
        split; [congruence | exact Q'].
    + intros D. apply ND. unfold edit_events in D. fold ns in D.
      fold nq in D. fold st1 in D. fold fs in D.
      apply in_app_iff in D. destruct D as [D | D].
      * unfold query_events in D. destruct (find _ (queries st)) in D;
          [destruct D |]. destruct D as [C | []]. discriminate.
      * apply (sp_removal_is_delete (pk r) (EvDelete (pk r)) query nq fs st1
                                    HV D).
        reflexivity.
  - intros r' I. rewrite FP in I.
    apply (bulk_moved_leaves_none (qid query) (qid nq) _ r' NQ I).
  - unfold edit_events. fold ns. fold nq. fold st1. fold fs.
    rewrite filter_app, bulk_updates_of_sp_events, QB.
    rewrite filter_none; [reflexivity |].
    intros x I. unfold query_events in I.
    destruct (find _ (queries st)) in I; [destruct I |].
    destruct I as [C | []]. subst x. reflexivity.
Qed.

(** ** Worked examples

    A store with two queries, two picks for the first one and a week of hits;
    concrete stand-ins for the helpers that the views take as parameters. *)

Definition example_store : Store :=
  mkStore [mkQuery 1 "cats"; mkQuery 2 "dogs"]
          [mkPick 1 1 10 "a" (Some 0); mkPick 2 1 11 "b" (Some 1)]
          [mkHits 1 0 5; mkHits 1 1 2]
          [] 3.

Definition example_world : World := mkWorld example_store [] [] 0 [].

(** [int] on a plain decimal literal. *)
Fixpoint digits_value (s : string) (acc : Z) : option Z :=
  match s with
  | EmptyString => Some acc
  | String c rest =>
      let n := nat_of_ascii c in
      if (48 <=? n) && (n <=? 57)
      then digits_value rest (10 * acc + Z.of_nat (n - 48))%Z
      else None
  end.

Definition example_int (s : string) : option Z :=
  match s with
  | EmptyString => None
  | _ => digits_value s 0%Z
  end.

(** A submission that keeps pick 1 unchanged, deletes pick 2, adds a pick,
    and renames the query. *)
Definition example_post : PostData :=
  mkPost "Birds" true (Ok true)
         [mkFormData (Some 1%positive) 10 "a" (Some 2%Z) false [] [];
          mkFormData (Some 2%positive) 11 "b" (Some 1%Z) true ["DELETE"] []]
         [mkFormData None 12 "c" (Some 3%Z) false ["page"] []]
         [].

Definition example_request : Request :=
  mkRequest "POST" [] example_post [] [].



(** A submission whose query form and formset are both invalid. *)
Definition invalid_post : PostData :=
  mkPost "" false (Ok false) [] []
         ["Please specify at least one recommendation for this search term."].

Definition invalid_request : Request :=
  mkRequest "POST" [] invalid_post [] [].

(** A submission with a valid query form and an invalid formset. *)
Definition no_picks_post : PostData :=
  mkPost "birds" true (Ok false) [] []
         ["Please specify at least one recommendation for this search term."].

Definition no_picks_request : Request :=
  mkRequest "POST" [] no_picks_post [] [].

(** A submission with a valid query form and a formset that is invalid
    because the ORDER of its first form is not a number. *)
Definition field_error_post : PostData :=
  mkPost "cats" true (Ok false)
         [mkFormData (Some 1%positive) 10 "a" None false ["ORDER"]
                     [("ORDER", "Enter a whole number.")];
          mkFormData (Some 2%positive) 11 "b" (Some 2%Z) false [] []]
         [] [].

Definition field_error_request : Request :=
  mkRequest "POST" [] field_error_post [] [].

Definition example_formset : Formset :=
  bound_formset example_post (mkQuery 1 "cats") example_store.

Definition chooser_request : Request :=
  mkRequest "GET" [("q", "CAT"); ("p", "1")] example_post [] [].

Definition far_page_request : Request :=
  mkRequest "GET" [("p", "7")] example_post [] [].

Example example_edit_run :
  db (snd (edit lower example_request 1 example_world)) =
  mkStore [mkQuery 1 "cats"; mkQuery 2 "dogs"; mkQuery 3 "birds"]
          [mkPick 1 3 10 "a" (Some 0); mkPick 3 3 12 "c" (Some 1)]
          [mkHits 1 0 5; mkHits 1 1 2]
          [mkLog 2 "wagtail.delete"; mkLog 3 "wagtail.create";
           mkLog 1 "wagtail.edit"]
          4.
Proof. reflexivity. Qed.

Example example_edit_journal :
  journal (snd (edit lower example_request 1 example_world)) =
  [EvInsertQuery 3; EvLog 2 "wagtail.delete"; EvUpdate 1; EvDelete 2;
   EvInsert 3; EvLog 3 "wagtail.create"; EvBulkUpdate 1 3;
   EvLog 1 "wagtail.edit"].
Proof. reflexivity. Qed.

Example example_index :
  map (fun r => (qid (row_query r), views r,
                 List.length (row_editors_picks r)))
      (get_base_queryset example_store) = [(1%positive, 7%Z, 2)].
Proof. reflexivity. Qed.

(** *** The theorems at the examples *)

Lemma index_lists_only_promoted_queries_witness :
  (exists r, In r (get_base_queryset example_store) /\
             row_editors_picks r <> [] /\
             qid (row_query r) = 1%positive) /\
  ~ In (mkQuery 2 "dogs") (map row_query (get_base_queryset example_store)) /\
  In (mkQuery 2 "dogs") (queries example_store).
Proof.
  destruct (index_lists_only_promoted_queries example_store) as [A B].
  split.
  - eexists. split; [left; reflexivity |].
    split; [| reflexivity].
    apply (A _ (or_introl eq_refl)).
  - apply B.
    + right. left. reflexivity.
    + intros p [E | [E | []]]; subst p; discriminate.
Defined.

Lemma changed_query_moves_surviving_picks_witness :
  exists w' new_query,
    edit lower example_request 1 example_world =
    (Ok (redirect "wagtailsearchpromotions:index"), w') /\
    qid new_query <> 1%positive /\
    exists r', In r' (promotions (db w')) /\
               pk r' = 1%positive /\ query_id r' = qid new_query.
Proof.
  destruct (changed_query_moves_surviving_picks
              lower example_request 1 (mkQuery 1 "cats") example_world)
    as [w' [nq [events [E [_ [_ [NQ [_ [M _]]]]]]]]].
  - reflexivity.
  - reflexivity.
  - reflexivity.
  - reflexivity.
  - reflexivity.
  - intros q [I | [I | []]] S; subst q; discriminate.
  - exists w', nq. split; [exact E |]. split; [exact NQ |].
    destruct (M (mkPick 1 1 10 "a" (Some 0))) as [R _].
    + left. reflexivity.
    + reflexivity.
    + intros [d [[I | [I | []]] [P D]]]; subst d; discriminate.
    + exact R.
Defined.

(** C2, as stated, fails: pick 2 was attached to the old Query, the
    submission marks it for deletion, and after the successful edit it is not
    attached to the new Query (it is gone). *)
Lemma deleted_pick_is_not_reassigned :
  In (mkPick 2 1 11 "b" (Some 1)) (promotions (db example_world)) /\
  fst (edit lower example_request 1 example_world) =
  Ok (redirect "wagtailsearchpromotions:index") /\
  map (fun r => (pk r, query_id r))
      (promotions (db (snd (edit lower example_request 1 example_world)))) =
  [(1%positive, 3%positive); (3%positive, 3%positive)].
Proof.
  split; [right; left; reflexivity |]. split; reflexivity.
Defined.



(** The sixth statement of the edit fails: the transaction is rolled back. *)
Definition faulty_world : World := mkWorld example_store [] [] 0 [5].

Lemma writes_are_all_or_nothing_witness :
  fst (edit lower example_request 1 faulty_world) = Raise DatabaseError /\
  tick (snd (edit lower example_request 1 faulty_world)) = 6 /\
  promotions (db (snd (edit lower example_request 1 faulty_world))) =
  promotions example_store /\
  log_entries (db (snd (edit lower example_request 1 faulty_world))) =
  log_entries example_store.
Proof.
  split; [reflexivity |]. split; [reflexivity |].
  destruct writes_are_all_or_nothing as [_ [_ E]].
  apply (E lower example_request 1%positive faulty_world DatabaseError).
  reflexivity.
Defined.

Lemma deletions_are_logged_before_removal_witness :
  exists fs' w' events logs,
    save_searchpicks (mkQuery 1 "cats") (mkQuery 3 "birds") example_formset
                     example_world = (Ok (true, fs'), w') /\
    journal w' = events /\
    log_entries (db w') = logs /\
    In (EvDelete 2) events /\
    logged_before_removal events 2 /\
    count_logs 2 "wagtail.delete" logs = 1.
Proof.
  destruct deletions_are_logged_before_removal as [A _].
  destruct (A (mkQuery 1 "cats") (mkQuery 3 "birds") example_formset
              example_world)
    as [fs' [w' [events [logs [S [J [L [_ H]]]]]]]].
  - reflexivity.
  - reflexivity.
  - repeat constructor.
  - change (journal w' = events) in J. change (log_entries (db w') = logs) in L.
    exists fs', w', events, logs.
    split; [exact S |]. split; [exact J |]. split; [exact L |].
    assert (W : w' = snd (save_searchpicks (mkQuery 1 "cats")
                                           (mkQuery 3 "birds")
                                           example_formset example_world))
      by (rewrite S; reflexivity).
    assert (I : In (EvDelete 2) events).
    { rewrite <- J, W. vm_compute. right. right. left. reflexivity. }
    split; [exact I |].
    destruct (H 2%positive (EvDelete 2) I eq_refl) as [B [_ [_ O]]].
    split; [exact B |]. apply O. repeat constructor. intros [].
Defined.

(** A submission that keeps pick 1 and names pick 2 in two forms, both
    marked for deletion. *)
Definition twice_deleted_post : PostData :=
  mkPost "cats" true (Ok true)
         [mkFormData (Some 1%positive) 10 "a" (Some 1%Z) false [] [];
          mkFormData (Some 2%positive) 11 "b" (Some 2%Z) true ["DELETE"] [];
          mkFormData (Some 2%positive) 11 "b" (Some 3%Z) true ["DELETE"] []]
         [] [].

Definition twice_deleted_request : Request :=
  mkRequest "POST" [] twice_deleted_post [] [].

(** C5, as stated, fails: this edit removes pick 2, and the audit log then
    holds two [wagtail.delete] entries for it, one for each of the two forms
    that mark it for deletion. *)
Lemma twice_named_pick_is_logged_twice :
  fst (edit lower twice_deleted_request 1 example_world) =
  Ok (redirect "wagtailsearchpromotions:index") /\
  map pk (promotions (db example_world)) = [1%positive; 2%positive] /\
  map pk (promotions
            (db (snd (edit lower twice_deleted_request 1 example_world)))) =
  [1%positive] /\
  log_entries (db (snd (edit lower twice_deleted_request 1 example_world))) =
  [mkLog 2 "wagtail.delete"; mkLog 2 "wagtail.delete"] /\
  count_logs 2 "wagtail.delete"
             (log_entries
                (db (snd (edit lower twice_deleted_request 1 example_world))))
  = 2.
Proof.
  repeat split; reflexivity.
Defined.

Lemma add_logs_created_picks_twice_witness :
  exists w' inner outer,
    add lower example_request example_world =
    (Ok (redirect "wagtailsearchpromotions:index"), w') /\
    log_entries (db w') = inner ++ outer /\
    In (EvInsert 3) (journal w') /\
    count_logs 3 "wagtail.create" inner = 1 /\
    count_logs 3 "wagtail.create" outer = 1 /\
    count_logs 3 "wagtail.create" (log_entries (db w')) = 2.
Proof.
  destruct (add_logs_created_picks_twice lower example_request example_world
                                         eq_refl eq_refl eq_refl eq_refl)
    as [w' [q [fs [w1 [w2 [fs' [inner [outer [events
          [A [_ [_ [_ [_ [L [J H]]]]]]]]]]]]]]]].
  change (log_entries (db w') = inner ++ outer) in L.
  exists w', inner, outer. split; [exact A |]. split; [exact L |].
  assert (W : w' = snd (add lower example_request example_world))
    by (rewrite A; reflexivity).
  assert (I : In (EvInsert 3) (journal w')).
  { rewrite W. vm_compute. right. left. reflexivity. }
  split; [exact I |].
  change (journal w' = events) in J.
  rewrite J in I. destruct (H 3%positive I) as [_ [C1 [C2 C3]]].
  split; [exact C1 |]. split; [exact C2 |]. rewrite L. exact C3.
Defined.

Lemma chooser_invalid_page_not_found_witness :
  chooser lower queries Some example_int far_page_request false example_world
  = (Raise Http404, example_world) /\
  chooserresults lower queries Some example_int far_page_request example_world
  = (Raise Http404, example_world).
Proof.
  apply chooser_invalid_page_not_found.
  right. exists 7%Z. split; [reflexivity |]. right. reflexivity.
Defined.

Lemma add_makes_query_listed_witness :
  exists w' r,
    add lower example_request example_world =
    (Ok (redirect "wagtailsearchpromotions:index"), w') /\
    In r (get_base_queryset (db w')) /\
    query_string (row_query r) = "birds" /\
    1 <= List.length (row_editors_picks r).
Proof.
  apply (add_makes_query_listed lower example_request example_world
                                eq_refl eq_refl eq_refl eq_refl).
  eexists. split; [left; reflexivity |]. split; [discriminate | reflexivity].
Defined.

Lemma invalid_formset_is_reported_witness :
  (messages (snd (add lower no_picks_request example_world)) =
   [mkMessage LvlError
      "Please specify at least one recommendation for this search term."] /\
   promotions (db (snd (add lower no_picks_request example_world))) =
   promotions example_store) /\
  exists w' fs,
    edit lower field_error_request 1 example_world =
    (Ok (TemplateResponse
           "wagtailsearchpromotions/edit.html"
           (edit_context field_error_request (mkQuery 1 "cats")
                         (QueryFormBound (mkQueryForm "cats" true))
                         (FormsetBound fs))),
     w') /\
    map form_errors (forms fs) = [[("ORDER", "Enter a whole number.")]; []] /\
    messages w' =
    [mkMessage LvlError "Recommendations have not been saved due to errors"] /\
    promotions (db w') = promotions example_store /\
    log_entries (db w') = [].
Proof.
  split.
  - destruct (invalid_formset_is_reported lower no_picks_request example_world
                                          eq_refl eq_refl eq_refl eq_refl)
      as [_ [[w' [q [fs [A [_ [_ [_ [_ [MS [P _]]]]]]]]]] _]].
    rewrite A. split; [exact MS | exact P].
  - destruct (invalid_formset_is_reported lower field_error_request
                                          example_world
                                          eq_refl eq_refl eq_refl eq_refl)
      as [_ [_ E]].
    destruct (E 1%positive (mkQuery 1 "cats") eq_refl)
      as [w' [fs [A [_ [_ [FE [MS [P L]]]]]]]].
    exists w', fs. split; [exact A |]. split; [exact FE |].
    split; [exact MS |]. split; [exact P | exact L].
Defined.

(** C9, as stated, fails: the formset of this submission is invalid and has
    a non-form error, but its query form is invalid too, and neither handler
    adds a flash message. *)
Lemma invalid_query_form_gets_no_flash_message :
  method invalid_request = "POST" /\
  post_formset_validation (POST invalid_request) = Ok false /\
  post_non_form_errors (POST invalid_request) <> [] /\
  messages (snd (add lower invalid_request example_world)) = [] /\
  messages (snd (edit lower invalid_request 1 example_world)) = [].
Proof.
  repeat split; try reflexivity. discriminate.
Defined.

Lemma chooser_shows_filtered_popular_queries_witness :
  exists resp pg,
    chooser lower queries Some example_int chooser_request false example_world
    = (Ok resp, example_world) /\
    response_queries resp = Some pg /\
    object_list pg = [mkQuery 1 "cats"].
Proof.
  destruct (chooser_shows_filtered_popular_queries
              lower queries Some example_int chooser_request false
              example_world 1%Z eq_refl)
    as [resp [pg [C [R [_ [_ [F _]]]]]]].
  - split; discriminate.
  - exists resp, pg. split; [exact C |]. split; [exact R |].
    destruct (F "CAT" "CAT" eq_refl eq_refl) as [O _]. exact O.
Defined.

(** ** Further properties of the handlers

    Behaviour of the parts of the handlers that the theorems above do not
    reach: the branches that only render, the lookup of the edited Query, the
    effect of a delete, the numbering of the saved picks, and what the
    handlers leave alone. *)

(** X1.  [edit] and [delete] look the Query up first: when no Query has the
    requested id they raise [Http404] and change nothing, whatever the
    method, the submitted data and the fault plan. *)
Theorem unknown_query_is_not_found
        (norm : string -> string) (request : Request) (query_pk : positive)
        (w : World) :
  find (fun q => Pos.eqb (qid q) query_pk) (queries (db w)) = None ->
  edit norm request query_pk w = (Raise Http404, w) /\
  delete request query_pk w = (Raise Http404, w).
Proof.
  intros F. unfold edit, delete, bind at 1, get_object_or_404. rewrite F.
  split; [reflexivity |]. unfold bind, get_object_or_404. rewrite F.
  reflexivity.
Qed.

Lemma unknown_query_is_not_found_witness :
  edit lower example_request 9 example_world = (Raise Http404, example_world) /\
  delete example_request 9 example_world = (Raise Http404, example_world).
Proof.
  apply (unknown_query_is_not_found lower example_request 9 example_world).
  reflexivity.
Defined.

Lemma method_is_not_post request :
  method request <> "POST" -> String.eqb (method request) "POST" = false.
Proof. intros H. apply String.eqb_neq. exact H. Qed.

(** X2.  Only a POST writes.  With any other method [add] renders the add
    page with an unbound query form and an unbound formset, [edit] renders
    the edit page with the query form preset to the Query's string and the
    formset of the Query, and [delete] renders the confirmation page for the
    Query; each leaves the store, the flash messages and the journal as they
    were, under every fault plan. *)
Theorem only_post_writes
        (norm : string -> string) (request : Request) (w : World) :
  method request <> "POST" ->
  add norm request w =
  (Ok (TemplateResponse "wagtailsearchpromotions/add.html"
         (add_context (QueryFormUnbound None) (FormsetUnbound None))), w) /\
  forall query_pk query,
    find (fun q => Pos.eqb (qid q) query_pk) (queries (db w)) = Some query ->
    edit norm request query_pk w =
    (Ok (TemplateResponse "wagtailsearchpromotions/edit.html"
           (edit_context request query
                         (QueryFormUnbound (Some (query_string query)))
                         (FormsetUnbound (Some query)))), w) /\
    delete request query_pk w =
    (Ok (TemplateResponse "wagtailsearchpromotions/confirm_delete.html"
           (mkContext None None (Some query) None None None)), w).
Proof.
  intros HM. apply method_is_not_post in HM.
  split; [| intros query_pk query F; split].
  - unfold add. rewrite HM. reflexivity.
  - unfold edit.
    rewrite (bind_run _ _ _ _ _ (get_object_or_404_run _ _ _ F)), HM.
    reflexivity.
  - unfold delete.
    rewrite (bind_run _ _ _ _ _ (get_object_or_404_run _ _ _ F)), HM.
    reflexivity.
Qed.

Definition get_request : Request :=
  mkRequest "GET" [] example_post [] [].

Lemma only_post_writes_witness :
  snd (add lower get_request faulty_world) = faulty_world /\
  snd (edit lower get_request 1 faulty_world) = faulty_world /\
  snd (delete get_request 1 faulty_world) = faulty_world.
Proof.
  destruct (only_post_writes lower get_request faulty_world) as [A ED].
  - discriminate.
  - destruct (ED 1%positive (mkQuery 1 "cats") eq_refl) as [E D].
    rewrite A, E, D. repeat split.
Defined.

(** X3.  A POST whose query form is invalid is not saved at all: no Query is
    looked up or created, [save_searchpicks] is not called and no flash
    message is added.  [edit] re-renders with both submitted forms, whereas
    [add] re-renders with the submitted query form and a fresh unbound
    formset, so the picks that were submitted are not shown again. *)
Theorem invalid_query_form_is_not_saved
        (norm : string -> string) (request : Request) (w : World) :
  method request = "POST" ->
  post_query_form_valid (POST request) = false ->
  add norm request w =
  (Ok (TemplateResponse "wagtailsearchpromotions/add.html"
         (add_context (QueryFormBound (QueryForm_bound (POST request)))
                      (FormsetUnbound None))), w) /\
  forall query_pk query,
    find (fun q => Pos.eqb (qid q) query_pk) (queries (db w)) = Some query ->
    edit norm request query_pk w =
    (Ok (TemplateResponse "wagtailsearchpromotions/edit.html"
           (edit_context request query
                         (QueryFormBound (QueryForm_bound (POST request)))
                         (FormsetBound
                            (bound_formset (POST request) query (db w))))), w).
Proof.
  intros HM HQ. split; [| intros query_pk query F].
  - unfold add. rewrite HM, String.eqb_refl.
    unfold QueryForm_bound at 1. cbn [query_form_is_valid]. rewrite HQ.
    reflexivity.
  - unfold edit.
    rewrite (bind_run _ _ _ _ _ (get_object_or_404_run _ _ _ F)).
    rewrite HM, String.eqb_refl.
    rewrite (bind_run _ _ _ _ _ (SearchPromotionsFormSet_run _ _ _)).
    unfold QueryForm_bound at 1. cbn [query_form_is_valid]. rewrite HQ.
    reflexivity.
Qed.

Lemma invalid_query_form_is_not_saved_witness :
  snd (add lower invalid_request faulty_world) = faulty_world /\
  snd (edit lower invalid_request 1 faulty_world) = faulty_world.
Proof.
  destruct (invalid_query_form_is_not_saved
              lower invalid_request faulty_world eq_refl eq_refl) as [A E].
  rewrite A, (E 1%positive (mkQuery 1 "cats") eq_refl). split; reflexivity.
Defined.

Lemma num_pages_positive (l : list Query) : 1 <= num_pages (mkPaginator l 10).
Proof.
  unfold num_pages, count. cbn [paginated per_page].
  apply Nat.div_le_lower_bound; lia.
Qed.

Lemma chooser_never_writes
      (normalise_query_string : string -> string)
      (get_most_popular : Store -> list Query)
      (searchform_clean : string -> option string)
      (int_of_str : string -> option Z)
      (request : Request) (get_results : bool) (w : World) :
  snd (chooser normalise_query_string get_most_popular searchform_clean
               int_of_str request get_results w) = w.
Proof.
  unfold chooser, bind, read.
  destruct (page int_of_str _ (page_arg request)); [reflexivity |].
  destruct get_results; reflexivity.
Qed.

(** X4.  A chooser request without a page parameter is served page 1, the
    first ten entries of its list, and is never answered with not-found, not
    even when no query matches the search: the first page may be empty.  The
    chooser reads only: the store, the messages and the journal are left as
    they were. *)
Theorem chooser_defaults_to_first_page
        (normalise_query_string : string -> string)
        (get_most_popular : Store -> list Query)
        (searchform_clean : string -> option string)
        (int_of_str : string -> option Z)
        (request : Request) (get_results : bool) (w : World) :
  GET_get "p" (GET request) = None ->
  exists resp pg,
    chooser normalise_query_string get_most_popular searchform_clean int_of_str
            request get_results w = (Ok resp, w) /\
    response_queries resp = Some pg /\
    number pg = 1%Z /\
    object_list pg =
    firstn 10
      (fst (chooser_queries normalise_query_string get_most_popular
                            searchform_clean request (db w))).
Proof.
  intros P.
  destruct (chooser_page normalise_query_string get_most_popular
                         searchform_clean int_of_str request get_results w 1%Z)
    as [resp [pg [C [R [N O]]]]].
  - unfold page_arg. rewrite P. reflexivity.
  - split; [lia |].
    pose proof (num_pages_positive
                  (fst (chooser_queries normalise_query_string get_most_popular
                                        searchform_clean request (db w)))).
    lia.
  - exists resp, pg. repeat (split; [assumption |]). exact O.
Qed.

Definition no_match_request : Request :=
  mkRequest "GET" [("q", "zebra")] example_post [] [].

Lemma chooser_defaults_to_first_page_witness :
  exists resp pg,
    chooser lower queries Some example_int no_match_request true example_world
    = (Ok resp, example_world) /\
    response_queries resp = Some pg /\
    number pg = 1%Z /\
    object_list pg = [].
Proof.
  destruct (chooser_defaults_to_first_page
              lower queries Some example_int no_match_request true
              example_world eq_refl) as [resp [pg [C [R [N O]]]]].
  exists resp, pg. repeat (split; [assumption |]). exact O.
Defined.

Lemma chunks_cover {A} (k : nat) :
  forall l : list A,
    List.length l <= k * 10 ->
    concat (map (fun n => firstn 10 (skipn (n * 10) l)) (seq 0 k)) = l.
Proof.
  induction k as [| k IH]; intros l L.
  - destruct l; [reflexivity | simpl in L; lia].
  - cbn [seq map concat]. rewrite <- seq_shift, map_map.
    rewrite (map_ext _ (fun n => firstn 10 (skipn (n * 10) (skipn 10 l)))).
    + rewrite IH; [apply firstn_skipn |]. rewrite length_skipn. lia.
    + intros n. rewrite skipn_skipn. f_equal. f_equal. lia.
Qed.

Lemma num_pages_covers (l : list Query) :
  List.length l <= num_pages (mkPaginator l 10) * 10.
Proof.
  unfold num_pages, count. cbn [paginated per_page].
  pose proof (Nat.div_mod_eq (Nat.max 1 (List.length l) + 10 - 1) 10) as D.
  pose proof (Nat.mod_upper_bound (Nat.max 1 (List.length l) + 10 - 1) 10).
  lia.
Qed.

(** X5.  The chooser's pages of ten partition its list: the object lists of
    the pages 1 to [num_pages], one after the other, are exactly the
    paginated list, so no query is dropped or shown twice by the pagination,
    and every one of these page numbers is accepted; a chooser request for
    one of them is answered with that page of the request's list. *)
Theorem chooser_pages_partition_the_list
        (int_of_str : string -> option Z) (l : list Query) :
  Forall (fun n => exists pg,
              page int_of_str (mkPaginator l 10) (ArgInt (Z.of_nat n)) = inr pg /\
              object_list pg = firstn 10 (skipn ((n - 1) * 10) l))
         (seq 1 (num_pages (mkPaginator l 10))) /\
  concat (map (fun n => firstn 10 (skipn ((n - 1) * 10) l))
              (seq 1 (num_pages (mkPaginator l 10)))) = l /\
  forall normalise_query_string get_most_popular searchform_clean
         request get_results w n,
    l = fst (chooser_queries normalise_query_string get_most_popular
                             searchform_clean request (db w)) ->
    In n (seq 1 (num_pages (mkPaginator l 10))) ->
    int_of_arg int_of_str (page_arg request) = Some (Z.of_nat n) ->
    exists resp pg,
      chooser normalise_query_string get_most_popular searchform_clean
              int_of_str request get_results w = (Ok resp, w) /\
      response_queries resp = Some pg /\
      object_list pg = firstn 10 (skipn ((n - 1) * 10) l).
Proof.
  split; [| split];
    [| | intros norm popular clean request get_results w n El I P;
         apply in_seq in I;
         destruct (chooser_page norm popular clean int_of_str request
                                get_results w (Z.of_nat n) P)
           as [resp [pg [C [R [_ O]]]]];
         [rewrite <- El; lia |];
         exists resp, pg; split; [exact C |]; split; [exact R |];
         rewrite O, Nat2Z.id, <- El; reflexivity].
  - apply Forall_forall. intros n I. apply in_seq in I.
    unfold page, validate_number. cbn [int_of_arg].
    destruct (Z.ltb_spec (Z.of_nat n) 1) as [B | _]; [lia |].
    destruct (Z.ltb_spec (Z.of_nat (num_pages (mkPaginator l 10)))
                         (Z.of_nat n)) as [B | _]; [lia |].
    eexists. split; [reflexivity |].
    cbn [object_list per_page paginated]. unfold count. cbn [paginated].
    rewrite Nat2Z.id. apply slice_page.
  - rewrite <- seq_shift, map_map.
    rewrite (map_ext _ (fun n => firstn 10 (skipn (n * 10) l)))
      by (intros n; do 2 f_equal; lia).
    apply chunks_cover. apply num_pages_covers.
Qed.

(** The position of a row in the default ordering of picks: rows without a
    sort order first. *)
Definition sort_rank (p : SearchPromotion) : nat :=
  match sort_order p with
  | None => 0
  | Some x => S x
  end.

(** [a] may come before [b] in a list ordered by [sort_order], wherever the
    database puts the rows that have none. *)
Definition sort_order_le (a b : SearchPromotion) : Prop :=
  match sort_order a, sort_order b with
  | Some x, Some y => x <= y
  | _, _ => True
  end.

Lemma sort_order_ltb_spec a b :
  sort_order_ltb a b = true <-> sort_rank a < sort_rank b.
Proof.
  unfold sort_order_ltb, sort_rank.
  destruct (sort_order a) as [x |], (sort_order b) as [y |].
  - rewrite Nat.ltb_lt. lia.
  - split; [discriminate | lia].
  - split; [lia | reflexivity].
  - split; [discriminate | lia].
Qed.

Lemma sort_order_ltb_false a b :
  sort_order_ltb a b = false <-> sort_rank b <= sort_rank a.
Proof.
  pose proof (sort_order_ltb_spec a b) as H.
  destruct (sort_order_ltb a b).
  - split; [discriminate |]. intros L.
    pose proof (proj1 H eq_refl). lia.
  - split; [| reflexivity]. intros _.
    destruct (Nat.le_gt_cases (sort_rank b) (sort_rank a)) as [L | L];
      [exact L |].
    apply H in L. discriminate.
Qed.

Lemma insert_pick_sorted x l :
  StronglySorted (fun a b => sort_rank a <= sort_rank b) l ->
  StronglySorted (fun a b => sort_rank a <= sort_rank b) (insert_pick x l).
Proof.
  intros S. induction S as [| y rest S IH F]; simpl.
  - constructor; constructor.
  - destruct (sort_order_ltb x y) eqn:K.
    + apply sort_order_ltb_spec in K.
      constructor; [constructor; assumption |].
      constructor; [lia |].
      rewrite Forall_forall in F |- *. intros z I.
      specialize (F z I). cbv beta in F. lia.
    + apply sort_order_ltb_false in K.
      constructor; [exact IH |].
      rewrite Forall_forall in F |- *. intros z I.
      apply (Permutation_in _ (insert_pick_perm x rest)) in I.
      destruct I as [E | I]; [subst z; exact K | exact (F z I)].
Qed.

Lemma order_by_sort_order_sorted l :
  StronglySorted sort_order_le (order_by_sort_order l).
Proof.
  assert (R : StronglySorted (fun a b => sort_rank a <= sort_rank b)
                             (order_by_sort_order l)).
  { unfold order_by_sort_order.
    assert (G : forall acc,
               StronglySorted (fun a b => sort_rank a <= sort_rank b) acc ->
               StronglySorted (fun a b => sort_rank a <= sort_rank b)
                              (fold_left (fun acc x => insert_pick x acc)
                                         l acc)).
    { induction l as [| x rest IH]; intros acc S; simpl; [exact S |].
      apply IH. apply insert_pick_sorted. exact S. }
    apply G. constructor. }
  induction R as [| y rest S IH F]; constructor; [exact IH |].
  rewrite Forall_forall in F |- *. intros z I. specialize (F z I).
  unfold sort_order_le, sort_rank in *.
  destruct (sort_order y), (sort_order z); try exact I0; try lia; exact I.
Qed.

(** X6.  The index lists a Query once, however many promotions it has: when
    Query ids are unique, so are the ids of the listed rows.  A listed row
    carries the picks of its Query, all of them and each as often as the
    table holds it, in the order of their sort order; and its [views] is the
    plain sum of the Query's daily hits, zero when it has none: the number
    of picks has no part in it. *)
Theorem index_lists_each_query_once (st : Store) :
  (NoDup (map qid (queries st)) ->
   NoDup (map (fun r => qid (row_query r)) (get_base_queryset st))) /\
  (forall r, In r (get_base_queryset st) ->
             Permutation
               (row_editors_picks r)
               (filter (fun p => Pos.eqb (query_id p) (qid (row_query r)))
                       (promotions st)) /\
             StronglySorted sort_order_le (row_editors_picks r) /\
             views r =
             fold_right Z.add 0%Z
               (map hits
                    (filter (fun h => Pos.eqb (dh_query_id h)
                                              (qid (row_query r)))
                            (daily_hits st)))).
Proof.
  split.
  - intros N. unfold get_base_queryset. rewrite map_map. cbn [row_query].
    apply NoDup_map_filter. exact N.
  - intros r I. unfold get_base_queryset in I. apply in_map_iff in I.
    destruct I as [q [E _]]. subst r. cbn [row_query row_editors_picks views].
    split; [apply editors_picks_perm |].
    split; [apply order_by_sort_order_sorted |]. unfold Sum_daily_hits.
    destruct (filter _ (daily_hits st)); reflexivity.
Qed.

(** A store whose table order is not the order of the picks: pick 2 sorts
    before pick 1. *)
Definition reordered_store : Store :=
  mkStore [mkQuery 1 "cats"; mkQuery 2 "dogs"]
          [mkPick 1 1 10 "a" (Some 1); mkPick 2 1 11 "b" (Some 0)]
          [mkHits 1 0 5; mkHits 1 1 2]
          [] 3.

Lemma index_lists_each_query_once_witness :
  NoDup (map (fun r => qid (row_query r))
             (get_base_queryset reordered_store)) /\
  map (fun r => (qid (row_query r), views r, map pk (row_editors_picks r)))
      (get_base_queryset reordered_store) =
  [(1%positive, 7%Z, [2%positive; 1%positive])] /\
  Forall (fun r => StronglySorted sort_order_le (row_editors_picks r))
         (get_base_queryset reordered_store).
Proof.
  destruct (index_lists_each_query_once reordered_store) as [N R].
  split; [| split; [reflexivity |]].
  - apply N. repeat constructor; simpl; intuition discriminate.
  - apply Forall_forall. intros r I. apply (R r I).
Defined.

Lemma has_promotions_after_delete (k : positive) (q : Query)
      (ps : list SearchPromotion) :
  existsb (Pos.eqb (qid q))
          (map query_id (filter (fun p => negb (Pos.eqb (query_id p) k)) ps)) =
  if Pos.eqb (qid q) k then false
  else existsb (Pos.eqb (qid q)) (map query_id ps).
Proof.
  induction ps as [| p rest IH]; simpl.
  - destruct (Pos.eqb (qid q) k); reflexivity.
  - destruct (Pos.eqb_spec (query_id p) k) as [E | NE]; simpl; rewrite IH.
    + destruct (Pos.eqb_spec (qid q) k) as [E' | NE']; [reflexivity |].
      destruct (Pos.eqb_spec (qid q) (query_id p)) as [E2 | _];
        [congruence | reflexivity].
    + destruct (Pos.eqb_spec (qid q) k) as [E' | _]; [| reflexivity].
      destruct (Pos.eqb_spec (qid q) (query_id p)) as [E2 | _];
        [congruence | reflexivity].
Qed.

Lemma picks_after_delete (k j : positive) (ps : list SearchPromotion) :
  j <> k ->
  filter (fun p => Pos.eqb (query_id p) j)
         (filter (fun p => negb (Pos.eqb (query_id p) k)) ps) =
  filter (fun p => Pos.eqb (query_id p) j) ps.
Proof.
  intros NE. induction ps as [| p rest IH]; simpl.
  - reflexivity.
  - destruct (Pos.eqb_spec (query_id p) k) as [E | NE']; simpl.
    + rewrite IH. destruct (Pos.eqb_spec (query_id p) j) as [E' | _];
        [congruence | reflexivity].
    + rewrite IH. reflexivity.
Qed.

Lemma index_rows_after_delete (query : Query) (st : Store) (qs : list Query) :
  map (fun q => mkIndexRow
                  q
                  (Coalesce (Sum_daily_hits (delete_final_store query st) q) 0)
                  (editors_picks (delete_final_store query st) q))
      (filter (fun q => existsb (Pos.eqb (qid q))
                                (has_promotions (delete_final_store query st)))
              qs) =
  filter (fun r => negb (Pos.eqb (qid (row_query r)) (qid query)))
         (map (fun q => mkIndexRow q (Coalesce (Sum_daily_hits st q) 0)
                                   (editors_picks st q))
              (filter (fun q => existsb (Pos.eqb (qid q)) (has_promotions st))
                      qs)).
Proof.
  unfold has_promotions. unfold delete_final_store at 3. cbn [promotions].
  induction qs as [| q rest IH]; [reflexivity |].
  cbn [filter]. rewrite has_promotions_after_delete.
  destruct (Pos.eqb_spec (qid q) (qid query)) as [E | NE].
  - rewrite IH.
    destruct (existsb (Pos.eqb (qid q)) (map query_id (promotions st)));
      [| reflexivity].
    cbn [map filter row_query]. rewrite E, Pos.eqb_refl. reflexivity.
  - destruct (existsb (Pos.eqb (qid q)) (map query_id (promotions st)));
      [| exact IH].
    cbn [map filter row_query]. rewrite IH.
    destruct (Pos.eqb_spec (qid q) (qid query)) as [E | _];
      [contradiction |].
    cbn [negb]. f_equal. unfold Sum_daily_hits, editors_picks, delete_final_store.
    cbn [daily_hits promotions]. rewrite (picks_after_delete _ _ _ NE).
    reflexivity.
Qed.

Lemma index_after_delete (query : Query) (st : Store) :
  get_base_queryset (delete_final_store query st) =
  filter (fun r => negb (Pos.eqb (qid (row_query r)) (qid query)))
         (get_base_queryset st).
Proof. apply (index_rows_after_delete query st (queries st)). Qed.

(** X7.  A POST to [delete] on which no statement fails removes the picks of
    that Query and nothing else: afterwards the stored picks are exactly the
    earlier picks of the other Queries, the Query rows are untouched, the
    index has lost the row of that Query and kept every other row as it was,
    and one success message has been added before the redirect to the
    index. *)
Theorem delete_removes_the_picks_of_one_query
        (request : Request) (query_pk : positive) (query : Query) (w : World) :
  faults w = [] ->
  find (fun q => Pos.eqb (qid q) query_pk) (queries (db w)) = Some query ->
  method request = "POST" ->
  exists w',
    delete request query_pk w =
    (Ok (redirect "wagtailsearchpromotions:index"), w') /\
    promotions (db w') =
    filter (fun p => negb (Pos.eqb (query_id p) query_pk))
           (promotions (db w)) /\
    queries (db w') = queries (db w) /\
    get_base_queryset (db w') =
    filter (fun r => negb (Pos.eqb (qid (row_query r)) query_pk))
           (get_base_queryset (db w)) /\
    messages w' =
    messages w ++ [mkMessage LvlSuccess "Editor's picks deleted."].
Proof.
  intros HF F HM. destruct w as [st ms j t fl]. simpl in HF. subst fl.
  cbn [db] in F.
  destruct (delete_run request query_pk query st ms j t F HM) as [t' D].
  assert (Q : qid query = query_pk)
    by (apply find_some in F; destruct F as [_ E]; apply Pos.eqb_eq; exact E).
  eexists. split; [exact D |]. cbn [db messages]. rewrite <- Q.
  split; [reflexivity |]. split; [reflexivity |].
  split; [apply index_after_delete | reflexivity].
Qed.

Lemma delete_removes_the_picks_of_one_query_witness :
  exists w',
    delete example_request 1 example_world =
    (Ok (redirect "wagtailsearchpromotions:index"), w') /\
    promotions (db w') = [] /\
    get_base_queryset (db w') = [].
Proof.
  destruct (delete_removes_the_picks_of_one_query
              example_request 1 (mkQuery 1 "cats") example_world
              eq_refl eq_refl eq_refl) as [w' [D [P [_ [I _]]]]].
  exists w'. split; [exact D |]. split; [exact P | exact I].
Defined.

(** ** What an edit leaves alone *)

Definition action_pk (a : Action) : positive :=
  match a with
  | ActDelete obj => pk obj
  | ActUpdate obj _ => pk obj
  end.

Lemma apply_actions_untouched (acts : list Action) :
  forall ps r,
    In r ps ->
    (forall a, In a acts -> action_pk a <> pk r) ->
    In r (fold_left apply_action acts ps).
Proof.
  induction acts as [| a rest IH]; intros ps r I H.
  - exact I.
  - cbn [fold_left]. apply IH.
    + pose proof (H a (or_introl eq_refl)) as NE.
      destruct a as [obj | obj cd]; simpl in NE |- *.
      * apply filter_In. split; [exact I |].
        apply negb_true_iff, Pos.eqb_neq. intros E. apply NE. symmetry.
        exact E.
      * apply in_map_iff. exists r. split; [| exact I].
        destruct (Pos.eqb_spec (pk r) (pk obj)) as [E | _]; [| reflexivity].
        exfalso. apply NE. symmetry. exact E.
    + intros b Ib. apply H. right. exact Ib.
Qed.

Lemma sp_action_names_a_form fs a :
  formset_is_valid fs = true ->
  In a (sp_actions fs) ->
  exists f, In f (initial_forms fs) /\ instance_pk f = Some (action_pk a).
Proof.
  intros V I.
  assert (K : In (action_key a) (key_actions fs)).
  { rewrite <- (sp_actions_keys fs V). apply in_map. exact I. }
  unfold key_actions in K. apply in_flat_map in K.
  destruct K as [f [If K]]. exists f. split; [exact If |].
  destruct (instance_pk f) as [k |]; [| destruct K].
  destruct (cleaned_DELETE f); destruct K as [E | []];
    destruct a; inversion E; reflexivity.
Qed.

Lemma bound_key_is_a_pick post inst st f k :
  In f (initial_forms (bound_formset post inst st)) ->
  instance_pk f = Some k ->
  exists p, In p (promotions st) /\ pk p = k /\ query_id p = qid inst.
Proof.
  intros I P. rewrite bound_initial_forms in I. apply in_map_iff in I.
  destruct I as [d [E _]]. subst f.
  destruct (bound_form_key (editors_picks st inst) d k P)
    as [_ [p [Ip [E _]]]].
  apply in_editors_picks in Ip. destruct Ip as [Ip Q]. exists p. auto.
Qed.

Lemma unique_key_same_row (ps : list SearchPromotion) r p :
  NoDup (map pk ps) -> In r ps -> In p ps -> pk r = pk p -> r = p.
Proof.
  induction ps as [| x rest IH]; intros N Ir Ip E; [destruct Ir |].
  simpl in N. apply NoDup_cons_iff in N. destruct N as [NI N].
  destruct Ir as [Er | Ir]; destruct Ip as [Ep | Ip].
  - congruence.
  - subst x. exfalso. apply NI. rewrite E. apply in_map. exact Ip.
  - subst x. exfalso. apply NI. rewrite <- E. apply in_map. exact Ir.
  - apply IH; assumption.
Qed.

Lemma bulk_moved_keeps_others old_q new_q ps r :
  In r ps -> query_id r <> old_q -> In r (bulk_moved old_q new_q ps).
Proof.
  intros I NE. unfold bulk_moved. apply in_map_iff. exists r.
  split; [| exact I].
  destruct (Pos.eqb_spec (query_id r) old_q) as [E | _];
    [contradiction | reflexivity].
Qed.

Lemma bound_save_keeps_other_rows query new_query post st0 st r :
  post_formset_valid post = true ->
  promotions st = promotions st0 ->
  NoDup (map pk (promotions st0)) ->
  In r (promotions st0) ->
  query_id r <> qid query ->
  In r (sp_promotions query new_query (bound_formset post query st0) st).
Proof.
  intros V SP N I NE. unfold sp_promotions.
  set (fs := bound_formset post query st0).
  assert (K : In r (fold_left apply_action (sp_actions fs) (promotions st)
                    ++ sp_rows fs st)).
  { apply in_or_app. left. rewrite SP. apply apply_actions_untouched;
      [exact I |].
    intros a Ia E.
    destruct (sp_action_names_a_form fs a V Ia) as [f [If Pf]].
    destruct (bound_key_is_a_pick post query st0 f (action_pk a) If Pf)
      as [p [Ip [Kp Qp]]].
    apply NE. rewrite <- Qp. f_equal.
    apply (unique_key_same_row (promotions st0)); [assumption .. |].
    congruence. }
  destruct (negb (Query_eqb query new_query)); [| exact K].
  apply bulk_moved_keeps_others; assumption.
Qed.

(** X8.  Editing the picks of one Query never alters the picks of another:
    when keys are unique in the table, every promotion row that was attached
    to a Query other than the edited one is still stored, unchanged, after a
    successful edit, whether or not the query string was changed. *)
Theorem edit_leaves_other_queries_picks
        (norm : string -> string) (request : Request) (query_pk : positive)
        (query : Query) (w : World) :
  faults w = [] ->
  find (fun q => Pos.eqb (qid q) query_pk) (queries (db w)) = Some query ->
  method request = "POST" ->
  post_query_form_valid (POST request) = true ->
  post_formset_valid (POST request) = true ->
  NoDup (map pk (promotions (db w))) ->
  exists w',
    edit norm request query_pk w =
    (Ok (redirect "wagtailsearchpromotions:index"), w') /\
    forall r, In r (promotions (db w)) ->
              query_id r <> query_pk ->
              In r (promotions (db w')).
Proof.
  intros HF F HM HQ HV N.
  destruct w as [st ms j t fl]. simpl in HF. subst fl. cbn [db] in F, N.
  destruct (edit_run norm request query_pk query st ms j t F HM HQ HV)
    as [t' E].
  assert (Q : qid query = query_pk)
    by (apply find_some in F; destruct F as [_ X]; apply Pos.eqb_eq; exact X).
  eexists. split; [exact E |]. cbn [db]. intros r I NE.
  unfold edit_final_store, sp_store. cbn [promotions].
  apply bound_save_keeps_other_rows; try assumption.
  - apply (store_with_query_frame _ st).
  - rewrite Q. exact NE.
Qed.

Definition two_query_store : Store :=
  mkStore [mkQuery 1 "cats"; mkQuery 2 "dogs"]
          [mkPick 1 1 10 "a" (Some 0); mkPick 2 1 11 "b" (Some 1);
           mkPick 3 2 12 "c" (Some 0)]
          [] [] 4.

Lemma edit_leaves_other_queries_picks_witness :
  exists w',
    edit lower example_request 1 (mkWorld two_query_store [] [] 0 []) =
    (Ok (redirect "wagtailsearchpromotions:index"), w') /\
    In (mkPick 3 2 12 "c" (Some 0)) (promotions (db w')).
Proof.
  destruct (edit_leaves_other_queries_picks
              lower example_request 1 (mkQuery 1 "cats")
              (mkWorld two_query_store [] [] 0 [])
              eq_refl eq_refl eq_refl eq_refl eq_refl)
    as [w' [E H]].
  - repeat constructor; simpl; intuition discriminate.
  - exists w'. split; [exact E |]. apply H.
    + right. right. left. reflexivity.
    + discriminate.
Defined.

(** ** Renaming and not renaming *)

Lemma listed_row_has_a_promotion st r :
  In r (get_base_queryset st) ->
  exists p, In p (promotions st) /\ query_id p = qid (row_query r).
Proof.
  intros I. unfold get_base_queryset in I. apply in_map_iff in I.
  destruct I as [q [E I]]. apply filter_In in I. destruct I as [_ H].
  subst r. apply existsb_has_promotions in H. exact H.
Qed.

Lemma renamed_query_differs ns st query :
  In query (queries st) ->
  (forall q, In q (queries st) -> query_string q = ns -> qid q <> qid query) ->
  qid (query_of ns st) <> qid query.
Proof.
  intros I HD. unfold query_of.
  destruct (find (fun q => String.eqb (query_string q) ns) (queries st))
    as [q |] eqn:G.
  - apply find_some in G. destruct G as [Iq S]. apply String.eqb_eq in S.
    apply HD; assumption.
  - simpl. pose proof (fresh_qid_above (queries st) query I). lia.
Qed.

Lemma store_with_query_keeps ns st q :
  In q (queries st) -> In q (queries (store_with_query ns st)).
Proof.
  intros I. unfold store_with_query.
  destruct (find _ (queries st)); [exact I |].
  simpl. apply in_or_app. left. exact I.
Qed.

Lemma kept_row_survives_the_save post query st r :
  post_formset_valid post = true ->
  In r (promotions st) ->
  query_id r = qid query ->
  ~ marked_for_deletion post (pk r) ->
  exists r1,
    In r1 (fold_left apply_action (sp_actions (bound_formset post query st))
                     (promotions st)) /\
    pk r1 = pk r /\ query_id r1 = qid query.
Proof.
  intros V I Q NM. set (fs := bound_formset post query st).
  destruct (apply_actions_keeps (qid (instance fs)) (sp_actions fs)
                                (promotions st) r I)
    as [r1 [I1 [P1 Q1]]].
  - intros obj Io C. apply NM.
    apply (bound_deleted_keys_marked post query st). rewrite <- C.
    apply (in_sp_actions_delete fs obj V Io).
  - intros obj cd Io.
    pose proof (sp_actions_query fs) as A. rewrite Forall_forall in A.
    exact (A _ Io).
  - exists r1. split; [exact I1 |]. split; [exact P1 |].
    destruct Q1 as [Q1 | Q1]; [congruence | exact Q1].
Qed.

(** X9.  After a successful edit that renames the search term to another
    Query entity, the old Query is still stored but the index no longer
    lists it; and when at least one of its picks is not marked for deletion,
    the index lists the new Query. *)
Theorem renamed_query_leaves_the_index
        (norm : string -> string) (request : Request) (query_pk : positive)
        (query : Query) (w : World) :
  faults w = [] ->
  find (fun q => Pos.eqb (qid q) query_pk) (queries (db w)) = Some query ->
  method request = "POST" ->
  post_query_form_valid (POST request) = true ->
  post_formset_valid (POST request) = true ->
  (forall q, In q (queries (db w)) ->
             query_string q = norm (post_query_string (POST request)) ->
             qid q <> qid query) ->
  exists w',
    edit norm request query_pk w =
    (Ok (redirect "wagtailsearchpromotions:index"), w') /\
    In query (queries (db w')) /\
    (forall r, In r (get_base_queryset (db w')) ->
               qid (row_query r) <> qid query) /\
    ((exists p, In p (promotions (db w)) /\ query_id p = qid query /\
                ~ marked_for_deletion (POST request) (pk p)) ->
     exists r, In r (get_base_queryset (db w')) /\
               query_string (row_query r) =
               norm (post_query_string (POST request)) /\
               row_editors_picks r <> []).
Proof.
  intros HF F HM HQ HV HD.
  destruct w as [st ms j t fl]. simpl in HF. subst fl. cbn [db] in F, HD.
  destruct (edit_run norm request query_pk query st ms j t F HM HQ HV)
    as [t' E].
  set (ns := norm (post_query_string (POST request))) in *.
  set (nq := query_of ns st).
  set (st1 := store_with_query ns st).
  set (fs := bound_formset (POST request) query st).
  assert (Iquery : In query (queries st))
    by (apply find_some in F; destruct F as [I _]; exact I).
  pose proof (renamed_query_differs ns st query Iquery HD) as NQ. fold nq in NQ.
  destruct (query_of_spec ns st) as [Iq Sq]. fold nq in Iq, Sq. fold st1 in Iq.
  destruct (store_with_query_frame ns st) as [SP _]. fold st1 in SP.
  assert (QB : negb (Query_eqb query nq) = true).
  { unfold Query_eqb. apply negb_true_iff, Pos.eqb_neq.
    intros C. apply NQ. symmetry. exact C. }
  assert (FP : promotions (edit_final_store norm (POST request) query st) =
               bulk_moved (qid query) (qid nq)
                          (fold_left apply_action (sp_actions fs)
                                     (promotions st)
                           ++ sp_rows fs st1)).
  { unfold edit_final_store. fold ns. fold nq. fold st1. fold fs.
    unfold sp_store, sp_promotions. cbn [promotions]. rewrite QB, SP.
    reflexivity. }
  eexists. split; [exact E |]. cbn [db].
  split; [| split].
  - unfold edit_final_store, sp_store. cbn [queries].
    apply store_with_query_keeps. exact Iquery.
  - intros r I C.
    destruct (listed_row_has_a_promotion _ r I) as [p [Ip Qp]].
    rewrite FP in Ip.
    apply (bulk_moved_leaves_none (qid query) (qid nq) _ p NQ Ip).
    congruence.
  - intros [p [Ip [Qp NM]]].
    destruct (kept_row_survives_the_save (POST request) query st p HV Ip Qp NM)
      as [r1 [I1 [_ Q1]]]. fold fs in I1.
    destruct (bulk_moved_moves
                (qid query) (qid nq)
                (fold_left apply_action (sp_actions fs) (promotions st)
                 ++ sp_rows fs st1)
                r1 (in_or_app _ _ _ (or_introl I1)) Q1)
      as [r' [I' [_ Q']]].
    rewrite <- FP in I'.
    exists (mkIndexRow
              nq
              (Coalesce (Sum_daily_hits
                           (edit_final_store norm (POST request) query st) nq)
                        0)
              (editors_picks (edit_final_store norm (POST request) query st)
                             nq)).
    cbn [row_query row_editors_picks]. split; [| split; [exact Sq |]].
    + unfold get_base_queryset. apply in_map_iff. exists nq.
      split; [reflexivity |]. apply filter_In. split.
      * unfold edit_final_store, sp_store. cbn [queries]. exact Iq.
      * apply existsb_has_promotions. exists r'. split; assumption.
    + intros X.
      assert (J : In r' (editors_picks
                           (edit_final_store norm (POST request) query st)
                           nq)).
      { apply in_editors_picks. split; [exact I' | exact Q']. }
      rewrite X in J. destruct J.
Qed.

Lemma renamed_query_leaves_the_index_witness :
  exists w',
    edit lower example_request 1 example_world =
    (Ok (redirect "wagtailsearchpromotions:index"), w') /\
    map (fun r => query_string (row_query r)) (get_base_queryset (db w')) =
    ["birds"] /\
    In (mkQuery 1 "cats") (queries (db w')).
Proof.
  destruct (renamed_query_leaves_the_index
              lower example_request 1 (mkQuery 1 "cats") example_world
              eq_refl eq_refl eq_refl eq_refl eq_refl)
    as [w' [E [I _]]].
  - intros q [X | [X | []]] S; subst q; discriminate.
  - exists w'. split; [exact E |]. split; [| exact I].
    assert (W : w' = snd (edit lower example_request 1 example_world))
      by (rewrite E; reflexivity).
    rewrite W. reflexivity.
Defined.

(** X10.  When the submitted query string resolves to the edited Query
    itself, a successful edit creates no Query and issues no bulk
    reassignment, and every pick of the Query that is not marked for deletion
    is still attached to it, under its key. *)
Theorem unrenamed_edit_keeps_picks_in_place
        (norm : string -> string) (request : Request) (query_pk : positive)
        (query : Query) (w : World) :
  faults w = [] ->
  find (fun q => Pos.eqb (qid q) query_pk) (queries (db w)) = Some query ->
  method request = "POST" ->
  post_query_form_valid (POST request) = true ->
  post_formset_valid (POST request) = true ->
  find (fun q => String.eqb (query_string q)
                            (norm (post_query_string (POST request))))
       (queries (db w)) = Some query ->
  exists w' events,
    edit norm request query_pk w =
    (Ok (redirect "wagtailsearchpromotions:index"), w') /\
    queries (db w') = queries (db w) /\
    journal w' = journal w ++ events /\
    filter is_bulk_update events = [] /\
    forall r, In r (promotions (db w)) ->
              query_id r = qid query ->
              ~ marked_for_deletion (POST request) (pk r) ->
              exists r', In r' (promotions (db w')) /\
                         pk r' = pk r /\ query_id r' = qid query.
Proof.
  intros HF F HM HQ HV FS.
  destruct w as [st ms j t fl]. simpl in HF. subst fl. cbn [db] in F, FS.
  destruct (edit_run norm request query_pk query st ms j t F HM HQ HV)
    as [t' E].
  set (ns := norm (post_query_string (POST request))) in *.
  assert (NQ : query_of ns st = query) by (unfold query_of; rewrite FS; reflexivity).
  assert (S1 : store_with_query ns st = st)
    by (unfold store_with_query; rewrite FS; reflexivity).
  assert (QE : query_events ns st = [])
    by (unfold query_events; rewrite FS; reflexivity).
  assert (QB : negb (Query_eqb query query) = false)
    by (unfold Query_eqb; rewrite Pos.eqb_refl; reflexivity).
  eexists. exists (edit_events norm (POST request) query st).
  split; [exact E |]. cbn [db journal].
  unfold edit_final_store, edit_events. fold ns. rewrite NQ, S1, QE.
  split; [reflexivity |]. split; [reflexivity |]. split.
  - cbn [app]. rewrite bulk_updates_of_sp_events, QB. reflexivity.
  - intros r I Q NM.
    destruct (kept_row_survives_the_save (POST request) query st r HV I Q NM)
      as [r1 [I1 [P1 Q1]]].
    exists r1. split; [| split; assumption].
    unfold sp_store, sp_promotions. cbn [promotions]. rewrite QB.
    apply in_or_app. left. exact I1.
Qed.

(** A submission that keeps the search term and changes the description of
    its one pick. *)
Definition same_term_post : PostData :=
  mkPost "Cats" true (Ok true)
         [mkFormData (Some 1%positive) 10 "z" (Some 1%Z) false
                     ["description"] []]
         [] [].

Definition same_term_request : Request :=
  mkRequest "POST" [] same_term_post [] [].

Lemma unrenamed_edit_keeps_picks_in_place_witness :
  exists w' r',
    edit lower same_term_request 1 example_world =
    (Ok (redirect "wagtailsearchpromotions:index"), w') /\
    queries (db w') = queries example_store /\
    In r' (promotions (db w')) /\ pk r' = 2%positive /\
    query_id r' = 1%positive.
Proof.
  destruct (unrenamed_edit_keeps_picks_in_place
              lower same_term_request 1 (mkQuery 1 "cats") example_world
              eq_refl eq_refl eq_refl eq_refl eq_refl eq_refl)
    as [w' [events [E [Q [_ [_ H]]]]]].
  destruct (H (mkPick 2 1 11 "b" (Some 1))) as [r' [I [P K]]].
  - right. left. reflexivity.
  - reflexivity.
  - intros [d [[X | []] [Pd _]]]. subst d. discriminate.
  - exists w', r'. repeat (split; [assumption |]). exact K.
Defined.

(** ** The second logging of [add] is outside the transaction *)

Lemma for_each_log_frame act (l : list SearchPromotion) :
  forall w r w',
    for_each l (fun sp => log sp act) w = (r, w') ->
    promotions (db w') = promotions (db w) /\
    queries (db w') = queries (db w) /\
    exists es, log_entries (db w') = log_entries (db w) ++ es.
Proof.
  induction l as [| x rest IH]; intros w r w' H.
  - inversion H; subst. split; [| split]; try reflexivity.
    exists []. rewrite app_nil_r. reflexivity.
  - cbn [for_each] in H. unfold bind at 1, log, write, write_dyn in H.
    destruct (fault_now w).
    + inversion H; subst. split; [| split]; try reflexivity.
      exists []. rewrite app_nil_r. reflexivity.
    + apply IH in H. cbn [db promotions queries log_entries] in H.
      destruct H as [P [Q [es L]]]. split; [exact P |]. split; [exact Q |].
      exists (mkLog (pk x) act :: es). rewrite L, <- app_assoc. reflexivity.
Qed.

(** X11.  [add] writes its own create entries after the transaction of
    [save_searchpicks] has committed.  Once [save_searchpicks] has returned
    true, whatever happens next, under every fault plan and whether [add]
    then returns or raises, the picks and Queries are those the save left and
    the audit log has only grown: a failure while writing the second create
    entries does not undo the save. *)
Theorem add_does_not_undo_a_committed_save
        (norm : string -> string) (request : Request) (w w1 w2 : World)
        (query : Query) (fs' : Formset) :
  method request = "POST" ->
  post_query_form_valid (POST request) = true ->
  Query_get norm (post_query_string (POST request)) w = (Ok query, w1) ->
  save_searchpicks query query
                   (bound_formset (POST request) query (db w1)) w1 =
  (Ok (true, fs'), w2) ->
  promotions (db (snd (add norm request w))) = promotions (db w2) /\
  queries (db (snd (add norm request w))) = queries (db w2) /\
  exists es,
    log_entries (db (snd (add norm request w))) = log_entries (db w2) ++ es.
Proof.
  intros HM HQ G S.
  destruct (add norm request w) as [r wf] eqn:A. cbn [snd].
  unfold add in A. rewrite HM, String.eqb_refl in A.
  unfold QueryForm_bound at 1 in A. cbn [query_form_is_valid] in A.
  rewrite HQ in A. cbn [query_string_value QueryForm_bound] in A.
  rewrite (bind_run _ _ _ _ _ G) in A.
  rewrite (bind_run _ _ _ _ _ (SearchPromotionsFormSet_run _ _ _)) in A.
  rewrite (bind_run _ _ _ _ _ S) in A. cbn [fst snd] in A.
  unfold bind at 1 in A.
  destruct (for_each (new_objects fs')
                     (fun search_pick => log search_pick "wagtail.create") w2)
    as [[u | e] w3] eqn:L; apply for_each_log_frame in L.
  - unfold messages_success, messages_add, bind, ret in A.
    inversion A; subst. exact L.
  - inversion A; subst. exact L.
Qed.

(** The fourth statement of this add is the first create entry that [add]
    writes itself. *)
Definition late_fault_world : World := mkWorld example_store [] [] 0 [3].

Lemma add_does_not_undo_a_committed_save_witness :
  fst (add lower example_request late_fault_world) = Raise DatabaseError /\
  map pk (promotions (db (snd (add lower example_request late_fault_world)))) =
  [1%positive; 2%positive; 3%positive] /\
  log_entries (db (snd (add lower example_request late_fault_world))) =
  [mkLog 3 "wagtail.create"].
Proof.
  split; [reflexivity |].
  destruct (add_does_not_undo_a_committed_save
              lower example_request late_fault_world
              (snd (Query_get lower "Birds" late_fault_world))
              (snd (save_searchpicks
                      (mkQuery 3 "birds") (mkQuery 3 "birds")
                      (bound_formset example_post (mkQuery 3 "birds")
                                     (db (snd (Query_get lower "Birds"
                                                         late_fault_world))))
                      (snd (Query_get lower "Birds" late_fault_world))))
              (mkQuery 3 "birds")
              (match fst (save_searchpicks
                            (mkQuery 3 "birds") (mkQuery 3 "birds")
                            (bound_formset example_post (mkQuery 3 "birds")
                                           (db (snd (Query_get
                                                       lower "Birds"
                                                       late_fault_world))))
                            (snd (Query_get lower "Birds" late_fault_world)))
               with
               | Ok x => snd x
               | Raise _ => example_formset
               end)
              eq_refl eq_refl eq_refl)
    as [P _].
  - reflexivity.
  - split; [rewrite P |]; reflexivity.
Defined.

(** ** The numbering of the saved picks *)

(** [a] does not sort after [b]: the order of [compare_ordering_key]. *)
Definition order_le (a b : nat * option Z) : Prop :=
  key_ltb (compare_ordering_key b) (compare_ordering_key a) = false.

Lemma key_ltb_spec (a b : nat * Z) :
  key_ltb a b = true <->
  fst a < fst b \/ (fst a = fst b /\ (snd a < snd b)%Z).
Proof.
  unfold key_ltb.
  rewrite orb_true_iff, andb_true_iff, Nat.ltb_lt, Nat.eqb_eq, Z.ltb_lt.
  reflexivity.
Qed.

Lemma order_le_spec (a b : nat * option Z) :
  order_le a b <->
  ~ (fst (compare_ordering_key b) < fst (compare_ordering_key a) \/
     (fst (compare_ordering_key b) = fst (compare_ordering_key a) /\
      (snd (compare_ordering_key b) < snd (compare_ordering_key a))%Z)).
Proof.
  unfold order_le. rewrite <- key_ltb_spec.
  destruct (key_ltb (compare_ordering_key b) (compare_ordering_key a)).
  - split; [discriminate | intros H; exfalso; apply H; reflexivity].
  - split; [intros _ C; discriminate | reflexivity].
Qed.

Lemma order_le_trans a b c : order_le a b -> order_le b c -> order_le a c.
Proof. rewrite !order_le_spec. lia. Qed.

Lemma order_lt_le a b :
  key_ltb (compare_ordering_key a) (compare_ordering_key b) = true ->
  order_le a b.
Proof. rewrite key_ltb_spec, order_le_spec. lia. Qed.

Lemma insert_stable_sorted x l :
  StronglySorted order_le l -> StronglySorted order_le (insert_stable x l).
Proof.
  intros S. induction S as [| y rest S IH F]; simpl.
  - constructor; constructor.
  - destruct (key_ltb (compare_ordering_key x) (compare_ordering_key y)) eqn:K.
    + constructor; [constructor; assumption |].
      apply order_lt_le in K. constructor; [exact K |].
      rewrite Forall_forall in F |- *. intros z I.
      apply (order_le_trans x y z K (F z I)).
    + constructor; [exact IH |].
      rewrite Forall_forall in F |- *. intros z I.
      apply in_insert_stable in I. destruct I as [E | I].
      * subst z. exact K.
      * exact (F z I).
Qed.

Lemma sort_stable_sorted l : StronglySorted order_le (sort_stable l).
Proof.
  unfold sort_stable.
  assert (G : forall acc, StronglySorted order_le acc ->
                          StronglySorted
                            order_le
                            (fold_left (fun acc x => insert_stable x acc) l acc)).
  { induction l as [| x rest IH]; intros acc S; simpl; [exact S |].
    apply IH. apply insert_stable_sorted. exact S. }
  apply G. constructor.
Qed.

Lemma insert_stable_perm x l : Permutation (insert_stable x l) (x :: l).
Proof.
  induction l as [| y rest IH]; simpl.
  - apply Permutation_refl.
  - destruct (key_ltb (compare_ordering_key x) (compare_ordering_key y)).
    + apply Permutation_refl.
    + apply Permutation_trans with (y :: x :: rest).
      * apply perm_skip. exact IH.
      * apply perm_swap.
Qed.

Lemma sort_stable_perm l : Permutation (sort_stable l) l.
Proof.
  unfold sort_stable.
  assert (G : forall acc,
             Permutation (fold_left (fun acc x => insert_stable x acc) l acc)
                         (l ++ acc)).
  { induction l as [| x rest IH]; intros acc; simpl.
    - apply Permutation_refl.
    - apply Permutation_trans with (rest ++ insert_stable x acc); [apply IH |].
      apply Permutation_trans with (rest ++ x :: acc).
      + apply Permutation_app_head. apply insert_stable_perm.
      + apply Permutation_sym. apply Permutation_middle. }
  specialize (G []). rewrite app_nil_r in G. exact G.
Qed.

Lemma candidate_indexes_NoDup {A O} (g : nat -> A -> list O) (l : list A) :
  (forall i x, List.length (g i x) <= 1) ->
  forall s,
    NoDup (map fst (flat_map (fun '(i, x) => map (pair i) (g i x))
                             (combine (seq s (List.length l)) l))) /\
    forall i, In i (map fst (flat_map (fun '(i, x) => map (pair i) (g i x))
                                      (combine (seq s (List.length l)) l))) ->
              s <= i.
Proof.
  intros H. induction l as [| y rest IH]; intros s; simpl.
  - split; [constructor | intros i []].
  - destruct (IH (S s)) as [N Bd]. rewrite map_app, map_map. cbn [fst].
    pose proof (H s y) as L. split.
    + destruct (g s y) as [| b [| c more]]; simpl in L |- *; try lia.
      * exact N.
      * constructor; [| exact N]. intros I. apply Bd in I. lia.
    + intros i I. apply in_app_iff in I. destruct I as [I | I].
      * apply in_map_iff in I. destruct I as [b [E _]]. simpl in E. lia.
      * apply Bd in I. lia.
Qed.

Lemma ordered_form_indexes_NoDup fs : NoDup (ordered_form_indexes fs).
Proof.
  unfold ordered_form_indexes, ordering.
  apply (Permutation_NoDup
           (Permutation_sym (Permutation_map fst (sort_stable_perm _)))).
  pose proof (candidate_indexes_NoDup
                (fun i f =>
                   if (initial_form_count fs <=? i) && negb (has_changed f)
                   then []
                   else if should_delete_form f then []
                        else [cleaned_ORDER f])
                (forms fs)) as C.
  destruct (C ltac:(intros i f; cbv beta;
                    destruct ((initial_form_count fs <=? i)
                              && negb (has_changed f));
                    [simpl; lia |];
                    destruct (should_delete_form f); simpl; lia)
              0) as [N _].
  unfold enumerate.
  erewrite flat_map_ext; [exact N |].
  intros [i f]. simpl.
  destruct ((initial_form_count fs <=? i) && negb (has_changed f));
    [reflexivity |].
  destruct (should_delete_form f); reflexivity.
Qed.

Lemma map_snd_combine_seq {A} (l : list A) :
  forall s, map snd (combine (seq s (List.length l)) l) = l.
Proof.
  induction l as [| x rest IH]; intros s; simpl.
  - reflexivity.
  - rewrite IH. reflexivity.
Qed.

Lemma numbering_exact (idxs : list nat) :
  NoDup idxs ->
  forall s (fms : list Form) i j f,
    nth_error idxs i = Some j ->
    nth_error fms j = Some f ->
    nth_error
      (fold_left (fun fms '(i, j) => update_at j (set_order i) fms)
                 (combine (seq s (List.length idxs)) idxs) fms)
      j = Some (set_order (s + i) f).
Proof.
  induction idxs as [| j0 rest IH]; intros N s fms i j f Hi Hf.
  - destruct i; discriminate.
  - apply NoDup_cons_iff in N. destruct N as [NI N].
    cbn [List.length seq combine fold_left].
    destruct i as [| i]; simpl in Hi.
    + inversion Hi; subst j0.
      pose proof (numbering_nth
                    (combine (seq (S s) (List.length rest)) rest)
                    (update_at j (set_order s) fms) j) as K.
      rewrite nth_error_update_at, Nat.eqb_refl, Hf in K. simpl in K.
      destruct K as [K _]. rewrite map_snd_combine_seq in K.
      rewrite Nat.add_0_r. apply K. exact NI.
    + assert (NE : j <> j0).
      { intros E. subst j0. apply NI. apply (nth_error_In _ _ Hi). }
      replace (s + S i) with (S s + i) by lia.
      apply (IH N (S s)); [exact Hi |].
      rewrite nth_error_update_at.
      destruct (Nat.eqb_spec j j0) as [E | _]; [contradiction | exact Hf].
Qed.

Lemma sp_numbering fs i j f :
  nth_error (ordered_form_indexes fs) i = Some j ->
  nth_error (forms fs) j = Some f ->
  nth_error (forms (sp_formset fs)) j = Some (set_order i f).
Proof.
  intros Hi Hf.
  change (forms (sp_formset fs)) with (set_sort_orders fs).
  unfold set_sort_orders, enumerate.
  apply (numbering_exact (ordered_form_indexes fs)
                         (ordered_form_indexes_NoDup fs) 0 (forms fs) i j f
                         Hi Hf).
Qed.

Lemma in_ordering_iff fs j o :
  In (j, o) (ordering fs) <->
  exists f, nth_error (forms fs) j = Some f /\ cleaned_ORDER f = o /\
            cleaned_DELETE f = false /\
            (j < initial_form_count fs \/ has_changed f = true).
Proof.
  unfold ordering. rewrite in_sort_stable, in_flat_map.
  unfold should_delete_form. split.
  - intros [[j' f] [E I]]. apply in_enumerate in E.
    destruct (Nat.leb_spec (initial_form_count fs) j') as [L | L];
      simpl in I.
    + destruct (has_changed f) eqn:C; simpl in I; [| destruct I].
      destruct (cleaned_DELETE f) eqn:D; [destruct I |].
      destruct I as [X | []]. inversion X; subst. exists f. auto.
    + destruct (cleaned_DELETE f) eqn:D; [destruct I |].
      destruct I as [X | []]. inversion X; subst. exists f. auto.
  - intros [f [Hf [Eo [D C]]]]. exists (j, f).
    split; [apply in_enumerate; exact Hf |]. cbv beta iota.
    assert (X : (initial_form_count fs <=? j) && negb (has_changed f) = false).
    { destruct C as [C | C].
      - destruct (Nat.leb_spec (initial_form_count fs) j); [lia | reflexivity].
      - rewrite C. apply andb_false_r. }
    rewrite X, D, Eo. left. reflexivity.
Qed.

Lemma sp_form_at fs j f :
  nth_error (forms fs) j = Some f ->
  exists f',
    nth_error (forms (sp_formset fs)) j = Some f' /\
    same_data f f' /\
    (forall i o, nth_error (ordering fs) i = Some (j, o) -> f' = set_order i f) /\
    (~ In j (map fst (ordering fs)) -> f' = f).
Proof.
  intros Hf. pose proof (sp_forms_nth fs j) as S. rewrite Hf in S.
  destruct S as [f' [Hf' [SD [_ U]]]]. exists f'.
  split; [exact Hf' |]. split; [exact SD |]. split; [| exact U].
  intros i o Hi.
  assert (Hj : nth_error (ordered_form_indexes fs) i = Some j).
  { unfold ordered_form_indexes. rewrite nth_error_map, Hi. reflexivity. }
  rewrite (sp_numbering fs i j f Hj Hf) in Hf'. inversion Hf'. reflexivity.
Qed.

Lemma flat_map_ext_in {A B} (g h : A -> list B) (l : list A) :
  (forall x, In x l -> g x = h x) -> flat_map g l = flat_map h l.
Proof.
  induction l as [| x rest IH]; intros H; simpl; [reflexivity |].
  rewrite (H x (or_introl eq_refl)), IH; [reflexivity |].
  intros y I. apply H. right. exact I.
Qed.

(** The rows that the save rewrites are the instances of the initial forms
    that have a key and are not marked for deletion, form by form. *)
Lemma sp_changed_rows fs :
  formset_is_valid fs = true ->
  sp_changed fs =
  flat_map (fun f' =>
              match instance_pk f' with
              | Some k =>
                  if cleaned_DELETE f' then []
                  else [(form_instance (sp_formset fs) f' k, changed_data f')]
              | None => []
              end)
           (initial_forms (sp_formset fs)).
Proof.
  intros V. unfold sp_changed. rewrite (sp_actions_plain fs V).
  rewrite flat_map_flat_map. apply flat_map_ext_in. intros f' I.
  unfold plain_step, should_delete_form.
  destruct (instance_pk f') as [k |]; [| reflexivity].
  destruct (cleaned_DELETE f') eqn:D; [reflexivity |].
  destruct (Forall2_in_right _ _ _ _ (sp_initial_forms fs) I)
    as [f [_ [[_ [_ [_ [_ [E5 _]]]]] HC]]].
  rewrite HC by congruence. reflexivity.
Qed.

Lemma inserted_rows_data fs fms :
  forall k,
    map (fun r => (query_id r, page_id r, description r, sort_order r))
        (inserted_rows fs fms k) =
    map (fun f => (qid (instance fs), cleaned_page f, cleaned_description f,
                   instance_sort_order f))
        fms.
Proof.
  induction fms as [| f rest IH]; intros k; simpl; [reflexivity |].
  rewrite IH. reflexivity.
Qed.

(** The keys that the initial forms of the formset name, form by form. *)
Definition initial_keys (fs : Formset) : list positive :=
  flat_map (fun f => match instance_pk f with
                     | Some k => [k]
                     | None => []
                     end)
           (initial_forms fs).

Lemma sp_action_pks fs :
  formset_is_valid fs = true ->
  map action_pk (sp_actions fs) = initial_keys fs.
Proof.
  intros V.
  assert (E : map action_pk (sp_actions fs) =
              map (fun a => match a with
                            | KDelete k => k
                            | KUpdate k _ => k
                            end)
                  (map action_key (sp_actions fs))).
  { rewrite map_map. apply map_ext. intros [obj | obj cd]; reflexivity. }
  rewrite E, (sp_actions_keys fs V). unfold key_actions, initial_keys.
  induction (initial_forms fs) as [| f rest IH]; simpl; [reflexivity |].
  rewrite map_app, IH. f_equal.
  destruct (instance_pk f); [| reflexivity].
  destruct (cleaned_DELETE f); reflexivity.
Qed.

Lemma apply_action_keeps_key ps a k :
  In k (map pk ps) -> action_pk a <> k -> In k (map pk (apply_action ps a)).
Proof.
  intros I NE. apply in_map_iff in I. destruct I as [p [E I]].
  destruct a as [obj | obj cd]; simpl in NE |- *.
  - apply in_map_iff. exists p. split; [exact E |].
    apply filter_In. split; [exact I |].
    apply negb_true_iff, Pos.eqb_neq. congruence.
  - rewrite map_map. apply in_map_iff. exists p. split; [| exact I].
    destruct (Pos.eqb_spec (pk p) (pk obj)) as [X | _]; congruence.
Qed.

Lemma apply_actions_updates (acts : list Action) :
  forall ps obj cd,
    In (ActUpdate obj cd) acts ->
    NoDup (map action_pk acts) ->
    In (pk obj) (map pk ps) ->
    In obj (fold_left apply_action acts ps).
Proof.
  induction acts as [| a rest IH]; intros ps obj cd I N K; [destruct I |].
  cbn [map] in N. apply NoDup_cons_iff in N. destruct N as [NI N].
  cbn [fold_left]. destruct I as [E | I].
  - subst a. apply apply_actions_untouched.
    + simpl. apply in_map_iff in K. destruct K as [p [E I]].
      apply in_map_iff. exists p. split; [| exact I].
      rewrite E, Pos.eqb_refl. reflexivity.
    + intros b Ib E. apply NI. simpl. rewrite <- E. apply in_map. exact Ib.
  - apply (IH _ obj cd I N). apply apply_action_keeps_key; [exact K |].
    intros E. apply NI. rewrite E.
    change (pk obj) with (action_pk (ActUpdate obj cd)). apply in_map. exact I.
Qed.

Lemma bulk_moved_row old_q new_q ps r :
  In r ps ->
  exists r', In r' (bulk_moved old_q new_q ps) /\
             pk r' = pk r /\ sort_order r' = sort_order r /\
             page_id r' = page_id r /\ description r' = description r.
Proof.
  intros I.
  exists (if Pos.eqb (query_id r) old_q
          then mkPick (pk r) new_q (page_id r) (description r) (sort_order r)
          else r).
  split.
  - unfold bulk_moved. apply in_map_iff. exists r. split; [reflexivity | exact I].
  - destruct (Pos.eqb (query_id r) old_q); repeat split.
Qed.

Lemma sp_promotions_row query new_query fs st r :
  In r (fold_left apply_action (sp_actions fs) (promotions st)
        ++ sp_rows fs st) ->
  exists r', In r' (sp_promotions query new_query fs st) /\
             pk r' = pk r /\ sort_order r' = sort_order r /\
             page_id r' = page_id r /\ description r' = description r.
Proof.
  intros I. unfold sp_promotions.
  destruct (negb (Query_eqb query new_query)).
  - apply bulk_moved_row. exact I.
  - exists r. repeat split. exact I.
Qed.

(** The form at position [i] of the ordering, when it names a row, makes the
    save rewrite that row with sort order [i]. *)
Lemma sp_update_of_ordered_form fs i j o f k :
  formset_is_valid fs = true ->
  nth_error (ordering fs) i = Some (j, o) ->
  j < initial_form_count fs ->
  nth_error (forms fs) j = Some f ->
  instance_pk f = Some k ->
  In (ActUpdate (mkPick k (qid (instance fs)) (cleaned_page f)
                        (cleaned_description f) (Some i))
                (changed_data f))
     (sp_actions fs).
Proof.
  intros V Hi L Hf P.
  assert (D : cleaned_DELETE f = false).
  { apply nth_error_In, in_ordering_iff in Hi.
    destruct Hi as [g [Hg [_ [D _]]]]. rewrite Hf in Hg.
    inversion Hg; subst g. exact D. }
  destruct (sp_form_at fs j f Hf) as [f' [Hf' [_ [N _]]]].
  rewrite (N i o Hi) in Hf'.
  rewrite (sp_actions_plain fs V). apply in_flat_map.
  exists (set_order i f). split.
  - apply (nth_error_In _ j). unfold initial_forms.
    rewrite nth_error_firstn.
    change (initial_form_count (sp_formset fs)) with (initial_form_count fs).
    destruct (Nat.ltb_spec j (initial_form_count fs)); [exact Hf' | lia].
  - unfold plain_step, should_delete_form, has_changed.
    cbn [set_order instance_pk cleaned_DELETE has_changed_forced orb
                   changed_data].
    rewrite P, D. left. reflexivity.
Qed.

(** X12.  The save numbers the picks in the order of their ORDER field, for
    a submission in which no two forms name the same pick.  The
    forms that are neither marked for deletion nor blank extra forms, and no
    others, are taken by ascending ORDER value, a missing value last, each
    once.  The form at position [i] of that order gets [sort_order = i] and
    is marked as changed, so that it is saved even when no field of it
    changed; its data stay as submitted, and the other forms are left as
    they were.  The rows written are the instances of these forms, form by
    form: an update for each kept form that names a row and an insert for
    each kept extra form, each with the page, the description and the sort
    order of its own form; and the store holds them afterwards, so that the
    row named by the form at position [i] has sort order [i]. *)
Theorem saved_picks_are_numbered_in_order
        (query new_query : Query) (fs : Formset) (w : World) :
  faults w = [] ->
  formset_is_valid fs = true ->
  NoDup (initial_keys fs) ->
  exists fs' w',
    save_searchpicks query new_query fs w = (Ok (true, fs'), w') /\
    StronglySorted order_le (ordering fs) /\
    NoDup (map fst (ordering fs)) /\
    (forall j o,
        In (j, o) (ordering fs) <->
        exists f, nth_error (forms fs) j = Some f /\ cleaned_ORDER f = o /\
                  cleaned_DELETE f = false /\
                  (j < initial_form_count fs \/ has_changed f = true)) /\
    initial_form_count fs' = initial_form_count fs /\
    (forall j, nth_error (forms fs) j = None ->
               nth_error (forms fs') j = None) /\
    (forall j f,
        nth_error (forms fs) j = Some f ->
        exists f',
          nth_error (forms fs') j = Some f' /\
          same_data f f' /\
          (forall i o, nth_error (ordering fs) i = Some (j, o) ->
                       instance_sort_order f' = Some i /\
                       has_changed f' = true) /\
          (~ In j (map fst (ordering fs)) -> f' = f)) /\
    changed_objects fs' =
    flat_map (fun f' =>
                match instance_pk f' with
                | Some k =>
                    if cleaned_DELETE f' then []
                    else [(mkPick k (qid (instance fs)) (cleaned_page f')
                                  (cleaned_description f')
                                  (instance_sort_order f'),
                           changed_data f')]
                | None => []
                end)
             (initial_forms fs') /\
    map (fun r => (query_id r, page_id r, description r, sort_order r))
        (new_objects fs') =
    map (fun f' => (qid (instance fs), cleaned_page f', cleaned_description f',
                    instance_sort_order f'))
        (saved_extra_forms (extra_forms fs')) /\
    (forall i j o f k,
        nth_error (ordering fs) i = Some (j, o) ->
        j < initial_form_count fs ->
        nth_error (forms fs) j = Some f ->
        instance_pk f = Some k ->
        In k (map pk (promotions (db w))) ->
        exists r, In r (promotions (db w')) /\
                  pk r = k /\ sort_order r = Some i /\
                  page_id r = cleaned_page f /\
                  description r = cleaned_description f) /\
    (forall r, In r (new_objects fs') ->
               exists r', In r' (promotions (db w')) /\
                          pk r' = pk r /\ sort_order r' = sort_order r /\
                          page_id r' = page_id r /\
                          description r' = description r).
Proof.
  intros HF V N. destruct w as [st ms j0 t fl]. simpl in HF. subst fl.
  destruct (save_searchpicks_run query new_query fs st ms j0 t V) as [t' S].
  eexists. eexists. split; [exact S |].
  split; [apply sort_stable_sorted |].
  split; [apply ordered_form_indexes_NoDup |].
  split; [apply in_ordering_iff |].
  split; [reflexivity |].
  cbn [forms changed_objects new_objects sp_saved_formset with_saved db].
  split; [| split; [| split; [| split; [| split]]]].
  - intros j Hj. pose proof (sp_forms_nth fs j) as X. rewrite Hj in X.
    exact X.
  - intros j f Hf. destruct (sp_form_at fs j f Hf) as [f' [Hf' [SD [O U]]]].
    exists f'. split; [exact Hf' |]. split; [exact SD |]. split; [| exact U].
    intros i o Hi. rewrite (O i o Hi). split; reflexivity.
  - apply (sp_changed_rows fs V).
  - exact (inserted_rows_data (sp_formset fs) _ (next_pk st)).
  - intros i j o f k Hi L Hf P K.
    pose proof (sp_update_of_ordered_form fs i j o f k V Hi L Hf P) as A.
    pose proof (apply_actions_updates (sp_actions fs) (promotions st) _ _ A)
      as U. rewrite (sp_action_pks fs V) in U. specialize (U N K).
    destruct (sp_promotions_row query new_query fs st _
                                (in_or_app _ (sp_rows fs st) _ (or_introl U)))
      as [r [I [P1 [P2 [P3 P4]]]]].
    exists r. split; [exact I |]. repeat split; assumption.
  - intros r I.
    apply (sp_promotions_row query new_query fs st r).
    apply in_or_app. right. exact I.
Qed.

(** Forms submitted with ORDER 3 and 0 for the two picks of the query, the
    second to delete, and two new picks with no ORDER and ORDER 1. *)
Definition reorder_post : PostData :=
  mkPost "cats" true (Ok true)
         [mkFormData (Some 1%positive) 10 "a" (Some 3%Z) false ["ORDER"] [];
          mkFormData (Some 2%positive) 11 "b" (Some 0%Z) true ["DELETE"] []]
         [mkFormData None 12 "c" None false ["page"] [];
          mkFormData None 13 "d" (Some 1%Z) false ["page"] []]
         [].

Definition reorder_formset : Formset :=
  bound_formset reorder_post (mkQuery 1 "cats") example_store.

Lemma saved_picks_are_numbered_in_order_witness :
  exists fs' w',
    save_searchpicks (mkQuery 1 "cats") (mkQuery 1 "cats") reorder_formset
                     example_world = (Ok (true, fs'), w') /\
    map fst (ordering reorder_formset) = [3; 0; 2] /\
    map instance_sort_order (forms fs') =
    [Some 1; Some 1; Some 2; Some 0] /\
    map (fun x => (pk (fst x), sort_order (fst x))) (changed_objects fs') =
    [(1%positive, Some 1)] /\
    map (fun r => (description r, sort_order r)) (new_objects fs') =
    [("c", Some 2); ("d", Some 0)] /\
    map (fun r => (pk r, description r, sort_order r)) (promotions (db w')) =
    [(1%positive, "a", Some 1); (3%positive, "c", Some 2);
     (4%positive, "d", Some 0)].
Proof.
  destruct (saved_picks_are_numbered_in_order
              (mkQuery 1 "cats") (mkQuery 1 "cats") reorder_formset
              example_world eq_refl eq_refl) as [fs' [w' [S _]]].
  - repeat constructor; simpl; intuition discriminate.
  - exists fs', w'. split; [exact S |]. split; [reflexivity |].
    assert (F : fs' =
                snd (match fst (save_searchpicks
                                  (mkQuery 1 "cats") (mkQuery 1 "cats")
                                  reorder_formset example_world) with
                     | Ok x => x
                     | Raise _ => (true, reorder_formset)
                     end))
      by (rewrite S; reflexivity).
    assert (W : w' = snd (save_searchpicks (mkQuery 1 "cats")
                                           (mkQuery 1 "cats")
                                           reorder_formset example_world))
      by (rewrite S; reflexivity).
    rewrite F, W. vm_compute. repeat split.
Defined.

(** ** What the formset part of a save executes *)







Lemma filter_twice {A} (c : A -> bool) (l : list A) :
  filter c (filter c l) = filter c l.
Proof.
  induction l as [| x rest IH]; simpl; [reflexivity |].
  destruct (c x) eqn:E; simpl; [rewrite E, IH |]; auto.
Qed.

Lemma filter_complement {A} (c : A -> bool) (l : list A) :
  filter c (filter (fun x => negb (c x)) l) = [].
Proof.
  induction l as [| x rest IH]; simpl; [reflexivity |].
  destruct (c x) eqn:E; simpl; [exact IH | rewrite E; exact IH].
Qed.

(** X14.  Deleting twice is deleting once: after a successful POST to
    [delete], a second POST for the same Query also succeeds, finds no pick
    to log or remove, and leaves the picks, the Queries and the audit log as
    the first one left them. *)
Theorem delete_is_idempotent
        (request : Request) (query_pk : positive) (query : Query) (w : World) :
  faults w = [] ->
  find (fun q => Pos.eqb (qid q) query_pk) (queries (db w)) = Some query ->
  method request = "POST" ->
  exists w1 w2,
    delete request query_pk w =
    (Ok (redirect "wagtailsearchpromotions:index"), w1) /\
    delete request query_pk w1 =
    (Ok (redirect "wagtailsearchpromotions:index"), w2) /\
    promotions (db w2) = promotions (db w1) /\
    queries (db w2) = queries (db w1) /\
    log_entries (db w2) = log_entries (db w1).
Proof.
  intros HF F HM. destruct w as [st ms j t fl]. simpl in HF. subst fl.
  cbn [db] in F.
  destruct (delete_run request query_pk query st ms j t F HM) as [t1 D1].
  destruct (delete_run request query_pk query (delete_final_store query st)
                       (ms ++ [mkMessage LvlSuccess "Editor's picks deleted."])
                       (j ++ delete_events query st) t1 F HM) as [t2 D2].
  eexists. eexists. split; [exact D1 |]. split; [exact D2 |].
  cbn [db]. unfold delete_final_store, editors_picks.
  cbn [promotions queries log_entries].
  split; [apply filter_twice |]. split; [reflexivity |].
  rewrite (filter_complement (fun p => Pos.eqb (query_id p) (qid query))).
  simpl. rewrite app_nil_r. reflexivity.
Qed.

Lemma delete_is_idempotent_witness :
  exists w1 w2,
    delete example_request 1 example_world =
    (Ok (redirect "wagtailsearchpromotions:index"), w1) /\
    delete example_request 1 w1 =
    (Ok (redirect "wagtailsearchpromotions:index"), w2) /\
    log_entries (db w2) = log_entries (db w1).
Proof.
  destruct (delete_is_idempotent example_request 1 (mkQuery 1 "cats")
                                 example_world eq_refl eq_refl eq_refl)
    as [w1 [w2 [D1 [D2 [_ [_ L]]]]]].
  exists w1, w2. split; [exact D1 |]. split; [exact D2 | exact L].
Defined.
